(** * Claims AI pipeline: query routing, semantic index and streaming boundary

    A shallow embedding of
    - [backend/services/gemini_service.py] ([GeminiService]),
    - [backend/services/rag_service.py] ([RAGService], whose [build_index] and
      [search] are the same code as [_build_rag_index] and [_search_rag_index]
      over differently named fields),
    - the streaming endpoint [chat_with_ai] of [backend/main.py],
    together with the properties of the routing-and-retrieval engine.

    Conventions of the embedding.
    - A Python [str] is a [string] holding its UTF-8 encoding.  The patterns
      the router looks for are pure ASCII, and a byte below 128 stands for
      itself in UTF-8, so searching the bytes finds what Python finds in the
      code points.  [str.lower] is modelled on the ASCII letters and on the
      two code points outside ASCII whose lowercase contains an ASCII
      letter, U+212A (to "k") and U+0130 (to "i" and U+0307); the bytes of
      every other code point are left as they are, since its lowercase is
      outside ASCII again and the lowered text is only searched.
      [str.upper] is applied to matches of the identifier pattern only,
      which are ASCII.
    - Embedding coordinates and distances are rationals ([Q]): every finite
      [float32] is one.  The confidence gate compares a [float32] distance
      with a Python [float]; how NumPy does this depends on its version and
      is part of the environment ([nep50]).
    - Every exception is an instance of Python's [Exception] (what the
      [except Exception] handlers catch).
    - Calls to [logger] have no effect on the state or on the stream and are
      left out. *)

From Stdlib Require Import Ascii QArith Qround Qminmax Qpower Lqa.
From stdpp Require Import gmap strings list pretty.

Open Scope string_scope.
Open Scope list_scope.

(** ** Text primitives *)

Module Text.

Definition code (c : ascii) : nat := nat_of_ascii c.

Definition in_range (lo hi : nat) (c : ascii) : bool :=
  (lo <=? code c)%nat && (code c <=? hi)%nat.

(** 'A'..'Z' *)
Definition is_upper (c : ascii) : bool := in_range 65 90 c.
(** 'a'..'z' *)
Definition is_lower (c : ascii) : bool := in_range 97 122 c.
(** '0'..'9' *)
Definition is_digit (c : ascii) : bool := in_range 48 57 c.

Definition lower_char (c : ascii) : ascii :=
  if is_upper c then ascii_of_nat (code c + 32) else c.

Definition upper_char (c : ascii) : ascii :=
  if is_lower c then ascii_of_nat (code c - 32) else c.

Fixpoint map_chars (f : ascii -> ascii) (s : string) : string :=
  match s with
  | EmptyString => EmptyString
  | String c r => String (f c) (map_chars f r)
  end.

Definition is_byte (n : nat) (c : ascii) : bool := (code c =? n)%nat.

(** A byte below 128: a code point of its own. *)
Definition is_ascii (c : ascii) : bool := (code c <? 128)%nat.

(** A byte that can only continue one of the two code points [lower]
    looks for. *)
Definition continues (c : ascii) : bool :=
  is_byte 176 c || is_byte 132 c || is_byte 170 c.

(** [s.lower()]: U+0130 (bytes 196 176) becomes "i" followed by U+0307
    (bytes 204 135), U+212A (bytes 226 132 170) becomes "k", and an ASCII
    capital becomes its small letter. *)
Fixpoint lower (s : string) : string :=
  match s with
  | EmptyString => EmptyString
  | String c r =>
      match r with
      | String c1 r1 =>
          if is_byte 196 c && is_byte 176 c1
          then String "i" (String (ascii_of_nat 204) (String (ascii_of_nat 135) (lower r1)))
          else
            match r1 with
            | String c2 r2 =>
                if is_byte 226 c && is_byte 132 c1 && is_byte 170 c2
                then String "k" (lower r2)
                else String (lower_char c) (lower r)
            | EmptyString => String (lower_char c) (lower r)
            end
      | EmptyString => String (lower_char c) (lower r)
      end
  end.
(** [s.upper()] on an ASCII text *)
Definition upper : string -> string := map_chars upper_char.

(** [all(p(c) for c in s)] *)
Fixpoint all_chars (p : ascii -> bool) (s : string) : bool :=
  match s with
  | EmptyString => true
  | String c r => p c && all_chars p r
  end.

(** Longest prefix of [s] whose characters satisfy [p]. *)
Fixpoint span (p : ascii -> bool) (s : string) : string :=
  match s with
  | EmptyString => EmptyString
  | String c r => if p c then String c (span p r) else EmptyString
  end.

(** [s[n:]] *)
Fixpoint drop (n : nat) (s : string) : string :=
  match n, s with
  | O, _ => s
  | S _, EmptyString => EmptyString
  | S m, String _ r => drop m r
  end.

(** [s[:n]] *)
Fixpoint take (n : nat) (s : string) : string :=
  match n, s with
  | O, _ => EmptyString
  | S _, EmptyString => EmptyString
  | S m, String c r => String c (take m r)
  end.

(** [needle in hay] *)
Fixpoint contains (needle hay : string) : bool :=
  String.prefix needle hay ||
  match hay with
  | EmptyString => false
  | String _ r => contains needle r
  end.

(** The character class [[a-z0-9-]] of the identifier pattern. *)
Definition id_char (c : ascii) : bool :=
  is_lower c || is_digit c || Ascii.eqb c "-"%char.

Definition id_prefix : string := "clm-".

(** [re.match(r'clm-[a-z0-9-]+', s)]: the pattern anchored at the start of
    [s].  The trailing class is greedy and nothing follows it, so the match
    is the prefix followed by the longest run of class characters. *)
Definition re_match_claim_id (s : string) : option string :=
  if String.prefix id_prefix s then
    match span id_char (drop (String.length id_prefix) s) with
    | EmptyString => None
    | body => Some (id_prefix +:+ body)
    end
  else None.

(** [re.search(r'clm-[a-z0-9-]+', s)]: the match at the leftmost position
    that has one; [group(0)] of the result. *)
Fixpoint re_search_claim_id (s : string) : option string :=
  match re_match_claim_id s with
  | Some m => Some m
  | None =>
      match s with
      | EmptyString => None
      | String _ r => re_search_claim_id r
      end
  end.

(** A string the identifier pattern matches in full. *)
Definition id_pattern (m : string) : Prop :=
  exists body, m = id_prefix +:+ body /\ body <> "" /\ all_chars id_char body = true.

Definition nl : string := String (ascii_of_nat 10) EmptyString.

End Text.

(** ** Intent routing (gemini_service.py, lines 109-139) *)

Inductive Intent :=
| IdLookup (id : string)
| CountQuery
| SemanticSearch (text : string).

Definition count_keywords : list string := ["how many"; "count"; "total number"].

(** The [if] / [elif] / [else] chain of [stream_response]: the regular
    expression is searched in the lowered message first, the keyword test
    comes second, semantic search is the default. *)
Definition classify (user_message : string) : Intent :=
  let user_message_lower := Text.lower user_message in
  match Text.re_search_claim_id user_message_lower with
  | Some claim_id_match => IdLookup (Text.upper claim_id_match)
  | None =>
      if existsb (fun keyword => Text.contains keyword user_message_lower) count_keywords
      then CountQuery
      else SemanticSearch user_message
  end.

(** ** Python values, exceptions and sequences *)

(** A column value of a store row.  The queries of the pipeline read the
    identifier, type, status and code columns (text) and [COUNT( * )] (an
    integer); [None] is SQL's NULL. *)
Inductive value :=
| VNone
| VInt (n : Z)
| VStr (s : string).

(** A row as [Database.execute_query] returns it: [dict(zip(columns, row))]. *)
Abbreviation Row := (gmap string value).

Inductive exn :=
| Exception (message : string).

(** [str(e)] *)
Definition str_exn (e : exn) : string :=
  match e with Exception message => message end.

Inductive Outcome (A : Type) :=
| Ok (a : A)
| Raise (e : exn).
Arguments Ok {A} a.
Arguments Raise {A} e.

Definition IndexError : exn := Exception "list index out of range".
Definition KeyError (key : string) : exn := Exception ("'" +:+ key +:+ "'").
Definition AssertionError : exn := Exception "".

(** [bool(d.get(key))]: a missing key gives [None]; [None], [0] and the empty
    string are false. *)
Definition truthy (v : option value) : bool :=
  match v with
  | None | Some VNone => false
  | Some (VInt n) => negb (n =? 0)%Z
  | Some (VStr s) => negb (String.eqb s "")
  end.

(** [f"{d.get(key)}"] *)
Definition format_value (v : option value) : string :=
  match v with
  | None | Some VNone => "None"
  | Some (VInt n) => pretty n
  | Some (VStr s) => s
  end.

(** [l[i]] on a Python list or a numpy row: a negative index counts from the
    end, anything outside [-len(l) .. len(l)-1] raises [IndexError]. *)
Definition getitem {A} (l : list A) (i : Z) : Outcome A :=
  let n := Z.of_nat (length l) in
  let j := if (i <? 0)%Z then (i + n)%Z else i in
  if ((0 <=? j)%Z && (j <? n)%Z)%bool then
    match l !! Z.to_nat j with
    | Some x => Ok x
    | None => Raise IndexError
    end
  else Raise IndexError.

(** [[f(i) for i in l]] where [f] may raise. *)
Fixpoint comprehension {A B} (f : A -> Outcome B) (l : list A) : Outcome (list B) :=
  match l with
  | [] => Ok []
  | i :: rest =>
      match f i with
      | Raise e => Raise e
      | Ok x =>
          match comprehension f rest with
          | Raise e => Raise e
          | Ok xs => Ok (x :: xs)
          end
      end
  end.

(** ** The exhaustive L2 index (the part of [faiss.IndexFlatL2] the services use)

    [faiss] is an external library.  The model follows its documented
    behaviour: [add] appends vectors of the index's dimension; [search]
    returns, for each query row, exactly [k] distances and [k] labels in
    ascending order of squared Euclidean distance, and when the index holds
    fewer than [k] vectors the missing places carry label [-1].  A search
    with [k = 0] gives empty rows (the case the services test with
    [len(indices[0]) == 0]).  Equal distances keep insertion order here. *)
Module faiss.

Record IndexFlatL2 := {
  d : nat;
  xb : list (list Q)
}.

(** [faiss.IndexFlatL2(dimension)] *)
Definition new (dimension : nat) : IndexFlatL2 := {| d := dimension; xb := [] |}.

(** [index.ntotal] *)
Definition ntotal (index : IndexFlatL2) : nat := length (xb index).

Definition has_dim (n : nat) (x : list Q) : bool := (length x =? n)%nat.

(** [index.add(x)] *)
Definition add (index : IndexFlatL2) (x : list (list Q)) : Outcome IndexFlatL2 :=
  if forallb (has_dim (d index)) x
  then Ok {| d := d index; xb := xb index ++ x |}
  else Raise AssertionError.

Definition fvec_L2sqr (x y : list Q) : Q :=
  foldr Qplus 0%Q (zip_with (fun a b => (a - b) * (a - b))%Q x y).

(** Distance of the padding entries ([FLT_MAX]). *)
Definition FLT_MAX : Q := inject_Z 340282346638528859811704183484516925440.

Fixpoint insert_by_distance (p : Q * Z) (l : list (Q * Z)) : list (Q * Z) :=
  match l with
  | [] => [p]
  | h :: t =>
      if Qle_bool (fst p) (fst h) then p :: h :: t
      else h :: insert_by_distance p t
  end.

Definition sort_by_distance (l : list (Q * Z)) : list (Q * Z) :=
  foldr insert_by_distance [] l.

(** Every stored vector with its distance to [q] and its label. *)
Definition scored (index : IndexFlatL2) (q : list Q) : list (Q * Z) :=
  imap (fun i y => (fvec_L2sqr q y, Z.of_nat i)) (xb index).

(** One result row: the [k] nearest, padded to length [k]. *)
Definition knn (index : IndexFlatL2) (q : list Q) (k : nat) : list (Q * Z) :=
  let best := take k (sort_by_distance (scored index q)) in
  best ++ replicate (k - length best) (FLT_MAX, (-1)%Z).

(** [index.search(x, k)]: the pair [(distances, indices)], one row per
    query row of [x]. *)
Definition search (index : IndexFlatL2) (x : list (list Q)) (k : nat)
  : Outcome (list (list Q) * list (list Z)) :=
  if forallb (has_dim (d index)) x
  then let rows := (fun q => knn index q k) <$> x in
       Ok (fmap fst <$> rows, fmap snd <$> rows)
  else Raise AssertionError.

End faiss.

(** ** Single precision

    The distances the index returns are [float32] numbers; the threshold is
    a Python [float].  Up to NumPy 1 the comparison of the two is made in
    [float64], which holds both exactly; from NumPy 2 on (NEP 50) it is made
    in [float32], to which the Python [float] is rounded first.  [round] is
    that rounding on the rationals: to the nearest [float32], a tie to the
    even significand, the subnormal numbers included; [infinity] stands for
    the value that follows the largest [float32]. *)
Module float32.

(** The largest [e] with [2 ^ e <= q], for a positive [q]. *)
Definition ilog2 (q : Q) : Z :=
  let e := (Z.log2 (Qnum q) - Z.log2 (Zpos (Qden q)))%Z in
  if Qle_bool (2 ^ e)%Q q then e else (e - 1)%Z.

(** The integer nearest to [x], the even one of two that are equally near. *)
Definition round_half_even (x : Q) : Z :=
  let f := Qfloor x in
  match (2 * (x - inject_Z f) ?= 1)%Q with
  | Lt => f
  | Eq => if Z.even f then f else (f + 1)%Z
  | Gt => (f + 1)%Z
  end.

(** The multiple of [2 ^ e] nearest to [q]. *)
Definition to_multiple (e : Z) (q : Q) : Q :=
  (inject_Z (round_half_even (q / 2 ^ e)) * 2 ^ e)%Q.

(** The exponent of the last place of the [float32] numbers around a
    positive [q]: 24 significant bits, and no exponent below -126. *)
Definition last_place (q : Q) : Z := (Z.max (ilog2 q) (-126) - 23)%Z.

Definition infinity : Q := (2 ^ 128)%Q.

Definition round_positive (q : Q) : Q :=
  Qmin (to_multiple (last_place q) q) infinity.

Definition round (q : Q) : Q :=
  match (0 ?= q)%Q with
  | Lt => round_positive q
  | Eq => 0%Q
  | Gt => (- round_positive (- q))%Q
  end.

End float32.

(** ** The service object and its collaborators *)

(** What the generative model does with one [send_message(prompt, stream=True)]:
    the call itself raises, or it returns a stream that produces the text of
    some chunks and then ends or raises. *)
Inductive GenReply :=
| CallRaises (e : exn)
| Streams (chunks : list string) (failure : option exn).

(** The collaborators held by the service and Python's [str] on a row
    dictionary: the database cursor behind [self.db] (one [cursor.execute]
    with the column names of [cursor.description] and the tuples of
    [cursor.fetchall()]), [self.embedding_model.encode], and
    [self.model.start_chat(history).send_message]; and whether the NumPy of
    the installation follows NEP 50 (version 2 and later). *)
Record Env := {
  cursor_execute :
    string -> option (list value) -> Outcome (list string * list (list value));
  encode : list string -> Outcome (list (list Q));
  send_message : list string -> string -> GenReply;
  str_dict : Row -> string;
  nep50 : bool
}.

(** A number as the comparison of a [float32] with a Python [float] sees
    it. *)
Definition as_compared (env : Env) (q : Q) : Q :=
  if nep50 env then float32.round q else q.

(** [dict(zip(columns, row))]: of two columns with one name the later one
    stays. *)
Definition row_dict (columns : list string) (row : list value) : Row :=
  list_to_map (reverse (zip columns row)).

(** [Database.execute_query] (database.py, lines 104-122): the statement is
    executed with its parameters when there are any, every fetched tuple
    becomes a dictionary, and an exception is logged and raised again. *)
Definition execute_query (env : Env) (query : string) (params : option (list value))
  : Outcome (list Row) :=
  match cursor_execute env query
          (match params with Some (_ :: _) => params | _ => None end) with
  | Ok (columns, rows) => Ok (row_dict columns <$> rows)
  | Raise e => Raise e
  end.

(** The mutable fields of [GeminiService] ([RAGService] has the same four,
    named [index], [documents_metadata], [document_texts],
    [distance_threshold]). *)
Record GeminiService := {
  rag_index : option faiss.IndexFlatL2;
  rag_document_metadata : list Row;
  rag_document_texts : list string;
  distance_threshold : Q
}.

(** [GeminiService.__init__] *)
Definition init (threshold : Q) : GeminiService :=
  {| rag_index := None; rag_document_metadata := [];
     rag_document_texts := []; distance_threshold := threshold |}.

(** What a run does to the outside, in order. *)
Inductive Event :=
| EvQuery (sql : string) (params : option (list value))
| EvEncode (texts : list string)
| EvGenerate (history : list string) (prompt : string)
| EvYield (text : string).

(** ** A state, exception and trace monad for the methods *)

Record Run (A : Type) := {
  outcome : Outcome A;
  final : GeminiService;
  trace : list Event
}.
Arguments outcome {A} r.
Arguments final {A} r.
Arguments trace {A} r.

Definition M (A : Type) : Type := GeminiService -> Run A.

Definition ret {A} (a : A) : M A :=
  fun s => {| outcome := Ok a; final := s; trace := [] |}.

Definition raise {A} (e : exn) : M A :=
  fun s => {| outcome := Raise e; final := s; trace := [] |}.

Definition bind {A B} (m : M A) (f : A -> M B) : M B :=
  fun s =>
    let r := m s in
    match outcome r with
    | Ok a =>
        let r' := f a (final r) in
        {| outcome := outcome r'; final := final r'; trace := trace r ++ trace r' |}
    | Raise e => {| outcome := Raise e; final := final r; trace := trace r |}
    end.

(** [try: m  except Exception as e: handler(e)]; what [m] did to the state
    before raising stays done. *)
Definition try_except {A} (m : M A) (handler : exn -> M A) : M A :=
  fun s =>
    let r := m s in
    match outcome r with
    | Ok a => r
    | Raise e =>
        let r' := handler e (final r) in
        {| outcome := outcome r'; final := final r'; trace := trace r ++ trace r' |}
    end.

Definition get : M GeminiService :=
  fun s => {| outcome := Ok s; final := s; trace := [] |}.

Definition modify (f : GeminiService -> GeminiService) : M unit :=
  fun s => {| outcome := Ok tt; final := f s; trace := [] |}.

Definition emit (ev : Event) : M unit :=
  fun s => {| outcome := Ok tt; final := s; trace := [ev] |}.

Definition lift {A} (o : Outcome A) : M A :=
  fun s => {| outcome := o; final := s; trace := [] |}.

Notation "'let*' x ':=' c 'in' k" := (bind c (fun x => k))
  (at level 10, x name, c at level 100, k at level 200).
Notation "c '>>' k" := (bind c (fun _ => k))
  (at level 100, k at level 200, right associativity).

(** [for x in l: body(x)] *)
Fixpoint for_each {A} (l : list A) (body : A -> M unit) : M unit :=
  match l with
  | [] => ret tt
  | x :: rest => body x >> for_each rest body
  end.

(** ** The methods of the service *)

(** The three statements the service sends to the store (lines 37, 121, 134). *)
Definition build_sql : string :=
  "SELECT claim_id, claim_type, claim_status, diagnosis_code FROM claims LIMIT 5000".
Definition lookup_sql : string := "SELECT * FROM claims WHERE claim_id = %s".
Definition count_sql : string := "SELECT COUNT(*) as total FROM claims".

Section Methods.

Context (env : Env).

(** [await self.db.execute_query(sql, params)] *)
Definition db_execute_query (sql : string) (params : option (list value)) : M (list Row) :=
  emit (EvQuery sql params) >> lift (execute_query env sql params).

(** [self.embedding_model.encode(texts)] *)
Definition model_encode (texts : list string) : M (list (list Q)) :=
  emit (EvEncode texts) >> lift (encode env texts).

Definition set_rag_index (index : option faiss.IndexFlatL2) : M unit :=
  modify (fun s =>
    {| rag_index := index;
       rag_document_metadata := rag_document_metadata s;
       rag_document_texts := rag_document_texts s;
       distance_threshold := distance_threshold s |}).

(** [self.rag_document_metadata.clear(); self.rag_document_texts.clear()]:
    the two list objects are emptied in place. *)
Definition clear_documents : M unit :=
  modify (fun s =>
    {| rag_index := rag_index s;
       rag_document_metadata := [];
       rag_document_texts := [];
       distance_threshold := distance_threshold s |}).

(** The text rendered for one row (lines 51-56). *)
Definition text_representation (claim : Row) : string :=
  "Claim ID: " +:+ format_value (claim !! "claim_id") +:+ Text.nl +:+
  "Claim Type: " +:+ format_value (claim !! "claim_type") +:+ Text.nl +:+
  "Status: " +:+ format_value (claim !! "claim_status") +:+ Text.nl +:+
  "Diagnosis Code: " +:+ format_value (claim !! "diagnosis_code").

(** [self.rag_document_metadata.append(claim)] followed by
    [self.rag_document_texts.append(text_representation)]. *)
Definition append_document (claim : Row) : M unit :=
  modify (fun s =>
    {| rag_index := rag_index s;
       rag_document_metadata := rag_document_metadata s ++ [claim];
       rag_document_texts := rag_document_texts s ++ [text_representation claim];
       distance_threshold := distance_threshold s |}).

(** [embeddings.shape[1]] of the two-dimensional array [encode] returns. *)
Definition shape1 (embeddings : list (list Q)) : Outcome nat :=
  match embeddings with
  | [] => Raise (Exception "tuple index out of range")
  | row :: _ => Ok (length row)
  end.

(** [self.rag_index.add(np.array(embeddings, dtype=np.float32))]: the index
    object just installed is extended in place. *)
Definition rag_index_add (embeddings : list (list Q)) : M unit :=
  let* s := get in
  match rag_index s with
  | None => raise (Exception "'NoneType' object has no attribute 'add'")
  | Some index =>
      let* index' := lift (faiss.add index embeddings) in
      set_rag_index (Some index')
  end.

(** [GeminiService._build_rag_index] (lines 29-74) and
    [RAGService.build_index] (lines 41-93). *)
Definition _build_rag_index : M unit :=
  try_except
    (let* claims := db_execute_query build_sql None in
     match claims with
     | [] => ret tt
     | _ =>
         clear_documents >>
         for_each claims (fun claim =>
           if truthy (claim !! "claim_id") then append_document claim else ret tt) >>
         let* s := get in
         match rag_document_texts s with
         | [] => ret tt
         | _ =>
             let* embeddings := model_encode (rag_document_texts s) in
             let* dimension := lift (shape1 embeddings) in
             set_rag_index (Some (faiss.new dimension)) >>
             rag_index_add embeddings
         end
     end)
    (fun e => set_rag_index None).

Record SearchResponse := {
  results : list Row;
  fallback_needed : bool
}.

Definition fallback : SearchResponse :=
  {| results := []; fallback_needed := true |}.

(** Lines 85-86: the query is encoded as a batch of one and the index is
    asked for the [k] nearest vectors of each row. *)
Definition nearest (index : faiss.IndexFlatL2) (query : string) (k : nat)
  : M (list (list Q) * list (list Z)) :=
  let* query_embedding := model_encode [query] in
  lift (faiss.search index query_embedding k).

(** [len(indices[0]) == 0 or distances[0][0] > self.distance_threshold]
    (line 88); [or] evaluates its right operand only when the left one is
    false.  The distance is a [float32], which the rounding leaves as it
    is. *)
Definition no_confident_match (distances : list (list Q)) (indices : list (list Z))
  : M bool :=
  let* s := get in
  let* indices0 := lift (getitem indices 0) in
  match indices0 with
  | [] => ret true
  | _ =>
      let* distances0 := lift (getitem distances 0) in
      let* best := lift (getitem distances0 0) in
      ret (negb (Qle_bool (as_compared env best)
                          (as_compared env (distance_threshold s))))
  end.

(** Lines 88-93: the confidence gate and the mapping of labels to rows. *)
Definition gate (distances : list (list Q)) (indices : list (list Z)) : M SearchResponse :=
  let* too_far := no_confident_match distances indices in
  if too_far : bool then ret fallback
  else
    let* s := get in
    let* indices0 := lift (getitem indices 0) in
    let* docs := lift (comprehension (getitem (rag_document_metadata s)) indices0) in
    ret {| results := docs; fallback_needed := false |}.

(** [GeminiService._search_rag_index] (lines 76-97) and [RAGService.search]
    (lines 95-127). *)
Definition _search_rag_index (query : string) (k : nat) : M SearchResponse :=
  let* s := get in
  match rag_index s, rag_document_metadata s with
  | None, _ | _, [] => ret fallback
  | Some index, _ =>
      try_except
        (let* found := nearest index query k in gate (fst found) (snd found))
        (fun e => ret fallback)
  end.

(** [yield text] of the response generator. *)
Definition yield (text : string) : M unit := emit (EvYield text).

(** Lines 120-126: the point query and its two templates. *)
Definition id_lookup_context (claim_id : string) : M string :=
  let* result := db_execute_query lookup_sql (Some [VStr claim_id]) in
  match result with
  | row :: _ =>
      ret ("Here is the data found for claim ID " +:+ claim_id +:+ ":" +:+ Text.nl +:+
           str_dict env row)
  | [] => ret ("I could not find any data for the claim ID " +:+ claim_id +:+ ".")
  end.

(** Lines 134-136: the count query and its template. *)
Definition count_context : M string :=
  let* result := db_execute_query count_sql None in
  let* total_claims :=
    match result with
    | row :: _ =>
        match row !! "total" with
        | Some v => ret (format_value (Some v))
        | None => raise (KeyError "total")
        end
    | [] => ret (pretty 0%Z)
    end in
  ret ("The total number of claims in the database is " +:+ total_claims +:+ ".").

(** Lines 141-147: semantic search with [k=3] and its two templates. *)
Definition semantic_context (user_message : string) : M string :=
  let* search_response := _search_rag_index user_message 3 in
  if fallback_needed search_response
  then ret "No specific claims data was found in the database that matches your query."
  else ret (foldl (fun context doc => context +:+ "- " +:+ str_dict env doc +:+ Text.nl)
                  ("Based on the following relevant claims data:" +:+ Text.nl)
                  (results search_response)).

(** Lines 108-147: the context of the chosen intent. *)
Definition assemble_context (user_message : string) : M string :=
  match classify user_message with
  | IdLookup claim_id => id_lookup_context claim_id
  | CountQuery => count_context
  | SemanticSearch text => semantic_context text
  end.

Definition indent : string := "            ".

(** Lines 151-158: the prompt. *)
Definition make_prompt (context user_message : string) : string :=
  "You are a helpful assistant for analyzing insurance claims." +:+ Text.nl +:+
  indent +:+ Text.nl +:+
  indent +:+ "Context:" +:+ Text.nl +:+
  indent +:+ context +:+ Text.nl +:+
  indent +:+ Text.nl +:+
  indent +:+ "Based ONLY on the context provided, please answer the user's question." +:+ Text.nl +:+
  indent +:+ "User: " +:+ user_message +:+ Text.nl +:+
  indent.

(** Lines 160-166: a new chat with an empty history, the prompt sent, every
    chunk with a non-empty text yielded. *)
Definition generate (prompt : string) : M unit :=
  emit (EvGenerate [] prompt) >>
  match send_message env [] prompt with
  | CallRaises e => raise e
  | Streams chunks failure =>
      for_each chunks (fun text =>
        if String.eqb text "" then ret tt else yield text) >>
      match failure with
      | Some e => raise e
      | None => ret tt
      end
  end.

Definition error_text (e : exn) : string :=
  "⚠️ Error processing your request: " +:+ str_exn e.

(** Lines 104-106: the index is built on the first request that finds none. *)
Definition ensure_built : M unit :=
  let* s := get in
  match rag_index s with
  | None => _build_rag_index
  | Some _ => ret tt
  end.

(** Lines 104-158: everything up to the prompt. *)
Definition prepare (user_message : string) : M string :=
  ensure_built >>
  let* context := assemble_context user_message in
  ret (make_prompt context user_message).

(** The body of the [try] of [stream_response] (lines 104-166). *)
Definition respond (user_message : string) : M unit :=
  let* prompt := prepare user_message in
  generate prompt.

(** [GeminiService.stream_response] (lines 99-170). *)
Definition stream_response (user_message : string) (conversation_id : option string)
  : M unit :=
  try_except (respond user_message) (fun e => yield (error_text e)).

(** ** The streaming endpoint (main.py, lines 72-85) *)

Record ChatMessage := {
  message : string;
  conversation_id : option string
}.

(** One server-sent event: [{'chunk': text}] or [{'done': True}]. *)
Inductive Frame :=
| Chunk (text : string)
| Done.

Definition yielded (ev : Event) : option string :=
  match ev with
  | EvYield text => Some text
  | _ => None
  end.

(** [generate_response] inside [chat_with_ai]: every chunk of the service's
    generator is framed, and the done frame follows once that generator is
    exhausted; an exception of the generator would leave this one before
    the done frame. *)
Definition generate_response (m : ChatMessage) (s : GeminiService)
  : Outcome unit * list Frame :=
  let r := stream_response (message m) (conversation_id m) s in
  let chunks := Chunk <$> omap yielded (trace r) in
  match outcome r with
  | Ok _ => (Ok tt, chunks ++ [Done])
  | Raise e => (Raise e, chunks)
  end.

End Methods.

(** ** Predicates on states and runs *)

(** From state [s], [m] ends with outcome [o] in state [s'] after the events
    [t]. *)
Definition runs {A} (m : M A) (s : GeminiService) (o : Outcome A)
    (s' : GeminiService) (t : list Event) : Prop :=
  m s = {| outcome := o; final := s'; trace := t |}.

(** The state with both document lists emptied. *)
Definition cleared (s : GeminiService) : GeminiService :=
  {| rag_index := rag_index s; rag_document_metadata := [];
     rag_document_texts := []; distance_threshold := distance_threshold s |}.

(** The state with the index reference replaced. *)
Definition with_index (index : option faiss.IndexFlatL2) (s : GeminiService)
  : GeminiService :=
  {| rag_index := index; rag_document_metadata := rag_document_metadata s;
     rag_document_texts := rag_document_texts s;
     distance_threshold := distance_threshold s |}.

(** The rows of a store result that enter the index: those with a true
    [claim_id] (the [continue] of line 48 skips the others). *)
Definition valid_claims (claims : list Row) : list Row :=
  List.filter (fun claim => truthy (claim !! "claim_id")) claims.

(** A complete snapshot: an index whose vectors stand one to one for the
    rows of a non-empty metadata list. *)
Definition complete (s : GeminiService) (index : faiss.IndexFlatL2) : Prop :=
  rag_index s = Some index /\
  rag_document_metadata s <> [] /\
  faiss.ntotal index = length (rag_document_metadata s).

(** The state with both document lists refilled from [claims]. *)
Definition refilled (claims : list Row) (s : GeminiService) : GeminiService :=
  {| rag_index := rag_index s;
     rag_document_metadata := valid_claims claims;
     rag_document_texts := text_representation <$> valid_claims claims;
     distance_threshold := distance_threshold s |}.

(** The new snapshot of a build over [claims]: the rows with an identifier,
    their texts, and an index holding exactly the vectors the encoder
    returns for these texts, in the same order. *)
Definition new_snapshot (env : Env) (claims : list Row) (s' : GeminiService) : Prop :=
  exists embeddings dimension,
    encode env (text_representation <$> valid_claims claims) = Ok embeddings /\
    valid_claims claims <> [] /\
    rag_index s' = Some {| faiss.d := dimension; faiss.xb := embeddings |} /\
    rag_document_metadata s' = valid_claims claims /\
    rag_document_texts s' = text_representation <$> valid_claims claims.

(** The row a label of a result row selects in a non-empty metadata list of
    that many rows: a position selects the document stored there, the
    padding label [-1] the last document. *)
Definition selected (metadata : list Row) (i : Z) : Row :=
  if (i <? 0)%Z then default ∅ (last metadata) else metadata !!! Z.to_nat i.

(** The generation stopped with exception [e] after the model had delivered
    the chunks [delivered]: at the call itself (nothing delivered) or while
    the stream was read. *)
Definition generation_fails (reply : GenReply) (delivered : list string) (e : exn) : Prop :=
  match reply with
  | CallRaises e' => delivered = [] /\ e' = e
  | Streams chunks (Some e') => delivered = chunks /\ e' = e
  | Streams _ None => False
  end.

(** The texts [stream_response] yields for the chunks of a stream. *)
Definition non_empty (chunks : list string) : list string :=
  List.filter (fun text => negb (String.eqb text "")) chunks.

(** A generation starts from an empty history. *)
Definition fresh_session (ev : Event) : Prop :=
  match ev with
  | EvGenerate history _ => history = []
  | _ => True
  end.

(** What can happen once the prompt is ready: the generation call and the
    yields. *)
Definition is_streaming (ev : Event) : Prop :=
  match ev with EvGenerate _ _ | EvYield _ => True | _ => False end.

Definition query_of (ev : Event) : option (string * option (list value)) :=
  match ev with
  | EvQuery sql params => Some (sql, params)
  | _ => None
  end.

(** ** Concrete collaborators for the scenarios *)

Module Scenario.

Definition claim_columns : list string :=
  ["claim_id"; "claim_type"; "claim_status"; "diagnosis_code"].

Definition claim (id type status code : string) : Row :=
  row_dict claim_columns [VStr id; VStr type; VStr status; VStr code].

Definition dental : Row := claim "CLM-AB12-00001" "Dental" "Pending" "K02.51".
Definition vision : Row := claim "CLM-AB12-00002" "Vision" "Rejected" "H52.10".

Definition has_id (id : string) (row : Row) : bool :=
  match row !! "claim_id" with
  | Some (VStr x) => String.eqb x id
  | _ => false
  end.

(** The tuple the cursor fetches for a row of the claims table. *)
Definition tuple_of (row : Row) : list value :=
  (fun column => default VNone (row !! column)) <$> claim_columns.

(** The cursor of a store holding [rows] in the claims table, whose build
    query returns [sample]. *)
Definition store (rows sample : list Row) (sql : string) (params : option (list value))
  : Outcome (list string * list (list value)) :=
  if String.eqb sql build_sql then Ok (claim_columns, tuple_of <$> sample)
  else if String.eqb sql count_sql
  then Ok (["total"], [[VInt (Z.of_nat (length rows))]])
  else match params with
       | Some [VStr id] => Ok (claim_columns, tuple_of <$> List.filter (has_id id) rows)
       | _ => Ok (claim_columns, [])
       end.

(** A cursor that serves the build query and fails on every other one. *)
Definition flaky_store (sample : list Row) (sql : string) (params : option (list value))
  : Outcome (list string * list (list value)) :=
  if String.eqb sql build_sql then Ok (claim_columns, tuple_of <$> sample)
  else Raise (Exception "connection lost").

(** An encoder with one coordinate, the length of the text. *)
Definition by_length (texts : list string) : Outcome (list (list Q)) :=
  Ok ((fun text => [inject_Z (Z.of_nat (String.length text))]) <$> texts).

Definition no_encoder (texts : list string) : Outcome (list (list Q)) :=
  Raise (Exception "model not loaded").

Definition answers (history : list string) (prompt : string) : GenReply :=
  Streams ["There are "; ""; "two claims."] None.

Definition quota (history : list string) (prompt : string) : GenReply :=
  CallRaises (Exception "quota exceeded").

Definition cut_off (history : list string) (prompt : string) : GenReply :=
  Streams ["There are "; ""] (Some (Exception "stream reset")).

Definition show (row : Row) : string := format_value (row !! "claim_id").

Definition world (rows : list Row) : Env :=
  {| cursor_execute := store rows rows; encode := by_length;
     send_message := answers; str_dict := show; nep50 := true |}.


(** The store fails on everything but the build query; the model fails at
    the call; the model fails while its stream is read. *)
Definition store_down (rows : list Row) : Env :=
  {| cursor_execute := flaky_store rows; encode := by_length;
     send_message := answers; str_dict := show; nep50 := true |}.

Definition model_down (rows : list Row) : Env :=
  {| cursor_execute := store rows rows; encode := by_length;
     send_message := quota; str_dict := show; nep50 := true |}.

Definition model_cut_off (rows : list Row) : Env :=
  {| cursor_execute := store rows rows; encode := by_length;
     send_message := cut_off; str_dict := show; nep50 := true |}.

Definition a_message (text : string) (cid : option string) : ChatMessage :=
  {| message := text; conversation_id := cid |}.

(** The state after the first successful build over [rows]. *)
Definition built_over (rows : list Row) (threshold : Q) : GeminiService :=
  final (_build_rag_index (world rows) (init threshold)).

Definition two_claims : list Row := [dental; vision].

(** A snapshot over [dental] alone, and the index it holds. *)
Definition one_claim : GeminiService := built_over [dental] (inject_Z 10000).
Definition one_vector : faiss.IndexFlatL2 :=
  {| faiss.d := 1; faiss.xb := [[inject_Z 82]] |}.

(** The same collaborators with an encoder that is down. *)
Definition encoder_down (rows : list Row) : Env :=
  {| cursor_execute := store rows rows; encode := no_encoder;
     send_message := answers; str_dict := show; nep50 := true |}.

(** The index [by_length] gives for [two_claims]: the texts are 82 and 83
    characters long. *)
Definition two_vectors : faiss.IndexFlatL2 :=
  {| faiss.d := 1; faiss.xb := [[inject_Z 82]; [inject_Z 83]] |}.

(** A query of 21 characters: its squared distances to the two stored
    vectors are 3721 and 3844. *)
Definition a_query : string := "pending dental issues".

End Scenario.

(** Every event of every run of [m] satisfies [P]. *)
Definition emits {A} (P : Event -> Prop) (m : M A) : Prop :=
  forall s, Forall P (trace (m s)).

Definition is_yield (ev : Event) : Prop :=
  match ev with EvYield _ => True | _ => False end.

Definition is_generate (ev : Event) : Prop :=
  match ev with EvGenerate _ _ => True | _ => False end.

(** The events of building, searching and assembling the context: store
    queries and encoder calls. *)
Definition is_retrieval (ev : Event) : Prop :=
  match ev with EvQuery _ _ | EvEncode _ => True | _ => False end.


(** * The rest of the pipeline: invariants of the service and the import path

    Predicates on the service for its invariants, and a shallow embedding of
    the code around the router:
    - [Database.execute_batch_insert], and [Database.execute_query] on a
      cursor with a state and a description ([backend/database.py]),
    - [Claim.from_csv_row], [Claim.to_db_params] and [Claim.is_valid]
      ([backend/models.py]),
    - [DataImportService.import_csv_data], [_batch_insert_claims],
      [clear_all_data], [get_claims_by_filter] and [get_aggregated_data]
      ([backend/services/data_import.py]),
    - the endpoint [upload_claims] ([backend/main.py]).

    Further conventions.
    - [str.strip] removes the white space of Unicode, the code points for
      which [str.isspace] holds, read in the UTF-8 encoding of the text.
    - The column names of a CSV row are lowered as the messages are; the
      columns the code reads have ASCII names, so a name that [str.lower]
      maps outside ASCII is never read, however it is spelled.
    - The database behind the connection is a state of an arbitrary type
      [DB]; a statement either raises or leaves a row count, and may change
      the state either way.
    - [Decimal], [int] and [datetime.strptime] are the interpreter's; the
      embedding takes them as functions that return [None] where Python
      raises.
    - [csv.DictReader] and [bytes.decode] are the interpreter's too: a file
      is read as the rows the reader yields, and the error it raises after
      them if the file is malformed. *)

(** ** Predicates on the service *)

(** [m] leaves the fields of the service as they are. *)
Definition keeps_state {A} (m : M A) : Prop :=
  forall s, final (m s) = s.

(** The two document lists belong together: the texts are the renderings of
    the rows, one for one, and every row has an identifier. *)
Definition documents_consistent (s : GeminiService) : Prop :=
  rag_document_texts s = text_representation <$> rag_document_metadata s /\
  Forall (fun claim => truthy (claim !! "claim_id") = true) (rag_document_metadata s).

(** An installed index stands next to a non-empty metadata list and holds
    the vectors the encoder gives for the stored texts. *)
Definition index_consistent (env : Env) (s : GeminiService) : Prop :=
  forall index,
    rag_index s = Some index ->
    rag_document_metadata s <> [] /\
    encode env (rag_document_texts s) = Ok (faiss.xb index).

(** The states of a service created with [threshold] and then used for any
    number of requests. *)
Inductive reachable (env : Env) (threshold : Q) : GeminiService -> Prop :=
| reachable_init : reachable env threshold (init threshold)
| reachable_request s user_message cid :
    reachable env threshold s ->
    reachable env threshold (final (stream_response env user_message cid s)).

(** The class of the characters after the prefix of an identifier, as the
    router sends it to the store: [[A-Z0-9-]]. *)
Definition id_char_upper (c : ascii) : bool :=
  Text.is_upper c || Text.is_digit c || Ascii.eqb c "-"%char.

Definition well_formed_id (id : string) : Prop :=
  exists body,
    id = "CLM-" +:+ body /\ body <> "" /\ Text.all_chars id_char_upper body = true.

(** [keyword] occurs in [text], in any letter case. *)
Definition mentions (text keyword : string) : Prop :=
  exists pre post, Text.lower text = pre +:+ keyword +:+ post.

(** The lowered [text] contains a match of the identifier pattern. *)
Definition has_identifier (text : string) : Prop :=
  exists pre m post, Text.lower text = pre +:+ m +:+ post /\ Text.id_pattern m.

(** ** More text primitives *)

Module Str.

(** The ASCII characters for which [str.isspace] holds: tab to carriage
    return, the four separators U+001C..U+001F and the space. *)
Definition is_space (c : ascii) : bool :=
  Text.in_range 9 13 c || Text.in_range 28 32 c.

(** The white space of two bytes: U+0085 and U+00A0. *)
Definition is_space2 (c c1 : ascii) : bool :=
  Text.is_byte 194 c && (Text.is_byte 133 c1 || Text.is_byte 160 c1).

(** The white space of three bytes: U+1680, U+2000..U+200A, U+2028, U+2029,
    U+202F, U+205F and U+3000. *)
Definition is_space3 (c c1 c2 : ascii) : bool :=
  Text.is_byte 225 c && Text.is_byte 154 c1 && Text.is_byte 128 c2 ||
  Text.is_byte 226 c && Text.is_byte 128 c1 &&
    (Text.in_range 128 138 c2 || Text.in_range 168 169 c2 || Text.is_byte 175 c2) ||
  Text.is_byte 226 c && Text.is_byte 129 c1 && Text.is_byte 159 c2 ||
  Text.is_byte 227 c && Text.is_byte 128 c1 && Text.is_byte 128 c2.

(** [s] is one white space code point. *)
Definition is_space_point (s : string) : bool :=
  match s with
  | String c EmptyString => is_space c
  | String c (String c1 EmptyString) => is_space2 c c1
  | String c (String c1 (String c2 EmptyString)) => is_space3 c c1 c2
  | _ => false
  end.

(** [s] begins with a white space code point. *)
Definition starts_space (s : string) : bool :=
  match s with
  | String c r =>
      is_space c ||
      match r with
      | String c1 r1 =>
          is_space2 c c1 ||
          match r1 with
          | String c2 _ => is_space3 c c1 c2
          | EmptyString => false
          end
      | EmptyString => false
      end
  | EmptyString => false
  end.

(** [s.lstrip()] *)
Fixpoint lstrip (s : string) : string :=
  match s with
  | EmptyString => EmptyString
  | String c r =>
      if is_space c then lstrip r
      else
        match r with
        | String c1 r1 =>
            if is_space2 c c1 then lstrip r1
            else
              match r1 with
              | String c2 r2 => if is_space3 c c1 c2 then lstrip r2 else s
              | EmptyString => s
              end
        | EmptyString => s
        end
  end.

(** [s.rstrip()]: what stays of [s] begins with its first byte, unless all
    of it is white space. *)
Fixpoint rstrip (s : string) : string :=
  match s with
  | EmptyString => EmptyString
  | String c r =>
      let kept := String c (rstrip r) in
      if is_space_point kept then EmptyString else kept
  end.

(** [s.strip()] *)
Definition strip (s : string) : string := rstrip (lstrip s).

(** No white space code point stands at either end of [s]. *)
Definition trimmed (s : string) : Prop :=
  starts_space s = false /\
  forall pre point, s = pre +:+ point -> is_space_point point = false.

(** [s.endswith(suffix)] *)
Definition endswith (suffix s : string) : bool :=
  (String.length suffix <=? String.length s)%nat &&
  String.eqb (Text.drop (String.length s - String.length suffix) s) suffix.

(** [sep.join(parts)] *)
Fixpoint join (sep : string) (parts : list string) : string :=
  match parts with
  | [] => ""
  | [part] => part
  | part :: rest => part +:+ sep +:+ join sep rest
  end.

(** [s.replace(old, new)] for a non-empty [old]: the occurrences of [old]
    are found from left to right and do not overlap.  [skip] counts the
    characters of an occurrence that are still to be passed over. *)
Fixpoint replace_from (old new : string) (skip : nat) (s : string) : string :=
  match s with
  | EmptyString => EmptyString
  | String c r =>
      match skip with
      | S k => replace_from old new k r
      | O =>
          if String.prefix old s
          then new +:+ replace_from old new (String.length old - 1) r
          else String c (replace_from old new 0 r)
      end
  end.

(** [s.replace(old, new)]; for the empty [old] Python puts [new] before
    every character and at the end. *)
Fixpoint interleave (new s : string) : string :=
  match s with
  | EmptyString => new
  | String c r => new +:+ String c (interleave new r)
  end.

Definition replace (old new s : string) : string :=
  match old with
  | EmptyString => interleave new s
  | _ => replace_from old new 0 s
  end.

(** [s.count(sub)] for a non-empty [sub]: the occurrences that [replace]
    would rewrite. *)
Fixpoint count_from (sub : string) (skip : nat) (s : string) : nat :=
  match s with
  | EmptyString => 0
  | String c r =>
      match skip with
      | S k => count_from sub k r
      | O =>
          if String.prefix sub s
          then S (count_from sub (String.length sub - 1) r)
          else count_from sub 0 r
      end
  end.

Definition count (sub s : string) : nat := count_from sub 0 s.

(** Scanning [a] for [old] comes to rest at the end of [a], and no
    occurrence of [old] can begin in [a] and end after it: [replace] then
    treats [a] the same whatever follows it. *)
Fixpoint splits (old : string) (skip : nat) (a : string) : bool :=
  match a with
  | EmptyString => (skip =? 0)%nat
  | String c r =>
      match skip with
      | S k => splits old k r
      | O =>
          if String.prefix old a
          then splits old (String.length old - 1) r
          else negb (String.prefix a old) && splits old 0 r
      end
  end.

(** No character of [s] is [c]. *)
Definition without (c : ascii) (s : string) : bool :=
  Text.all_chars (fun x => negb (Ascii.eqb x c)) s.

End Str.

(** ** [Database.execute_batch_insert] (database.py, lines 124-141) *)

Module database.

Section Connection.

Context {DB Params : Type}.

(** What the method uses of an open pg8000 connection:
    [cursor.execute(query, params)], which raises or leaves
    [cursor.rowcount], and [connection.rollback()].  Opening and closing the
    cursor do not fail on an open connection. *)
Record Connection := {
  execute : string -> Params -> DB -> Outcome Z * DB;
  rollback : DB -> DB
}.

(** The loop of lines 129-136, from a running total. *)
Fixpoint insert_each (conn : Connection) (query : string) (params_list : list Params)
    (total_affected : Z) (db : DB) : Z * DB :=
  match params_list with
  | [] => (total_affected, db)
  | params :: rest =>
      match execute conn query params db with
      | (Ok rowcount, db') =>
          insert_each conn query rest (total_affected + rowcount) db'
      | (Raise _, db') =>
          insert_each conn query rest total_affected (rollback conn db')
      end
  end.

(** [self.connection] is [None] until [connect] has run; [None.cursor()]
    raises inside the outer [try], which logs and raises again. *)
Definition no_cursor : exn :=
  Exception "'NoneType' object has no attribute 'cursor'".

Definition execute_batch_insert (connection : option Connection) (query : string)
    (params_list : list Params) (db : DB) : Outcome Z * DB :=
  match connection with
  | None => (Raise no_cursor, db)
  | Some conn =>
      let '(total_affected, db') := insert_each conn query params_list 0 db in
      (Ok total_affected, db')
  end.

(** The statements of a batch that the database accepted, with the row
    count of each, in order. *)
Fixpoint accepted (conn : Connection) (query : string) (params_list : list Params)
    (db : DB) : list (Params * Z) :=
  match params_list with
  | [] => []
  | params :: rest =>
      match execute conn query params db with
      | (Ok rowcount, db') => (params, rowcount) :: accepted conn query rest db'
      | (Raise _, db') => accepted conn query rest (rollback conn db')
      end
  end.

End Connection.

Arguments Connection : clear implicits.

(** [Database.execute_query] (lines 104-122) without parameters, on a
    database with a state.  After [cursor.execute(query)] the cursor has a
    [description], which the DB-API leaves [None] for a statement that
    returns no rows, and the rows of [fetchall()]. *)
Section Statement.

Context {DB : Type}.

Record Cursor := {
  run : string -> DB -> Outcome (option (list string) * list (list value)) * DB
}.

(** Line 114 on the description [None]. *)
Definition not_iterable : exn := Exception "'NoneType' object is not iterable".

Definition execute_statement (cursor : Cursor) (query : string) (db : DB)
    : Outcome (list Row) * DB :=
  match run cursor query db with
  | (Ok (Some columns, rows), db') => (Ok (row_dict columns <$> rows), db')
  | (Ok (None, _), db') => (Raise not_iterable, db')
  | (Raise e, db') => (Raise e, db')
  end.

End Statement.

Arguments Cursor : clear implicits.

End database.

(** ** [Claim] (models.py) *)

Module models.

(** A row as [import_csv_data] hands it over: the cleaned column names with
    the cells; [csv.DictReader] gives [None] for the cells a short line does
    not have. *)
Abbreviation CsvRow := (gmap string (option string)).

Section Claim.

Context {Date Decimal : Type}.

(** The fields [from_csv_row] fills and [to_db_params] sends; [created_at]
    and [updated_at] keep their default [None] and are left to the table. *)
Record Claim := {
  claim_id : string;
  policy_number : option string;
  claim_date : option Date;
  claim_amount : option Decimal;
  claim_status : option string;
  claim_type : option string;
  settlement_amount : option Decimal;
  processing_days : option Z;
  diagnosis_code : option string;
  provider_id : option string;
  file_source : option string
}.

(** [Decimal(text)], [int(text)] and [datetime.strptime(text, fmt).date()],
    with [None] where they raise. *)
Record Parsers := {
  decimal_of : string -> option Decimal;
  int_of : string -> option Z;
  strptime : string -> string -> option Date
}.

(** [str(row.get(key, ''))]: a missing column gives the default, a missing
    cell gives [str(None)]. *)
Definition text_of (row : CsvRow) (key : string) : string :=
  match row !! key with
  | None => ""
  | Some None => "None"
  | Some (Some cell) => cell
  end.

(** [text or None] *)
Definition or_none (text : string) : option string :=
  if String.eqb text "" then None else Some text.

(** The guard of the three [safe_] parsers on [value = row.get(key)]:
    [str(value).strip()] where [value and str(value).strip()] holds. *)
Definition stripped (value : option (option string)) : option string :=
  match value with
  | Some (Some cell) =>
      if String.eqb cell "" then None else or_none (Str.strip cell)
  | _ => None
  end.

Definition safe_decimal (parsers : Parsers) (value : option (option string))
    : option Decimal :=
  match stripped value with
  | Some text => decimal_of parsers text
  | None => None
  end.

Definition safe_int (parsers : Parsers) (value : option (option string)) : option Z :=
  match stripped value with
  | Some text => int_of parsers text
  | None => None
  end.

Definition date_formats : list string :=
  ["%Y-%m-%d"; "%m/%d/%Y"; "%d/%m/%Y"; "%Y/%m/%d"].

(** The loop of lines 44-49: the first format that parses. *)
Fixpoint first_format (parsers : Parsers) (date_str : string) (formats : list string)
    : option Date :=
  match formats with
  | [] => None
  | fmt :: rest =>
      match strptime parsers date_str fmt with
      | Some d => Some d
      | None => first_format parsers date_str rest
      end
  end.

Definition safe_date (parsers : Parsers) (value : option (option string))
    : option Date :=
  match stripped value with
  | Some date_str => first_format parsers date_str date_formats
  | None => None
  end.

Definition from_csv_row (parsers : Parsers) (row : CsvRow) (source : string) : Claim :=
  {| claim_id := Str.strip (text_of row "claim_id");
     policy_number := or_none (Str.strip (text_of row "policy_number"));
     claim_date := safe_date parsers (row !! "claim_date");
     claim_amount := safe_decimal parsers (row !! "claim_amount");
     claim_status := or_none (Str.strip (text_of row "claim_status"));
     claim_type := or_none (Str.strip (text_of row "claim_type"));
     settlement_amount := safe_decimal parsers (row !! "settlement_amount");
     processing_days := safe_int parsers (row !! "processing_days");
     diagnosis_code := or_none (Str.strip (text_of row "diagnosis_code"));
     provider_id := or_none (Str.strip (text_of row "provider_id"));
     file_source := Some source |}.

(** A parameter of the insert statement. *)
Inductive Param :=
| PNone
| PText (text : string)
| PDate (d : Date)
| PDecimal (x : Decimal)
| PInt (n : Z).

Definition param {A} (inject : A -> Param) (field : option A) : Param :=
  match field with
  | Some a => inject a
  | None => PNone
  end.

Definition to_db_params (claim : Claim) : list Param :=
  [ PText (claim_id claim);
    param PText (policy_number claim);
    param PDate (claim_date claim);
    param PDecimal (claim_amount claim);
    param PText (claim_status claim);
    param PText (claim_type claim);
    param PDecimal (settlement_amount claim);
    param PInt (processing_days claim);
    param PText (diagnosis_code claim);
    param PText (provider_id claim);
    param PText (file_source claim) ].

(** [bool(self.claim_id and self.claim_id.strip())] *)
Definition is_valid (claim : Claim) : bool :=
  negb (String.eqb (claim_id claim) "") &&
  negb (String.eqb (Str.strip (claim_id claim)) "").

End Claim.

Arguments Claim : clear implicits.
Arguments Parsers : clear implicits.
Arguments Param : clear implicits.

End models.

(** ** [DataImportService] (services/data_import.py) *)

Module data_import.

(** The items of a row as [csv.DictReader] yields it.  The keys are the
    field names of the header; the surplus cells of a long line are kept
    under the key [None].  The values are the cells; the cells a short line
    does not have are [None]. *)
Abbreviation RawRow := (list (option string * option string)).

(** [k.strip()] on the key [None] *)
Definition no_strip : exn :=
  Exception "'NoneType' object has no attribute 'strip'".

(** [{k.strip().lower(): v for k, v in row.items()}], from the items seen
    so far: a later item replaces an earlier one with the same cleaned
    name. *)
Fixpoint clean_items (items : RawRow) (seen : models.CsvRow) : Outcome models.CsvRow :=
  match items with
  | [] => Ok seen
  | (Some k, v) :: rest => clean_items rest (<[Text.lower (Str.strip k) := v]> seen)
  | (None, _) :: _ => Raise no_strip
  end.

Definition clean_row (row : RawRow) : Outcome models.CsvRow := clean_items row ∅.

(** The statement of lines 67-74. *)
Definition insert_query : string :=
  Str.join Text.nl
    [ "";
      "        INSERT INTO claims (";
      "            claim_id, policy_number, claim_date, claim_amount, claim_status,";
      "            claim_type, settlement_amount, processing_days, diagnosis_code,";
      "            provider_id, file_source";
      "        ) VALUES (%s, %s, %s, %s, %s, %s, %s, %s, %s, %s, %s)";
      "        ON CONFLICT (claim_id) DO NOTHING";
      "        " ].

Definition batch_size : nat := 1000.

Section CsvImport.

Context {DB Date Decimal : Type}.
Context (parsers : models.Parsers Date Decimal).
Context (connection : option (database.Connection DB (list (models.Param Date Decimal)))).
(** [csv.DictReader(io.StringIO(csv_data))] as the loop of line 29 reads it:
    the rows it yields and, for a file it cannot read to the end, the
    [csv.Error] it raises after them. *)
Context (reader : string -> list RawRow * option exn).

Definition _batch_insert_claims (claims : list (models.Claim Date Decimal)) (db : DB)
    : Outcome Z * DB :=
  database.execute_batch_insert connection insert_query (models.to_db_params <$> claims) db.

(** The local variables of [import_csv_data]. *)
Record Progress := {
  claims : list (models.Claim Date Decimal);
  processed_count : nat;
  error_count : nat
}.

Definition failed (p : Progress) : Progress :=
  {| claims := claims p;
     processed_count := processed_count p;
     error_count := S (error_count p) |}.

(** Lines 37-42. *)
Definition record (claim : models.Claim Date Decimal) (p : Progress) : Progress :=
  if models.is_valid claim
  then {| claims := claims p ++ [claim];
          processed_count := S (processed_count p);
          error_count := error_count p |}
  else failed p.

(** Lines 45-47; an exception of the insert reaches the handler of line 49
    with the batch still in [claims]. *)
Definition flush (p : Progress) (db : DB) : Progress * DB :=
  if (batch_size <=? length (claims p))%nat then
    match _batch_insert_claims (claims p) db with
    | (Ok _, db') =>
        ({| claims := [];
            processed_count := processed_count p;
            error_count := error_count p |}, db')
    | (Raise _, db') => (failed p, db')
    end
  else (p, db).

(** The body of the loop, lines 30-52. *)
Definition process_row (filename : string) (row : RawRow) (p : Progress) (db : DB)
    : Progress * DB :=
  match clean_row row with
  | Raise _ => (failed p, db)
  | Ok cleaned => flush (record (models.from_csv_row parsers cleaned filename) p) db
  end.

Fixpoint process_rows (filename : string) (rows : list RawRow) (p : Progress) (db : DB)
    : Progress * DB :=
  match rows with
  | [] => (p, db)
  | row :: rest =>
      let '(p', db') := process_row filename row p db in
      process_rows filename rest p' db'
  end.

(** The error of the reader leaves the loop through the [for] statement,
    which is outside the [try] of the rows: the handler of line 61 raises it
    again, and the claims that wait for their batch are not sent. *)
Definition import_csv_data (csv_data filename : string) (db : DB) : Outcome nat * DB :=
  let start := {| claims := []; processed_count := 0; error_count := 0 |} in
  let '(rows, error) := reader csv_data in
  let '(p, db1) := process_rows filename rows start db in
  match error with
  | Some e => (Raise e, db1)
  | None =>
      match claims p with
      | [] => (Ok (processed_count p), db1)
      | _ =>
          match _batch_insert_claims (claims p) db1 with
          | (Ok _, db2) => (Ok (processed_count p), db2)
          | (Raise e, db2) => (Raise e, db2)
          end
      end
  end.

(** The claims of the rows that can be cleaned and have an identifier, in
    the order of the rows. *)
Definition importable_row (filename : string) (row : RawRow)
    : option (models.Claim Date Decimal) :=
  match clean_row row with
  | Ok cleaned =>
      let claim := models.from_csv_row parsers cleaned filename in
      if models.is_valid claim then Some claim else None
  | Raise _ => None
  end.

Definition importable (filename : string) (rows : list RawRow)
    : list (models.Claim Date Decimal) :=
  omap (importable_row filename) rows.

(** The database after [claims] have been sent to it as one batch. *)
Definition after_insert (claims : list (models.Claim Date Decimal)) (db : DB) : DB :=
  snd (_batch_insert_claims claims db).

End CsvImport.

(** *** [clear_all_data] (lines 102-111) *)

Definition clear_all_data {DB} (cursor : database.Cursor DB) (db : DB)
    : Outcome unit * DB :=
  match database.execute_statement cursor "DELETE FROM messages" db with
  | (Raise e, db1) => (Raise e, db1)
  | (Ok _, db1) =>
      match database.execute_statement cursor "DELETE FROM conversations" db1 with
      | (Raise e, db2) => (Raise e, db2)
      | (Ok _, db2) =>
          match database.execute_statement cursor "DELETE FROM claims" db2 with
          | (Raise e, db3) => (Raise e, db3)
          | (Ok _, db3) => (Ok tt, db3)
          end
      end
  end.

(** *** The filtered and the aggregated query (lines 113-210) *)

(** The filters in the order of lines 120-148, each with the condition it
    adds. *)
Definition filter_columns : list (string * string) :=
  [ ("claim_status", "claim_status = ");
    ("claim_type", "claim_type = ");
    ("min_amount", "claim_amount >= ");
    ("max_amount", "claim_amount <= ");
    ("start_date", "claim_date >= ");
    ("end_date", "claim_date <= ") ].

(** [filters[key]] for a key that is there. *)
Definition item (filters : gmap string value) (key : string) : value :=
  default VNone (filters !! key).

(** One block of lines 120-148, on [where_conditions], [params] and
    [param_count]. *)
Definition add_filter (filters : gmap string value)
    (acc : list string * list value * nat) (column : string * string)
    : list string * list value * nat :=
  let '(where_conditions, params, param_count) := acc in
  if truthy (filters !! column.1)
  then (where_conditions ++ [column.2 +:+ "$" +:+ pretty param_count],
        params ++ [item filters column.1],
        S param_count)
  else acc.

(** The conditions the blocks add for [columns], with the numbers they get
    from [param_count] on. *)
Fixpoint numbered (param_count : nat) (columns : list (string * string)) : list string :=
  match columns with
  | [] => []
  | column :: rest =>
      (column.2 +:+ "$" +:+ pretty param_count) :: numbered (S param_count) rest
  end.

(** [" WHERE " + " AND ".join(where_conditions) if where_conditions else ""] *)
Definition where_clause (where_conditions : list string) : string :=
  match where_conditions with
  | [] => ""
  | _ => " WHERE " +:+ Str.join " AND " where_conditions
  end.

(** The f-string of lines 152-157. *)
Definition filter_query (where_text : string) (limit : Z) : string :=
  Text.nl +:+ "            SELECT * FROM claims " +:+
  Text.nl +:+ "            " +:+ where_text +:+
  Text.nl +:+ "            ORDER BY claim_date DESC " +:+
  Text.nl +:+ "            LIMIT " +:+ pretty limit +:+
  Text.nl +:+ "            ".

(** Lines 160-162. *)
Definition to_pg (query : string) (count : nat) : string :=
  foldl (fun pg_query i => Str.replace ("$" +:+ pretty (i + 1)%nat) "%s" pg_query)
        query (seq 0 count).

(** Every pass of [to_pg] over [a] comes to rest at the end of [a]: the
    conversion of [a] does not depend on what follows it. *)
Fixpoint passes_split (a : string) (indices : list nat) : bool :=
  match indices with
  | [] => true
  | i :: rest =>
      Str.splits ("$" +:+ pretty (i + 1)%nat) 0 a &&
      passes_split (Str.replace ("$" +:+ pretty (i + 1)%nat) "%s" a) rest
  end.

(** The statement [get_claims_by_filter] sends and its parameters. *)
Definition filter_statement (filters : gmap string value) (limit : Z)
    : string * list value :=
  let '(where_conditions, params, _) :=
    foldl (add_filter filters) ([], [], 1%nat) filter_columns in
  (to_pg (filter_query (where_clause where_conditions) limit) (length params), params).

Definition get_claims_by_filter (env : Env) (filters : gmap string value) (limit : Z)
    : Outcome (list Row) :=
  let '(pg_query, params) := filter_statement filters limit in
  execute_query env pg_query (Some params).

Definition valid_group_fields : list string :=
  ["claim_status"; "claim_type"; "provider_id"; "diagnosis_code"].

Definition invalid_group_by : exn :=
  Exception
    "Invalid group_by field. Must be one of: ['claim_status', 'claim_type', 'provider_id', 'diagnosis_code']".

(** Lines 180-188: [filters] is [None] by default, and an empty dict is as
    false as [None]. *)
Definition date_filter (filters : option (gmap string value)) (key condition : string)
    : list (string * value) :=
  match filters with
  | Some given =>
      if bool_decide (given = ∅) then []
      else if truthy (given !! key) then [(condition, item given key)] else []
  | None => []
  end.

(** The f-string of lines 192-204. *)
Definition aggregate_query (group_by where_text : string) : string :=
  Text.nl +:+ "            SELECT " +:+
  Text.nl +:+ "                " +:+ group_by +:+ "," +:+
  Text.nl +:+ "                COUNT(*) as count," +:+
  Text.nl +:+ "                SUM(claim_amount) as total_amount," +:+
  Text.nl +:+ "                AVG(claim_amount) as avg_amount," +:+
  Text.nl +:+ "                AVG(processing_days) as avg_processing_days" +:+
  Text.nl +:+ "            FROM claims " +:+
  Text.nl +:+ "            " +:+ where_text +:+
  Text.nl +:+ "            GROUP BY " +:+ group_by +:+
  Text.nl +:+ "            ORDER BY count DESC" +:+
  Text.nl +:+ "            LIMIT 20" +:+
  Text.nl +:+ "            ".

(** The statement [get_aggregated_data] sends for a valid [group_by], and
    its parameters. *)
Definition aggregate_statement (group_by : string) (filters : option (gmap string value))
    : string * list value :=
  let chosen :=
    date_filter filters "start_date" "claim_date >= %s" ++
    date_filter filters "end_date" "claim_date <= %s" in
  (aggregate_query group_by (where_clause chosen.*1), chosen.*2).

Definition get_aggregated_data (env : Env) (group_by : string)
    (filters : option (gmap string value)) : Outcome (list Row) :=
  if bool_decide (group_by ∈ valid_group_fields) then
    let '(query, params) := aggregate_statement group_by filters in
    execute_query env query (Some params)
  else Raise invalid_group_by.

End data_import.

(** ** The upload endpoint (main.py, lines 41-70) *)

Module main.

Record UploadFile := {
  filename : string;
  content : string
}.

(** An entry of [files_processed]. *)
Record FileResult := {
  processed_filename : string;
  records_imported : nat;
  status : string
}.

Record DataImportResponse := {
  success : bool;
  message : string;
  files_processed : list FileResult;
  total_records : nat
}.

Record HTTPException := {
  status_code : Z;
  detail : string
}.

Section Upload.

Context {DB Date Decimal : Type}.
Context (parsers : models.Parsers Date Decimal).
Context (connection : option (database.Connection DB (list (models.Param Date Decimal)))).
Context (reader : string -> list data_import.RawRow * option exn).
(** [content.decode('utf-8')] *)
Context (decode : string -> Outcome string).
(** [str(HTTPException(status_code=..., detail=...))] *)
Context (str_http : HTTPException -> string).

Definition not_a_csv (file : UploadFile) : HTTPException :=
  {| status_code := 400;
     detail := "File " +:+ filename file +:+ " is not a CSV file" |}.

(** The loop of lines 47-61, from [results] and [total_records]. *)
Fixpoint upload_each (files : list UploadFile) (results : list FileResult)
    (total : nat) (db : DB) : Outcome (list FileResult * nat) * DB :=
  match files with
  | [] => (Ok (results, total), db)
  | file :: rest =>
      if negb (Str.endswith ".csv" (filename file))
      then (Raise (Exception (str_http (not_a_csv file))), db)
      else
        match decode (content file) with
        | Raise e => (Raise e, db)
        | Ok csv_data =>
            match data_import.import_csv_data parsers connection reader
                    csv_data (filename file) db with
            | (Raise e, db') => (Raise e, db')
            | (Ok imported, db') =>
                upload_each rest
                  (results ++ [{| processed_filename := filename file;
                                  records_imported := imported;
                                  status := "success" |}])
                  (total + imported) db'
            end
        end
  end.

Definition upload_claims (files : list UploadFile) (db : DB)
    : (DataImportResponse + HTTPException) * DB :=
  match upload_each files [] 0 db with
  | (Ok (results, total), db') =>
      (inl {| success := true;
              message := "Successfully imported " +:+ pretty total +:+
                         " records from " +:+ pretty (length files) +:+ " files.";
              files_processed := results;
              total_records := total |}, db')
  | (Raise e, db') =>
      (inr {| status_code := 500;
              detail := "Error processing files: " +:+ str_exn e |}, db')
  end.

End Upload.

End main.

(** ** A store for the import path

    The table as the import sees it: the identifiers that are stored.  The
    column [claim_id] is [VARCHAR(100) UNIQUE NOT NULL] (database.py, line
    48) and the statement ends in [ON CONFLICT (claim_id) DO NOTHING], so a
    statement stores one row, or none for an identifier that is there, or
    fails for an identifier of more than a hundred characters. *)

Module Ledger.

Definition Params : Type := list (models.Param string Q).

Definition execute (query : string) (params : Params) (db : list string)
    : Outcome Z * list string :=
  match params with
  | models.PText id :: _ =>
      if (100 <? String.length id)%nat
      then (Raise (Exception "value too long for type character varying(100)"), db)
      else if bool_decide (id ∈ db) then (Ok 0%Z, db)
      else (Ok 1%Z, db ++ [id])
  | _ => (Raise (Exception "null value in column claim_id"), db)
  end.

Definition connection : database.Connection (list string) Params :=
  {| database.execute := execute; database.rollback := fun db => db |}.

(** No amount, number or date is read. *)
Definition parsers : models.Parsers string Q :=
  {| models.decimal_of := fun _ => None;
     models.int_of := fun _ => None;
     models.strptime := fun _ _ => None |}.

(** A parser for dates written with slashes, which both orders of day and
    month accept; the date it gives is the format that read it. *)
Definition slashes : models.Parsers string Q :=
  {| models.decimal_of := fun _ => None;
     models.int_of := fun _ => None;
     models.strptime := fun _ fmt =>
       if String.prefix "%Y" fmt then None else Some fmt |}.

Definition long_id : string :=
  "CLM-00000000000000000000000000000000000000000000000000000000000000000000000000000000000000000000000000".

(** A file of four lines under the header [claim_id,claim_type]: two claims,
    a line without identifier, and the first claim again. *)
Definition four_lines : list data_import.RawRow :=
  [ [(Some "claim_id", Some "CLM-1"); (Some "claim_type", Some "dental")];
    [(Some "claim_id", Some " CLM-2 "); (Some "claim_type", Some "vision")];
    [(Some "claim_id", Some "  "); (Some "claim_type", Some "dental")];
    [(Some "claim_id", Some "CLM-1"); (Some "claim_type", Some "")] ].

(** A header [claim_type,claim_id] and a line with the first cell only. *)
Definition short_line : data_import.RawRow :=
  [(Some "claim_type", Some "dental"); (Some "claim_id", None)].

(** A line with a cell more than the header has. *)
Definition long_line : data_import.RawRow :=
  [(Some "claim_id", Some "CLM-9"); (None, None)].

(** The reader on the files of the examples; the file "broken" has the
    four lines and then a line the reader cannot take. *)
Definition csv_error : exn :=
  Exception "new-line character seen in unquoted field".

Definition reader (csv_data : string) : list data_import.RawRow * option exn :=
  if String.eqb csv_data "four" then (four_lines, None)
  else if String.eqb csv_data "short" then ([short_line], None)
  else if String.eqb csv_data "long" then ([long_line], None)
  else if String.eqb csv_data "broken" then (four_lines, Some csv_error)
  else ([], None).

(** The three tables by their numbers of rows, and a cursor that carries out
    a [DELETE] and has no description after it. *)
Record Tables := {
  messages : nat;
  conversations : nat;
  claims : nat
}.

Definition run (query : string) (db : Tables)
    : Outcome (option (list string) * list (list value)) * Tables :=
  if String.eqb query "DELETE FROM messages"
  then (Ok (None, []),
        {| messages := 0; conversations := conversations db; claims := claims db |})
  else if String.eqb query "DELETE FROM conversations"
  then (Ok (None, []),
        {| messages := messages db; conversations := 0; claims := claims db |})
  else if String.eqb query "DELETE FROM claims"
  then (Ok (None, []),
        {| messages := messages db; conversations := conversations db; claims := 0 |})
  else (Raise (Exception "syntax error"), db).

Definition cursor : database.Cursor Tables := {| database.run := run |}.

(** Two files of an upload, and one that is not a CSV file. *)
Definition four : main.UploadFile :=
  {| main.filename := "four.csv"; main.content := "four" |}.
Definition short : main.UploadFile :=
  {| main.filename := "short.csv"; main.content := "short" |}.
Definition notes : main.UploadFile :=
  {| main.filename := "notes.txt"; main.content := "four" |}.

Definition str_http (e : main.HTTPException) : string :=
  pretty (main.status_code e) +:+ ": " +:+ main.detail e.

End Ledger.
(** * Properties *)

(** ** Facts about the text primitives *)

Module TextFacts.
Import Text.

Lemma append_nil (s : string) : "" +:+ s = s.
Proof. reflexivity. Qed.

Lemma append_cons c (a b : string) : String c a +:+ b = String c (a +:+ b).
Proof. reflexivity. Qed.

Ltac unfold_append := rewrite ?append_nil, ?append_cons in *.

Lemma append_assoc (a b c : string) : (a +:+ b) +:+ c = a +:+ (b +:+ c).
Proof.
  induction a as [|x a IH]; unfold_append; [reflexivity | now f_equal].
Qed.

Lemma append_nil_r (a : string) : a +:+ "" = a.
Proof. induction a as [|x a IH]; unfold_append; [reflexivity | now f_equal]. Qed.

Lemma map_chars_app f (a b : string) :
  map_chars f (a +:+ b) = map_chars f a +:+ map_chars f b.
Proof.
  induction a as [|c a IH]; unfold_append; simpl; unfold_append;
    [reflexivity | now f_equal].
Qed.

Lemma map_chars_app_inv f (t a b : string) :
  map_chars f t = a +:+ b ->
  exists a' b', t = a' +:+ b' /\ map_chars f a' = a /\ map_chars f b' = b.
Proof.
  revert t. induction a as [|c a IH]; intros t H; unfold_append.
  - exists "", t. auto.
  - destruct t as [|x t]; simpl in H; [discriminate|].
    injection H as Hc Ht. destruct (IH _ Ht) as (a' & b' & -> & Ha & Hb).
    exists (String x a'), b'. simpl. rewrite Hc, Ha. auto.
Qed.

Lemma map_chars_length f (t : string) :
  String.length (map_chars f t) = String.length t.
Proof. induction t as [|c t IH]; simpl; congruence. Qed.

Lemma upper_lower_char c : upper_char (lower_char c) = upper_char c.
Proof.
  destruct c as [[] [] [] [] [] [] [] []]; vm_compute; reflexivity.
Qed.

(** [lower] by cases: the two code points it knows, and a byte that begins
    neither. *)
Lemma lower_one c : lower (String c "") = String (lower_char c) "".
Proof. reflexivity. Qed.

Lemma lower_two c c1 :
  lower (String c (String c1 "")) =
  if is_byte 196 c && is_byte 176 c1
  then String "i" (String (ascii_of_nat 204) (String (ascii_of_nat 135) ""))
  else String (lower_char c) (lower (String c1 "")).
Proof. cbn [lower]. destruct (is_byte 196 c && is_byte 176 c1); reflexivity. Qed.

Lemma lower_three c c1 c2 r :
  lower (String c (String c1 (String c2 r))) =
  if is_byte 196 c && is_byte 176 c1
  then String "i" (String (ascii_of_nat 204) (String (ascii_of_nat 135)
                     (lower (String c2 r))))
  else if is_byte 226 c && is_byte 132 c1 && is_byte 170 c2
       then String "k" (lower r)
       else String (lower_char c) (lower (String c1 (String c2 r))).
Proof. reflexivity. Qed.

Lemma ascii_not_byte n c : (128 <= n)%nat -> is_ascii c = true -> is_byte n c = false.
Proof.
  unfold is_ascii, is_byte. intros Hn Hc.
  apply Nat.ltb_lt in Hc. apply Nat.eqb_neq. lia.
Qed.

Lemma lower_char_ascii c : is_ascii (lower_char c) = is_ascii c.
Proof.
  destruct c as [[] [] [] [] [] [] [] []]; vm_compute; reflexivity.
Qed.

Lemma id_char_ascii c : id_char c = true -> is_ascii c = true.
Proof.
  destruct c as [[] [] [] [] [] [] [] []]; vm_compute; congruence.
Qed.

Lemma lower_cons_ascii c r :
  is_ascii c = true -> lower (String c r) = String (lower_char c) (lower r).
Proof.
  intros Hc. destruct r as [|c1 [|c2 r2]]; [reflexivity| |].
  - rewrite lower_two, (ascii_not_byte 196 c) by (assumption || lia). reflexivity.
  - rewrite lower_three, (ascii_not_byte 196 c), (ascii_not_byte 226 c)
      by (assumption || lia). reflexivity.
Qed.

Lemma continues_not_ascii c : is_ascii c = true -> continues c = false.
Proof.
  intros Hc. unfold continues.
  rewrite !ascii_not_byte by (assumption || lia). reflexivity.
Qed.

(** Lowering is done piece by piece where the second piece does not begin
    in the middle of a code point ... *)
Lemma lower_app_at (a b : string) :
  match b with EmptyString => True | String c _ => continues c = false end ->
  lower (a +:+ b) = lower a +:+ lower b.
Proof.
  intros Hb.
  assert (H : forall n a, (String.length a <= n)%nat ->
                lower (a +:+ b) = lower a +:+ lower b); [|now apply (H (String.length a))].
  clear a. induction n as [|n IH]; intros a Hn.
  { destruct a; [reflexivity | simpl in Hn; lia]. }
  destruct a as [|c [|c1 [|c2 r2]]]; [reflexivity| | |].
  - (* one byte before [b] *)
    rewrite append_cons, append_nil, lower_one, append_cons, append_nil.
    destruct b as [|cb [|cb' rb']]; [reflexivity| |];
      unfold continues in Hb;
      apply orb_false_iff in Hb as [Hb H170]; apply orb_false_iff in Hb as [H176 H132].
    + rewrite lower_two, H176, andb_false_r. reflexivity.
    + rewrite lower_three, H176, H132, !andb_false_r. reflexivity.
  - (* two bytes before [b] *)
    rewrite !append_cons, append_nil.
    destruct b as [|cb rb]; [cbn [lower]; now rewrite append_nil_r|].
    rewrite lower_three, lower_two.
    destruct (is_byte 196 c && is_byte 176 c1) eqn:Hd.
    + rewrite !append_cons, append_nil. reflexivity.
    + unfold continues in Hb. apply orb_false_iff in Hb as [Hb H170].
      rewrite H170, andb_false_r.
      pose proof (IH (String c1 "") ltac:(simpl in *; lia)) as IH1.
      rewrite append_cons, append_nil in IH1. rewrite IH1, append_cons. reflexivity.
  - (* three bytes or more *)
    rewrite !append_cons, !lower_three.
    destruct (is_byte 196 c && is_byte 176 c1) eqn:Hd.
    + rewrite <- append_cons, (IH (String c2 r2)) by (simpl in *; lia).
      rewrite !append_cons. reflexivity.
    + destruct (is_byte 226 c && is_byte 132 c1 && is_byte 170 c2) eqn:Hk.
      * rewrite (IH r2) by (simpl in *; lia). rewrite append_cons. reflexivity.
      * rewrite <- !append_cons, (IH (String c1 (String c2 r2))) by (simpl in *; lia).
        rewrite !append_cons. reflexivity.
Qed.

(** ... and where the lowered first piece is pure ASCII, so that the piece
    does not end in the middle of one. *)
Lemma lower_ascii_app (a b : string) :
  all_chars is_ascii (lower a) = true ->
  lower (a +:+ b) = lower a +:+ lower b.
Proof.
  assert (H : forall n a, (String.length a <= n)%nat ->
                all_chars is_ascii (lower a) = true ->
                lower (a +:+ b) = lower a +:+ lower b); [|now apply (H (String.length a))].
  clear a. induction n as [|n IH]; intros a Hn Ha.
  { destruct a; [reflexivity | simpl in Hn; lia]. }
  destruct a as [|c r]; [reflexivity|].
  destruct (is_ascii c) eqn:Hc.
  - rewrite append_cons, !lower_cons_ascii by assumption.
    rewrite lower_cons_ascii in Ha by assumption.
    cbn [all_chars] in Ha. apply andb_true_iff in Ha as [_ Ha].
    rewrite (IH r) by (simpl in *; lia || assumption). rewrite append_cons. reflexivity.
  - assert (Hl : is_ascii (lower_char c) = false) by now rewrite lower_char_ascii.
    destruct r as [|c1 [|c2 r2]].
    + rewrite lower_one in Ha. cbn [all_chars] in Ha. rewrite Hl in Ha. discriminate.
    + rewrite lower_two in Ha.
      destruct (is_byte 196 c && is_byte 176 c1);
        cbn [all_chars] in Ha; rewrite ?Hl in Ha; discriminate.
    + rewrite lower_three in Ha. rewrite !append_cons, !lower_three.
      destruct (is_byte 196 c && is_byte 176 c1) eqn:Hd.
      { cbn [all_chars] in Ha. discriminate. }
      destruct (is_byte 226 c && is_byte 132 c1 && is_byte 170 c2) eqn:Hk.
      * cbn [all_chars] in Ha. apply andb_true_iff in Ha as [_ Ha].
        rewrite (IH r2) by (simpl in *; lia || assumption).
        rewrite append_cons. reflexivity.
      * cbn [all_chars] in Ha. rewrite Hl in Ha. discriminate.
Qed.

(** The first byte of a text whose lowered form is pure ASCII begins a code
    point. *)
Lemma lower_ascii_head c r :
  all_chars is_ascii (lower (String c r)) = true -> continues c = false.
Proof.
  intros Ha. destruct (is_ascii c) eqn:Hc; [now apply continues_not_ascii|].
  assert (Hl : is_ascii (lower_char c) = false) by now rewrite lower_char_ascii.
  destruct (continues c) eqn:Hcont; [|reflexivity]. exfalso.
  assert (Hb : is_byte 196 c = false /\ is_byte 226 c = false).
  { unfold continues, is_byte in *.
    destruct (code c =? 176)%nat eqn:E1; [apply Nat.eqb_eq in E1; rewrite E1; auto|].
    destruct (code c =? 132)%nat eqn:E2; [apply Nat.eqb_eq in E2; rewrite E2; auto|].
    destruct (code c =? 170)%nat eqn:E3; [apply Nat.eqb_eq in E3; rewrite E3; auto|].
    discriminate. }
  destruct Hb as [H196 H226].
  destruct r as [|c1 [|c2 r2]].
  - rewrite lower_one in Ha. cbn [all_chars] in Ha. rewrite Hl in Ha. discriminate.
  - rewrite lower_two, H196 in Ha. cbn [andb all_chars] in Ha. rewrite Hl in Ha.
    discriminate.
  - rewrite lower_three, H196, H226 in Ha. cbn [andb all_chars] in Ha. rewrite Hl in Ha.
    discriminate.
Qed.

Lemma all_chars_app p (a b : string) :
  all_chars p (a +:+ b) = all_chars p a && all_chars p b.
Proof.
  induction a as [|c a IH]; [reflexivity|].
  rewrite append_cons. cbn [all_chars]. now rewrite IH, andb_assoc.
Qed.

Lemma all_chars_weaken (p q : ascii -> bool) (s : string) :
  (forall c, p c = true -> q c = true) ->
  all_chars p s = true -> all_chars q s = true.
Proof.
  intros Hpq. induction s as [|c s IH]; [reflexivity|].
  cbn [all_chars]. intros H. apply andb_true_iff in H as [Hc Hs].
  now rewrite (Hpq c Hc), IH.
Qed.

Lemma id_pattern_ascii m : id_pattern m -> all_chars is_ascii m = true.
Proof.
  intros (body & -> & _ & Hbody). rewrite all_chars_app.
  apply andb_true_iff. split; [reflexivity|].
  exact (all_chars_weaken _ _ _ id_char_ascii Hbody).
Qed.

Lemma prefix_app (p s : string) : String.prefix p (p +:+ s) = true.
Proof.
  induction p as [|c p IH]; unfold_append; simpl; [destruct s; reflexivity|].
  destruct (Ascii.ascii_dec c c); [exact IH | congruence].
Qed.

Lemma prefix_inv (p s : string) :
  String.prefix p s = true -> exists r, s = p +:+ r.
Proof.
  revert s. induction p as [|c p IH]; intros s H.
  - exists s. reflexivity.
  - destruct s as [|x s]; simpl in H; [discriminate|].
    destruct (Ascii.ascii_dec c x) as [->|]; [|discriminate].
    destruct (IH _ H) as [r ->]. exists r. reflexivity.
Qed.

Lemma drop_app (p s : string) : drop (String.length p) (p +:+ s) = s.
Proof. induction p as [|c p IH]; unfold_append; simpl; [reflexivity | exact IH]. Qed.

(** The run [span] takes, and what it leaves. *)
Lemma span_split p (s : string) :
  exists rest, s = span p s +:+ rest /\ all_chars p (span p s) = true /\ span p rest = "".
Proof.
  induction s as [|c s (rest & Hs & Hall & Hrest)]; simpl.
  - exists "". auto.
  - destruct (p c) eqn:Hc.
    + exists rest. unfold_append. simpl. rewrite Hc, Hall. rewrite <- Hs. auto.
    + exists (String c s). unfold_append. simpl. rewrite Hc. auto.
Qed.

Lemma span_app_nonempty p (body post : string) :
  body <> "" -> all_chars p body = true -> span p (body +:+ post) <> "".
Proof.
  destruct body as [|c body]; [congruence|]. unfold_append. simpl.
  intros _ H. apply andb_prop in H as [-> _]. discriminate.
Qed.

(** The anchored match succeeds wherever some match starts. *)
Lemma re_match_complete (m post : string) :
  id_pattern m -> exists m', re_match_claim_id (m +:+ post) = Some m'.
Proof.
  intros (body & -> & Hne & Hall). unfold re_match_claim_id.
  rewrite append_assoc, prefix_app, drop_app.
  pose proof (span_app_nonempty id_char body post Hne Hall) as Hs.
  destruct (span id_char (body +:+ post)) eqn:E; [congruence|]. eauto.
Qed.

(** What the anchored match returns: a full match of the pattern at the
    start of the text, which no further class character extends. *)
Lemma re_match_sound (s m : string) :
  re_match_claim_id s = Some m ->
  exists post, s = m +:+ post /\ id_pattern m /\ span id_char post = "".
Proof.
  unfold re_match_claim_id. intros H.
  destruct (String.prefix id_prefix s) eqn:Hp; [|discriminate].
  apply prefix_inv in Hp as [r ->]. rewrite drop_app in H.
  destruct (span_split id_char r) as (post & Hr & Hall & Hpost).
  destruct (span id_char r) as [|c body] eqn:E; [discriminate|].
  injection H as <-. exists post. split; [|split].
  - rewrite append_assoc. now rewrite <- Hr.
  - exists (String c body). repeat split; [discriminate | exact Hall].
  - exact Hpost.
Qed.

Lemma re_search_here (s m : string) :
  re_match_claim_id s = Some m -> re_search_claim_id s = Some m.
Proof. intros H. destruct s; cbn [re_search_claim_id]; now rewrite H. Qed.

(** [re.search] finds a match whenever the text contains one, and the match
    it returns is the one at the leftmost position, extended as far as the
    class allows. *)
Lemma re_search_spec (pre m post : string) :
  id_pattern m ->
  exists pre' m' post',
    re_search_claim_id (pre +:+ m +:+ post) = Some m' /\
    pre +:+ m +:+ post = pre' +:+ m' +:+ post' /\
    id_pattern m' /\
    span id_char post' = "" /\
    (String.length pre' <= String.length pre)%nat.
Proof.
  intros Hm. induction pre as [|c pre IH]; unfold_append.
  - destruct (re_match_complete m post Hm) as [m' Hm'].
    destruct (re_match_sound _ _ Hm') as (post' & Hs & Hp & Hmax).
    exists "", m', post'. unfold_append. repeat split; auto using re_search_here.
  - destruct IH as (pre' & m' & post' & Hs & Heq & Hp & Hmax & Hlen).
    cbn [re_search_claim_id].
    destruct (re_match_claim_id (String c (pre +:+ m +:+ post))) as [m0|] eqn:E.
    + destruct (re_match_sound _ _ E) as (post0 & Hs0 & Hp0 & Hmax0).
      exists "", m0, post0. unfold_append. simpl. repeat split; auto. lia.
    + exists (String c pre'), m', post'. unfold_append. simpl. rewrite Hs, Heq.
      repeat split; auto. lia.
Qed.

Lemma re_search_sound (s m : string) :
  re_search_claim_id s = Some m ->
  exists pre post, s = pre +:+ m +:+ post /\ id_pattern m.
Proof.
  induction s as [|c s IH]; cbn [re_search_claim_id].
  - destruct (re_match_claim_id "") as [m0|] eqn:E; [|discriminate].
    intros [= <-]. destruct (re_match_sound _ _ E) as (post & Hs & Hp & _).
    exists "", post. auto.
  - destruct (re_match_claim_id (String c s)) as [m0|] eqn:E.
    + intros [= <-]. destruct (re_match_sound _ _ E) as (post & Hs & Hp & _).
      exists "", post. auto.
    + intros H. destruct (IH H) as (pre & post & -> & Hp).
      exists (String c pre), post. auto.
Qed.

Lemma contains_here (needle hay : string) :
  String.prefix needle hay = true -> contains needle hay = true.
Proof. intros H. destruct hay; cbn [contains]; now rewrite H. Qed.

(** [needle in hay] holds for every text that has [needle] somewhere. *)
Lemma contains_complete (pre needle post : string) :
  contains needle (pre +:+ needle +:+ post) = true.
Proof.
  induction pre as [|c pre IH]; unfold_append.
  - apply contains_here, prefix_app.
  - cbn [contains]. rewrite IH. apply orb_true_r.
Qed.

End TextFacts.

(** ** Intent routing *)

Example classify_id_first :
  classify "status of Clm-ab12-99999 please, how many?" = IdLookup "CLM-AB12-99999".
Proof. reflexivity. Qed.

Example classify_count : classify "How Many claims are pending" = CountQuery.
Proof. reflexivity. Qed.

Example classify_default :
  classify "pending dental issues (clm- )" = SemanticSearch "pending dental issues (clm- )".
Proof. reflexivity. Qed.

(** A text that holds, in any letter case, a substring the identifier
    pattern matches has the lowered substring in its lowered form. *)
Lemma identifier_in_any_case (pre m post : string) :
  Text.id_pattern (Text.lower m) ->
  Text.lower (pre +:+ m +:+ post) = Text.lower pre +:+ Text.lower m +:+ Text.lower post.
Proof.
  intros Hm. pose proof (TextFacts.id_pattern_ascii _ Hm) as Ha.
  rewrite TextFacts.lower_app_at.
  - now rewrite TextFacts.lower_ascii_app.
  - destruct m as [|c r].
    + destruct Hm as (body & Hm & _). discriminate Hm.
    + rewrite TextFacts.append_cons. exact (TextFacts.lower_ascii_head c r Ha).
Qed.



(** The two code points outside ASCII that lower to a letter: the Kelvin
    sign makes an identifier of its own, which is looked up with an ASCII K,
    and the dotted capital I ends in an [i]. *)
Example classify_kelvin_sign :
  classify ("clm-" +:+ String (ascii_of_nat 226) (String (ascii_of_nat 132)
              (String (ascii_of_nat 170) " CLM-AB12"))) = IdLookup "CLM-K".
Proof. vm_compute. reflexivity. Qed.

Example classify_dotted_capital :
  classify ("how many clm-" +:+ String (ascii_of_nat 196) (String (ascii_of_nat 176) "x"))
  = IdLookup "CLM-I".
Proof. vm_compute. reflexivity. Qed.

(** ** Traces of the methods *)


Section Emits.

Context (P : Event -> Prop).

Lemma emits_ret {A} (a : A) : emits P (ret a).
Proof. intros s. constructor. Qed.

Lemma emits_raise {A} e : emits P (@raise A e).
Proof. intros s. constructor. Qed.

Lemma emits_lift {A} (o : Outcome A) : emits P (lift o).
Proof. intros s. constructor. Qed.

Lemma emits_get : emits P get.
Proof. intros s. constructor. Qed.

Lemma emits_modify f : emits P (modify f).
Proof. intros s. constructor. Qed.

Lemma emits_emit ev : P ev -> emits P (emit ev).
Proof. intros H s. simpl. auto. Qed.

Lemma emits_bind {A B} (m : M A) (f : A -> M B) :
  emits P m -> (forall a, emits P (f a)) -> emits P (bind m f).
Proof.
  intros Hm Hf s. unfold bind. specialize (Hm s).
  destruct (outcome (m s)); simpl; [|exact Hm].
  apply Forall_app. split; [exact Hm | apply Hf].
Qed.

Lemma emits_try_except {A} (m : M A) handler :
  emits P m -> (forall e, emits P (handler e)) -> emits P (try_except m handler).
Proof.
  intros Hm Hh s. unfold try_except. specialize (Hm s).
  destruct (outcome (m s)); simpl; [exact Hm|].
  apply Forall_app. split; [exact Hm | apply Hh].
Qed.

Lemma emits_for_each {A} (l : list A) body :
  (forall x, emits P (body x)) -> emits P (for_each l body).
Proof.
  intros Hb. induction l as [|x l IH]; simpl.
  - apply emits_ret.
  - apply emits_bind; auto.
Qed.

End Emits.

Ltac emits_step :=
  first
    [ apply emits_ret | apply emits_raise | apply emits_lift | apply emits_get
    | apply emits_modify | apply emits_for_each; intros
    | apply emits_try_except; [|intros] | apply emits_bind; [|intros]
    | apply emits_emit; first [exact I | reflexivity] ].

Ltac emits_auto :=
  repeat first
    [ emits_step
    | match goal with
      | |- emits _ (match ?x with _ => _ end) => destruct x
      end ].


Lemma retrieval_not_yielded t : Forall is_retrieval t -> omap yielded t = [].
Proof.
  induction 1 as [|ev t Hev _ IH]; [reflexivity|].
  destruct ev; simpl in *; try contradiction; exact IH.
Qed.

Section MethodTraces.

Context (env : Env).

Lemma build_emits : emits is_retrieval (_build_rag_index env).
Proof.
  unfold _build_rag_index, db_execute_query, model_encode, set_rag_index,
    clear_documents, rag_index_add, append_document.
  emits_auto.
Qed.

End MethodTraces.

(** ** Facts about sequences and the exhaustive index *)

Lemma getitem_nat {A} (l : list A) (i : nat) x :
  l !! i = Some x -> getitem l (Z.of_nat i) = Ok x.
Proof.
  intros H. pose proof (lookup_lt_Some _ _ _ H) as Hlt. unfold getitem.
  destruct (Z.ltb_spec (Z.of_nat i) 0); [lia|].
  destruct (Z.leb_spec 0 (Z.of_nat i)); [|lia].
  destruct (Z.ltb_spec (Z.of_nat i) (Z.of_nat (length l))); [|lia].
  simpl. now rewrite Nat2Z.id, H.
Qed.

(** [l[-1]] is the last element. *)
Lemma getitem_minus_one {A} (l : list A) x :
  last l = Some x -> getitem l (-1) = Ok x.
Proof.
  intros H. rewrite last_lookup in H.
  pose proof (lookup_lt_Some _ _ _ H) as Hlt. unfold getitem.
  change (-1 <? 0)%Z with true. cbv iota.
  destruct (Z.leb_spec 0 (-1 + Z.of_nat (length l))); [|lia].
  destruct (Z.ltb_spec (-1 + Z.of_nat (length l)) (Z.of_nat (length l))); [|lia].
  simpl. replace (Z.to_nat (-1 + Z.of_nat (length l))) with (pred (length l)) by lia.
  now rewrite H.
Qed.

Lemma comprehension_fmap {A B} (f : A -> Outcome B) (g : A -> B) (l : list A) :
  Forall (fun i => f i = Ok (g i)) l -> comprehension f l = Ok (g <$> l).
Proof.
  induction 1 as [|i l Hi _ IH]; simpl; [reflexivity|]. now rewrite Hi, IH.
Qed.

Lemma comprehension_length {A B} (f : A -> Outcome B) (l : list A) xs :
  comprehension f l = Ok xs -> length xs = length l.
Proof.
  revert xs. induction l as [|i l IH]; simpl; intros xs H.
  - now injection H as <-.
  - destruct (f i); [|discriminate].
    destruct (comprehension f l); [|discriminate].
    injection H as <-. simpl. f_equal. now apply IH.
Qed.

Lemma lookup_total_seq {A} `{Inhabited A} (l : list A) :
  (fun i => l !!! i) <$> seq 0 (length l) = l.
Proof.
  apply list_eq. intros i. rewrite list_lookup_fmap.
  destruct (decide (i < length l)%nat) as [Hlt|Hge].
  - rewrite lookup_seq_lt by exact Hlt. simpl.
    destruct (lookup_lt_is_Some_2 l i Hlt) as [x Hx].
    rewrite Hx. f_equal. now apply list_lookup_total_correct.
  - rewrite lookup_seq_ge by lia. simpl. symmetry. apply lookup_ge_None. lia.
Qed.

Module FaissFacts.
Import faiss.

Lemma insert_perm p l : insert_by_distance p l ≡ₚ p :: l.
Proof.
  induction l as [|h t IH]; simpl; [reflexivity|].
  destruct (Qle_bool (fst p) (fst h)); [reflexivity|].
  rewrite IH. apply Permutation_swap.
Qed.

Lemma sort_perm l : sort_by_distance l ≡ₚ l.
Proof.
  induction l as [|p l IH]; simpl; [reflexivity|].
  rewrite insert_perm. now constructor.
Qed.

Lemma scored_labels index q :
  snd <$> scored index q = Z.of_nat <$> seq 0 (ntotal index).
Proof.
  unfold scored, ntotal. rewrite fmap_imap.
  apply (imap_seq_0 (xb index) Z.of_nat).
Qed.

(** The labels of the stored vectors, each once, in order of distance. *)
Lemma sorted_labels index q :
  snd <$> sort_by_distance (scored index q) ≡ₚ Z.of_nat <$> seq 0 (ntotal index).
Proof. rewrite sort_perm. now rewrite scored_labels. Qed.

Lemma sorted_length index q :
  length (sort_by_distance (scored index q)) = ntotal index.
Proof.
  rewrite (Permutation_length (sort_perm _)). unfold scored. apply length_imap.
Qed.

(** A result row has exactly [k] entries. *)
Lemma knn_length index q k : length (knn index q k) = k.
Proof.
  unfold knn. rewrite length_app, length_replicate.
  pose proof (firstn_le_length k (sort_by_distance (scored index q))). lia.
Qed.

(** Every label is a position of the index or the padding label. *)
Lemma knn_labels_range index q k :
  Forall (fun i => (-1 <= i < Z.of_nat (ntotal index))%Z) (snd <$> knn index q k).
Proof.
  unfold knn. rewrite fmap_app. apply Forall_app. split.
  - apply Forall_forall. intros i Hi.
    apply list_elem_of_fmap in Hi as (p & -> & Hp).
    apply elem_of_take in Hp as (j & Hp & _).
    apply list_elem_of_lookup_2 in Hp.
    assert (Hin : snd p ∈ snd <$> sort_by_distance (scored index q))
      by (apply list_elem_of_fmap; eauto).
    rewrite sorted_labels in Hin.
    apply list_elem_of_fmap in Hin as (n & -> & Hn).
    apply elem_of_seq in Hn. lia.
  - rewrite fmap_replicate. apply Forall_replicate. simpl. lia.
Qed.

(** With fewer stored vectors than requested neighbours, the row is every
    stored vector followed by padding. *)
Lemma knn_padded index q k :
  (ntotal index <= k)%nat ->
  knn index q k =
    sort_by_distance (scored index q) ++ replicate (k - ntotal index) (FLT_MAX, (-1)%Z).
Proof.
  intros Hk. unfold knn.
  rewrite take_ge by (rewrite sorted_length; exact Hk).
  now rewrite sorted_length.
Qed.

End FaissFacts.

(** ** Rounding to single precision *)

Module Float32Facts.

Import float32.

Local Open Scope Q_scope.

Ltac compared H :=
  match type of H with
  | _ = Eq => apply Qeq_alt in H
  | _ = Lt => apply Qlt_alt in H
  | _ = Gt => apply Qgt_alt in H
  end.

Lemma pow2_pos (e : Z) : 0 < 2 ^ e.
Proof. apply Qpower_0_lt. reflexivity. Qed.

Lemma pow2_plus (a b : Z) : 2 ^ (a + b) == 2 ^ a * 2 ^ b.
Proof. apply Qpower_plus. discriminate. Qed.

Lemma pow2_le (a b : Z) : (a <= b)%Z -> 2 ^ a <= 2 ^ b.
Proof. intros H. apply Qpower_le_compat_l; [exact H|]. discriminate. Qed.

Lemma pow2_inject (n : Z) : (0 <= n)%Z -> inject_Z (2 ^ n) == 2 ^ n.
Proof. intros H. exact (Zpower_Qpower 2 n H). Qed.

(** [round_half_even] is monotone and leaves the integers where they are. *)
Lemma round_half_even_bounds x :
  (Qfloor x <= round_half_even x <= Qfloor x + 1)%Z.
Proof.
  unfold round_half_even.
  destruct (2 * (x - inject_Z (Qfloor x)) ?= 1); [destruct (Z.even _)| |]; lia.
Qed.

Lemma round_half_even_mono x y : x <= y -> (round_half_even x <= round_half_even y)%Z.
Proof.
  intros Hxy.
  pose proof (Qfloor_resp_le x y Hxy) as Hf.
  pose proof (round_half_even_bounds x) as Hx.
  pose proof (round_half_even_bounds y) as Hy.
  destruct (Z.eq_dec (Qfloor x) (Qfloor y)) as [He|Hne]; [|lia].
  unfold round_half_even in *. rewrite <- He in *. clear Hx Hy Hf.
  destruct (2 * (x - inject_Z (Qfloor x)) ?= 1) eqn:Cx;
    destruct (2 * (y - inject_Z (Qfloor x)) ?= 1) eqn:Cy;
    try (destruct (Z.even (Qfloor x))); try lia;
    compared Cx; compared Cy; exfalso; lra.
Qed.

Lemma round_half_even_Z (n : Z) : round_half_even (inject_Z n) = n.
Proof.
  unfold round_half_even. rewrite Qfloor_Z.
  assert (H : 2 * (inject_Z n - inject_Z n) < 1) by lra.
  rewrite Qlt_alt in H. rewrite H. reflexivity.
Qed.

Lemma round_half_even_eq x y : x == y -> round_half_even x = round_half_even y.
Proof.
  intros H. apply Z.le_antisymm; apply round_half_even_mono; rewrite H; apply Qle_refl.
Qed.

Lemma to_multiple_mono e x y : x <= y -> to_multiple e x <= to_multiple e y.
Proof.
  intros H. unfold to_multiple.
  apply Qmult_le_compat_r; [|apply Qlt_le_weak, pow2_pos].
  rewrite <- Zle_Qle. apply round_half_even_mono.
  apply Qmult_le_compat_r; [exact H|].
  apply Qlt_le_weak, Qinv_lt_0_compat, pow2_pos.
Qed.

Lemma to_multiple_fixed e (n : Z) : to_multiple e (inject_Z n * 2 ^ e) == inject_Z n * 2 ^ e.
Proof.
  unfold to_multiple.
  rewrite (round_half_even_eq _ (inject_Z n)); [rewrite round_half_even_Z; reflexivity|].
  field. intros H. pose proof (pow2_pos e) as Hp. rewrite H in Hp. discriminate.
Qed.

(** The exponent of a positive number. *)
Lemma ilog2_spec q : 0 < q -> 2 ^ ilog2 q <= q /\ q < 2 ^ (ilog2 q + 1).
Proof.
  intros Hq. destruct q as [n d]. unfold ilog2. cbn [Qnum Qden].
  assert (Hn : (0 < n)%Z).
  { unfold Qlt in Hq. cbn in Hq. lia. }
  destruct (Z.log2_spec n Hn) as [Hn1 Hn2].
  destruct (Z.log2_spec (Zpos d) eq_refl) as [Hd1 Hd2].
  set (a := Z.log2 n) in *. set (b := Z.log2 (Zpos d)) in *.
  assert (Ha : (0 <= a)%Z) by apply Z.log2_nonneg.
  assert (Hb : (0 <= b)%Z) by apply Z.log2_nonneg.
  assert (Hq' : n # d == inject_Z n / inject_Z (Zpos d)) by apply Qmake_Qdiv.
  assert (HD : 0 < inject_Z (Zpos d)) by reflexivity.
  assert (HN : inject_Z n == (n # d) * inject_Z (Zpos d)).
  { rewrite Hq'. field. intros H. rewrite H in HD. discriminate. }
  rewrite Zle_Qle, pow2_inject in Hn1, Hd1 by assumption.
  rewrite <- Z.add_1_r in Hn2, Hd2.
  rewrite Zlt_Qlt, pow2_inject in Hn2, Hd2 by lia.
  (* the bounds on either side of [a - b] *)
  assert (Hup : (n # d) < 2 ^ (a - b + 1)).
  { apply Qnot_le_lt. intros Hle.
    assert (H1 : 2 ^ (a + 1) == 2 ^ (a - b + 1) * 2 ^ b).
    { replace (a + 1)%Z with (a - b + 1 + b)%Z by lia. apply pow2_plus. }
    pose proof (pow2_pos (a - b + 1)) as Hp.
    assert (H2 : 2 ^ (a - b + 1) * 2 ^ b <= (n # d) * inject_Z (Zpos d)).
    { apply Qle_trans with (2 ^ (a - b + 1) * inject_Z (Zpos d)).
      - apply Qmult_le_l; assumption.
      - apply Qmult_le_compat_r; [exact Hle|apply Qlt_le_weak, HD]. }
    rewrite <- H1, <- HN in H2. lra. }
  assert (Hlow : 2 ^ (a - b - 1) <= (n # d)).
  { apply Qnot_lt_le. intros Hlt.
    assert (H1 : 2 ^ a == 2 ^ (a - b - 1) * 2 ^ (b + 1)).
    { replace a with (a - b - 1 + (b + 1))%Z at 1 by lia. apply pow2_plus. }
    pose proof (pow2_pos (a - b - 1)) as Hp.
    assert (H2 : (n # d) * inject_Z (Zpos d) < 2 ^ (a - b - 1) * 2 ^ (b + 1)).
    { apply Qle_lt_trans with (2 ^ (a - b - 1) * inject_Z (Zpos d)).
      - apply Qmult_le_compat_r; [apply Qlt_le_weak, Hlt|apply Qlt_le_weak, HD].
      - apply Qmult_lt_l; assumption. }
    rewrite <- H1, <- HN in H2. lra. }
  destruct (Qle_bool (2 ^ (a - b)) (n # d)) eqn:Ht.
  - apply Qle_bool_iff in Ht. split; assumption.
  - assert (Hlt : (n # d) < 2 ^ (a - b)).
    { apply Qnot_le_lt. intros H. apply Qle_bool_iff in H. congruence. }
    split; [exact Hlow|]. replace (a - b - 1 + 1)%Z with (a - b)%Z by lia. exact Hlt.
Qed.

Lemma ilog2_mono x y : 0 < x -> x <= y -> (ilog2 x <= ilog2 y)%Z.
Proof.
  intros Hx Hxy.
  assert (Hy : 0 < y) by lra.
  destruct (ilog2_spec x Hx) as [H1 _]. destruct (ilog2_spec y Hy) as [_ H2].
  assert (H : 2 ^ ilog2 x < 2 ^ (ilog2 y + 1)) by lra.
  apply Qpower_lt_compat_l_inv in H; [lia|]. reflexivity.
Qed.

Lemma round_positive_mono x y : 0 < x -> x <= y -> round_positive x <= round_positive y.
Proof.
  intros Hx Hxy. assert (Hy : 0 < y) by lra.
  unfold round_positive. apply Q.min_le_compat_r.
  pose proof (ilog2_mono x y Hx Hxy) as He.
  unfold last_place.
  set (ex := Z.max (ilog2 x) (-126)). set (ey := Z.max (ilog2 y) (-126)).
  destruct (Z.eq_dec ex ey) as [->|Hne]; [apply to_multiple_mono, Hxy|].
  assert (Hlt : (ex < ey)%Z) by lia.
  (* [x] lies below the power of two that ends its binade, [y] above the one
     that begins its own *)
  assert (Hxb : x <= inject_Z (2 ^ 24) * 2 ^ (ex - 23)).
  { destruct (ilog2_spec x Hx) as [_ H].
    rewrite pow2_inject, <- pow2_plus by lia.
    apply Qlt_le_weak, (Qlt_le_trans _ _ _ H). apply pow2_le. lia. }
  assert (Hyb : inject_Z (2 ^ 23) * 2 ^ (ey - 23) <= y).
  { destruct (ilog2_spec y Hy) as [H _].
    rewrite pow2_inject, <- pow2_plus by lia.
    replace (23 + (ey - 23))%Z with (ilog2 y) by lia. exact H. }
  apply (to_multiple_mono (ex - 23)) in Hxb. rewrite to_multiple_fixed in Hxb.
  apply (to_multiple_mono (ey - 23)) in Hyb. rewrite to_multiple_fixed in Hyb.
  apply (Qle_trans _ _ _ Hxb). apply (Qle_trans _ (inject_Z (2 ^ 23) * 2 ^ (ey - 23))); [|exact Hyb].
  rewrite !pow2_inject, <- !pow2_plus by lia. apply pow2_le. lia.
Qed.

Lemma round_positive_nonneg x : 0 < x -> 0 <= round_positive x.
Proof.
  intros Hx. unfold round_positive. apply Q.min_glb; [|discriminate].
  unfold to_multiple. apply Qmult_le_0_compat; [|apply Qlt_le_weak, pow2_pos].
  change 0 with (inject_Z 0). rewrite <- Zle_Qle.
  rewrite <- (round_half_even_Z 0). apply round_half_even_mono.
  apply Qlt_le_weak, Qlt_shift_div_l; [apply pow2_pos|].
  change (inject_Z 0) with 0. rewrite Qmult_0_l. exact Hx.
Qed.

(** Rounding keeps the order. *)
Theorem round_mono x y : x <= y -> round x <= round y.
Proof.
  intros Hxy. unfold round.
  destruct (0 ?= x) eqn:Cx; destruct (0 ?= y) eqn:Cy;
    compared Cx; compared Cy; try (exfalso; lra).
  - apply Qle_refl.
  - apply round_positive_nonneg, Cy.
  - apply round_positive_mono; assumption.
  - assert (H := round_positive_nonneg (- x)). lra.
  - assert (H1 := round_positive_nonneg (- x)).
    assert (H2 := round_positive_nonneg y). lra.
  - assert (H := round_positive_mono (- y) (- x)). lra.
Qed.

Lemma round_eq x y : x == y -> round x == round y.
Proof. intros H. apply Qle_antisym; apply round_mono; rewrite H; apply Qle_refl. Qed.

End Float32Facts.

(** ** Runs of the monad, step by step *)

Section Runs.

Lemma runs_intro {A} (m : M A) s :
  runs m s (outcome (m s)) (final (m s)) (trace (m s)).
Proof. unfold runs. now destruct (m s). Qed.

Lemma runs_outcome {A} (m : M A) s o s' t : runs m s o s' t -> outcome (m s) = o.
Proof. unfold runs. now intros ->. Qed.

Lemma runs_final {A} (m : M A) s o s' t : runs m s o s' t -> final (m s) = s'.
Proof. unfold runs. now intros ->. Qed.

Lemma runs_trace {A} (m : M A) s o s' t : runs m s o s' t -> trace (m s) = t.
Proof. unfold runs. now intros ->. Qed.

Lemma runs_ret {A} (a : A) s : runs (ret a) s (Ok a) s [].
Proof. reflexivity. Qed.

Lemma runs_raise {A} e s : runs (@raise A e) s (Raise e) s [].
Proof. reflexivity. Qed.

Lemma runs_lift {A} (o : Outcome A) s : runs (lift o) s o s [].
Proof. reflexivity. Qed.

Lemma runs_get s : runs get s (Ok s) s [].
Proof. reflexivity. Qed.

Lemma runs_modify f s : runs (modify f) s (Ok tt) (f s) [].
Proof. reflexivity. Qed.

Lemma runs_emit ev s : runs (emit ev) s (Ok tt) s [ev].
Proof. reflexivity. Qed.

Lemma runs_bind_ok {A B} (m : M A) (f : A -> M B) s a s1 t1 o s2 t2 :
  runs m s (Ok a) s1 t1 -> runs (f a) s1 o s2 t2 ->
  runs (bind m f) s o s2 (t1 ++ t2).
Proof. unfold runs, bind. intros -> H. simpl. now rewrite H. Qed.

Lemma runs_bind_raise {A B} (m : M A) (f : A -> M B) s e s1 t1 :
  runs m s (Raise e) s1 t1 -> runs (bind m f) s (Raise e) s1 t1.
Proof. unfold runs, bind. now intros ->. Qed.

Lemma runs_try_ok {A} (m : M A) handler s a s1 t1 :
  runs m s (Ok a) s1 t1 -> runs (try_except m handler) s (Ok a) s1 t1.
Proof. unfold runs, try_except. now intros ->. Qed.

Lemma runs_try_raise {A} (m : M A) handler s e s1 t1 o s2 t2 :
  runs m s (Raise e) s1 t1 -> runs (handler e) s1 o s2 t2 ->
  runs (try_except m handler) s o s2 (t1 ++ t2).
Proof. unfold runs, try_except. intros -> H. simpl. now rewrite H. Qed.

Lemma runs_eq {A} (m : M A) s o s' t o' s'' t' :
  runs m s o s' t -> o = o' -> s' = s'' -> t = t' -> runs m s o' s'' t'.
Proof. now intros H <- <- <-. Qed.

Lemma runs_functional {A} (m : M A) s o1 s1 t1 o2 s2 t2 :
  runs m s o1 s1 t1 -> runs m s o2 s2 t2 -> o1 = o2 /\ s1 = s2 /\ t1 = t2.
Proof. unfold runs. intros -> H. now injection H. Qed.

End Runs.

(** ** The store adapter *)

(** [Database.execute_query] passes on what the cursor raises. *)
Lemma execute_query_raises env query params e :
  cursor_execute env query (match params with Some (_ :: _) => params | _ => None end)
    = Raise e ->
  execute_query env query params = Raise e.
Proof. unfold execute_query. now intros ->. Qed.

(** ** Building the index *)

Section BuildRuns.

Context (env : Env).

Lemma runs_db_execute_query sql params s :
  runs (db_execute_query env sql params) s (execute_query env sql params) s
    [EvQuery sql params].
Proof. reflexivity. Qed.

Lemma runs_model_encode texts s :
  runs (model_encode env texts) s (encode env texts) s [EvEncode texts].
Proof. reflexivity. Qed.

(** The loop of lines 46-57 appends the rows with an identifier and their
    texts, in order. *)
Lemma collect_documents claims s :
  runs (for_each claims (fun claim =>
          if truthy (claim !! "claim_id") then append_document claim else ret tt)) s
    (Ok tt)
    {| rag_index := rag_index s;
       rag_document_metadata := rag_document_metadata s ++ valid_claims claims;
       rag_document_texts :=
         rag_document_texts s ++ (text_representation <$> valid_claims claims);
       distance_threshold := distance_threshold s |}
    [].
Proof.
  revert s. induction claims as [|claim claims IH]; intros s.
  - destruct s. unfold runs. simpl. now rewrite !app_nil_r.
  - cbn [for_each valid_claims List.filter]. fold (valid_claims claims).
    destruct (truthy (claim !! "claim_id")).
    + eapply runs_eq; [eapply runs_bind_ok; [apply runs_modify | apply IH] | ..];
        simpl; try reflexivity. now rewrite <- !app_assoc.
    + eapply runs_eq; [eapply runs_bind_ok; [apply runs_ret | apply IH] | ..];
        reflexivity.
Qed.

(** Lines 43-57 as one step: both lists cleared, then refilled. *)
Lemma refill_documents claims s (rest : M unit) o s' t :
  runs rest (refilled claims s) o s' t ->
  runs (clear_documents >>
        for_each claims (fun claim =>
          if truthy (claim !! "claim_id") then append_document claim else ret tt) >>
        rest) s o s' t.
Proof.
  intros H.
  eapply runs_eq;
    [eapply runs_bind_ok; [apply runs_modify|];
     eapply runs_bind_ok; [apply collect_documents | exact H] | ..];
    reflexivity.
Qed.

Lemma runs_query sql params s o :
  execute_query env sql params = o ->
  runs (db_execute_query env sql params) s o s [EvQuery sql params].
Proof. now intros <-. Qed.

Lemma runs_encode texts s o :
  encode env texts = o -> runs (model_encode env texts) s o s [EvEncode texts].
Proof. now intros <-. Qed.

Lemma runs_lift_eq {A} (o o' : Outcome A) s : o = o' -> runs (lift o) s o' s [].
Proof. now intros <-. Qed.

(** The store query itself fails: the handler unsets the index. *)
Lemma build_store_raises s e :
  execute_query env build_sql None = Raise e ->
  runs (_build_rag_index env) s (Ok tt) (with_index None s) [EvQuery build_sql None].
Proof.
  intros Hq. unfold _build_rag_index, set_rag_index.
  eapply runs_eq;
    [eapply runs_try_raise;
     [eapply runs_bind_raise; apply (runs_query _ _ _ _ Hq) | apply runs_modify] | ..];
    reflexivity.
Qed.

(** No rows: the early [return] of line 41, before anything is touched. *)
Lemma build_no_rows s :
  execute_query env build_sql None = Ok [] ->
  runs (_build_rag_index env) s (Ok tt) s [EvQuery build_sql None].
Proof.
  intros Hq. unfold _build_rag_index.
  eapply runs_eq;
    [eapply runs_try_ok; eapply runs_bind_ok;
     [apply (runs_query _ _ _ _ Hq) | apply runs_ret] | ..];
    reflexivity.
Qed.

(** Rows, none with an identifier: the early [return] of line 61, after
    both lists were emptied. *)
Lemma build_no_valid s claims :
  execute_query env build_sql None = Ok claims ->
  claims <> [] ->
  valid_claims claims = [] ->
  runs (_build_rag_index env) s (Ok tt) (cleared s) [EvQuery build_sql None].
Proof.
  intros Hq Hne Hv. unfold _build_rag_index.
  destruct claims as [|c cs]; [congruence|].
  eapply runs_eq;
    [eapply runs_try_ok; eapply runs_bind_ok;
     [apply (runs_query _ _ _ _ Hq)|];
     apply refill_documents; eapply runs_bind_ok; [apply runs_get|];
     unfold refilled; rewrite Hv; apply runs_ret | ..];
    reflexivity.
Qed.

(** With at least one row that has an identifier, the build reaches the
    encoder with the lists refilled; what the rest of the [try] does
    decides the outcome, and a failure there unsets the index. *)
Lemma build_reaches_encoder s claims o s' t :
  execute_query env build_sql None = Ok claims ->
  valid_claims claims <> [] ->
  runs (let* embeddings := model_encode env (text_representation <$> valid_claims claims) in
        let* dimension := lift (shape1 embeddings) in
        set_rag_index (Some (faiss.new dimension)) >> rag_index_add embeddings)
       (refilled claims s) o s' t ->
  runs (_build_rag_index env) s (Ok tt)
       (match o with Ok _ => s' | Raise _ => with_index None s' end)
       (EvQuery build_sql None :: t).
Proof.
  intros Hq Hv Hrest. unfold _build_rag_index.
  destruct claims as [|c cs]; [now contradiction Hv|].
  assert (Hbody :
    runs (let* claims := db_execute_query env build_sql None in
          match claims with
          | [] => ret tt
          | _ =>
              clear_documents >>
              for_each claims (fun claim =>
                if truthy (claim !! "claim_id") then append_document claim else ret tt) >>
              let* s := get in
              match rag_document_texts s with
              | [] => ret tt
              | _ =>
                  let* embeddings := model_encode env (rag_document_texts s) in
                  let* dimension := lift (shape1 embeddings) in
                  set_rag_index (Some (faiss.new dimension)) >>
                  rag_index_add embeddings
              end
          end) s o s' (EvQuery build_sql None :: t)).
  { destruct o as [[]|e].
    - eapply runs_eq;
        [eapply runs_bind_ok; [apply (runs_query _ _ _ _ Hq)|];
         apply refill_documents; eapply runs_bind_ok; [apply runs_get|] | ..];
        [|reflexivity..].
      cbn [refilled rag_document_texts].
      destruct (valid_claims (c :: cs)); [now contradiction Hv | exact Hrest].
    - eapply runs_eq;
        [eapply runs_bind_ok; [apply (runs_query _ _ _ _ Hq)|];
         apply refill_documents; eapply runs_bind_ok; [apply runs_get|] | ..];
        [|reflexivity..].
      cbn [refilled rag_document_texts].
      destruct (valid_claims (c :: cs)); [now contradiction Hv | exact Hrest]. }
  destruct o as [[]|e].
  - now apply runs_try_ok.
  - eapply runs_eq;
      [eapply runs_try_raise; [exact Hbody | apply runs_modify] | ..];
      try reflexivity.
    now rewrite app_nil_r.
Qed.

(** The encoder fails: the lists hold the new documents, the handler unsets
    the index. *)
Lemma build_encode_raises s claims e :
  execute_query env build_sql None = Ok claims ->
  valid_claims claims <> [] ->
  encode env (text_representation <$> valid_claims claims) = Raise e ->
  runs (_build_rag_index env) s (Ok tt) (with_index None (refilled claims s))
    [EvQuery build_sql None; EvEncode (text_representation <$> valid_claims claims)].
Proof.
  intros Hq Hv He.
  apply (build_reaches_encoder s claims (Raise e) (refilled claims s)
           [EvEncode (text_representation <$> valid_claims claims)] Hq Hv).
  eapply runs_bind_raise. apply (runs_encode _ _ _ He).
Qed.


(** Success: the index over the encoder's vectors is installed next to the
    new documents. *)
Lemma build_installs s claims embeddings dimension :
  execute_query env build_sql None = Ok claims ->
  valid_claims claims <> [] ->
  encode env (text_representation <$> valid_claims claims) = Ok embeddings ->
  shape1 embeddings = Ok dimension ->
  forallb (faiss.has_dim dimension) embeddings = true ->
  runs (_build_rag_index env) s (Ok tt)
    (with_index (Some {| faiss.d := dimension; faiss.xb := embeddings |})
                (refilled claims s))
    [EvQuery build_sql None; EvEncode (text_representation <$> valid_claims claims)].
Proof.
  intros Hq Hv He Hd Hdim.
  assert (Ha : faiss.add (faiss.new dimension) embeddings =
               Ok {| faiss.d := dimension; faiss.xb := embeddings |}).
  { unfold faiss.add, faiss.new. cbn [faiss.d faiss.xb]. now rewrite Hdim. }
  apply (build_reaches_encoder s claims (Ok tt)
           (with_index (Some {| faiss.d := dimension; faiss.xb := embeddings |})
                       (refilled claims s))
           [EvEncode (text_representation <$> valid_claims claims)] Hq Hv).
  unfold set_rag_index, rag_index_add.
  eapply runs_eq;
    [eapply runs_bind_ok; [apply (runs_encode _ _ _ He)|];
     eapply runs_bind_ok; [apply (runs_lift_eq _ _ _ Hd)|];
     eapply runs_bind_ok; [apply runs_modify|];
     eapply runs_bind_ok; [apply runs_get|];
     cbn [rag_index];
     eapply runs_bind_ok; [apply (runs_lift_eq _ _ _ Ha)|];
     apply runs_modify | ..];
    reflexivity.
Qed.

(** The build never raises: its handler catches everything and returns. *)
Lemma build_returns s : outcome (_build_rag_index env s) = Ok tt.
Proof.
  unfold _build_rag_index, try_except.
  match goal with |- context [outcome (?m s)] => destruct (outcome (m s)) as [[]|e] eqn:E end.
  - exact E.
  - reflexivity.
Qed.


End BuildRuns.

(** ** Searching the index *)

Section SearchRuns.

Context (env : Env).

Lemma getitem_head {A} (x : A) l : getitem (x :: l) 0 = Ok x.
Proof. exact (getitem_nat (x :: l) 0 x eq_refl). Qed.

(** Without an index, or with an empty metadata list, the search answers
    at once: no call to a collaborator, no change of state. *)
Lemma search_unavailable query k s :
  rag_index s = None \/ rag_document_metadata s = [] ->
  runs (_search_rag_index env query k) s (Ok fallback) s [].
Proof.
  intros H. unfold _search_rag_index.
  eapply runs_eq; [eapply runs_bind_ok; [apply runs_get|] | ..]; [|reflexivity..].
  destruct H as [-> | ->]; [|destruct (rag_index s)]; apply runs_ret.
Qed.

(** What a successful retrieval consists of. *)
Lemma nearest_inv index query k s distances indices :
  outcome (nearest env index query k s) = Ok (distances, indices) ->
  exists x,
    encode env [query] = Ok x /\
    distances = (fun q => fst <$> faiss.knn index q k) <$> x /\
    indices = (fun q => snd <$> faiss.knn index q k) <$> x /\
    runs (nearest env index query k) s (Ok (distances, indices)) s [EvEncode [query]].
Proof.
  unfold nearest, runs, bind, model_encode, bind, emit, lift. cbn.
  destruct (encode env [query]) as [x|e] eqn:He; cbn; [|discriminate].
  unfold faiss.search. destruct (forallb _ x); cbn; [|discriminate].
  intros H. injection H as <- <-. exists x.
  rewrite <- !list_fmap_compose. repeat split; reflexivity.
Qed.

Lemma nearest_raises index query k s e :
  outcome (nearest env index query k s) = Raise e ->
  runs (nearest env index query k) s (Raise e) s [EvEncode [query]].
Proof.
  unfold nearest, runs, bind, model_encode, bind, emit, lift. cbn.
  destruct (encode env [query]) as [x|e'] eqn:He; cbn.
  - destruct (faiss.search index x k); cbn; [discriminate|]. now intros [= ->].
  - now intros [= ->].
Qed.

Lemma getitem_first {A} (l : list A) x : l !! 0%nat = Some x -> getitem l 0 = Ok x.
Proof. exact (getitem_nat l 0 x). Qed.



(** ... or a best neighbour within it, and then every label is looked up
    in the metadata list. *)
Lemma gate_near ds ls best s :
  ls <> [] -> ds !! 0%nat = Some best ->
  Qle_bool (as_compared env best) (as_compared env (distance_threshold s)) = true ->
  runs (gate env [ds] [ls]) s
    (match comprehension (getitem (rag_document_metadata s)) ls with
     | Ok docs => Ok {| results := docs; fallback_needed := false |}
     | Raise e => Raise e
     end) s [].
Proof.
  intros Hls Hd Hb. destruct ls as [|l ls]; [congruence|].
  unfold gate, no_confident_match, runs, bind, lift, get, ret.
  rewrite !getitem_head. cbn -[getitem comprehension].
  rewrite (getitem_first ds best Hd). cbn -[getitem comprehension].
  rewrite Hb. cbn -[getitem comprehension].
  destruct (comprehension _ _); reflexivity.
Qed.

(** The search around a retrieval that succeeded: the gate decides, and an
    exception of the gate is turned into the fallback answer. *)
Lemma search_gated index query k s distances indices o :
  rag_index s = Some index ->
  rag_document_metadata s <> [] ->
  outcome (nearest env index query k s) = Ok (distances, indices) ->
  runs (gate env distances indices) s o s [] ->
  runs (_search_rag_index env query k) s
    (match o with Ok response => Ok response | Raise _ => Ok fallback end)
    s [EvEncode [query]].
Proof.
  intros Hi Hm Hn Hg. apply nearest_inv in Hn as (x & _ & _ & _ & Hn).
  unfold _search_rag_index.
  eapply runs_eq; [eapply runs_bind_ok; [apply runs_get|] | ..]; [|reflexivity..].
  rewrite Hi. destruct (rag_document_metadata s) as [|doc docs] eqn:Hdocs; [congruence|].
  destruct o as [response|e].
  - apply runs_try_ok.
    eapply runs_eq; [eapply runs_bind_ok; [exact Hn | exact Hg] | ..];
      reflexivity.
  - eapply runs_eq;
      [eapply runs_try_raise;
       [eapply runs_bind_ok; [exact Hn | exact Hg] | apply runs_ret] | ..];
      reflexivity.
Qed.

(** The search around a retrieval that failed. *)
Lemma search_retrieval_raises index query k s e :
  rag_index s = Some index ->
  rag_document_metadata s <> [] ->
  outcome (nearest env index query k s) = Raise e ->
  runs (_search_rag_index env query k) s (Ok fallback) s [EvEncode [query]].
Proof.
  intros Hi Hm Hn. apply nearest_raises in Hn.
  unfold _search_rag_index.
  eapply runs_eq; [eapply runs_bind_ok; [apply runs_get|] | ..]; [|reflexivity..].
  rewrite Hi. destruct (rag_document_metadata s) as [|doc docs] eqn:Hdocs; [congruence|].
  eapply runs_eq;
    [eapply runs_try_raise; [eapply runs_bind_raise; exact Hn | apply runs_ret] | ..];
    reflexivity.
Qed.

Lemma getitem_selected (metadata : list Row) (i : Z) :
  metadata <> [] ->
  (-1 <= i < Z.of_nat (length metadata))%Z ->
  getitem metadata i = Ok (selected metadata i).
Proof.
  intros Hne Hi. unfold selected.
  destruct (Z.ltb_spec i 0) as [Hneg|Hpos].
  - assert (i = (-1)%Z) as -> by lia.
    destruct (last metadata) as [doc|] eqn:Hl.
    + now apply getitem_minus_one.
    + apply last_None in Hl. congruence.
  - rewrite <- (Z2Nat.id i) at 1 by lia. apply getitem_nat.
    apply list_lookup_lookup_total_lt. lia.
Qed.

Lemma lookup_labels index q k (metadata : list Row) :
  metadata <> [] ->
  faiss.ntotal index = length metadata ->
  comprehension (getitem metadata) (snd <$> faiss.knn index q k) =
  Ok (selected metadata <$> (snd <$> faiss.knn index q k)).
Proof.
  intros Hne Hn. apply comprehension_fmap.
  eapply Forall_impl; [apply FaissFacts.knn_labels_range|].
  intros i Hi. apply getitem_selected; [exact Hne | now rewrite <- Hn].
Qed.

End SearchRuns.

(** ** The confidence gate and the fallback *)

(** C6.  In a state without an index, the search returns the empty result
    with [fallback_needed] set, whatever the query and [k]; it calls neither
    the store nor the encoder and leaves the state as it was, so it builds
    nothing. *)
Theorem search_without_snapshot env query k s :
  rag_index s = None ->
  _search_rag_index env query k s =
  {| outcome := Ok {| results := []; fallback_needed := true |};
     final := s;
     trace := [] |}.
Proof. intros H. apply (search_unavailable env query k s). now left. Qed.

Lemma search_without_snapshot_witness :
  _search_rag_index (Scenario.world [Scenario.dental]) "pending dental issues" 3 (init 1) =
  {| outcome := Ok {| results := []; fallback_needed := true |};
     final := init 1;
     trace := [] |}.
Proof. apply search_without_snapshot. reflexivity. Defined.

(** What a retrieval that returned one row of distances and one row of
    labels returned: the two halves of one result row of the index. *)
Lemma single_row env index query k s ds ls :
  outcome (nearest env index query k s) = Ok ([ds], [ls]) ->
  exists q, ds = fst <$> faiss.knn index q k /\ ls = snd <$> faiss.knn index q k.
Proof.
  intros H. apply nearest_inv in H as (x & _ & Hd & Hl & _).
  destruct x as [|q [|q' x]]; try discriminate.
  injection Hd as ->. injection Hl as ->. eauto.
Qed.

(** The comparison sees equal numbers as equal and keeps the order. *)
Lemma as_compared_mono env (x y : Q) :
  (x <= y)%Q -> (as_compared env x <= as_compared env y)%Q.
Proof.
  intros H. unfold as_compared. destruct (nep50 env); [|exact H].
  now apply Float32Facts.round_mono.
Qed.





(** The gate at the boundary: the best distance of [a_query] is 3721. *)
Example threshold_met_exactly :
  fallback_needed <$>
    (match outcome (_search_rag_index (Scenario.world Scenario.two_claims) Scenario.a_query 3
                      (Scenario.built_over Scenario.two_claims (inject_Z 3721))) with
     | Ok response => Some response
     | Raise _ => None
     end) = Some false.
Proof. vm_compute. reflexivity. Qed.

Example threshold_just_missed :
  fallback_needed <$>
    (match outcome (_search_rag_index (Scenario.world Scenario.two_claims) Scenario.a_query 3
                      (Scenario.built_over Scenario.two_claims (3721 - 1 # 1000)%Q)) with
     | Ok response => Some response
     | Raise _ => None
     end) = Some true.
Proof. vm_compute. reflexivity. Qed.

(** ** Fewer documents than requested neighbours *)

Lemma selected_position (metadata : list Row) :
  selected metadata <$> (Z.of_nat <$> seq 0 (length metadata)) = metadata.
Proof.
  rewrite <- list_fmap_compose.
  rewrite <- (lookup_total_seq metadata) at 3.
  apply list_fmap_ext. intros _ i _. unfold compose, selected.
  destruct (Z.ltb_spec (Z.of_nat i) 0); [lia|]. now rewrite Nat2Z.id.
Qed.

(** C10.  On a complete snapshot of fewer than [k] documents, a search whose
    best distance is within the threshold returns a list of exactly [k]
    rows without the fallback flag: every document of the snapshot once (in
    order of distance), followed by one copy of the last document of the
    metadata list for each missing neighbour, which the index reports with
    label [-1] and [metadata[-1]] resolves to the last row. *)
Theorem padded_results env s index query k ds ls best :
  complete s index ->
  (length (rag_document_metadata s) < k)%nat ->
  outcome (nearest env index query k s) = Ok ([ds], [ls]) ->
  ds !! 0%nat = Some best ->
  (best <= distance_threshold s)%Q ->
  exists response genuine last_document,
    outcome (_search_rag_index env query k s) = Ok response /\
    fallback_needed response = false /\
    length (results response) = k /\
    last (rag_document_metadata s) = Some last_document /\
    getitem (rag_document_metadata s) (-1) = Ok last_document /\
    genuine ≡ₚ rag_document_metadata s /\
    results response =
      genuine ++ replicate (k - length (rag_document_metadata s)) last_document /\
    ls = (take (length (rag_document_metadata s)) ls) ++
         replicate (k - length (rag_document_metadata s)) (-1)%Z.
Proof.
  intros (Hi & Hm & Hn) Hk Hnear Hbest Hle.
  destruct (single_row _ _ _ _ _ _ _ Hnear) as (q & Hds & Hls).
  assert (Hls' : ls <> []).
  { destruct (faiss.knn index q k); subst ds ls; [discriminate Hbest | discriminate]. }
  apply (as_compared_mono env) in Hle. apply Qle_bool_iff in Hle.
  pose proof (gate_near env ds ls best s Hls' Hbest Hle) as Hg.
  assert (Hlook : comprehension (getitem (rag_document_metadata s)) ls =
                  Ok (selected (rag_document_metadata s) <$> ls)).
  { rewrite Hls. now apply lookup_labels. }
  rewrite Hlook in Hg.
  destruct (last (rag_document_metadata s)) as [last_document|] eqn:Hlast;
    [|apply last_None in Hlast; congruence].
  set (sorted := faiss.sort_by_distance (faiss.scored index q)).
  assert (Hrow : ls = (snd <$> sorted) ++
                      replicate (k - length (rag_document_metadata s)) (-1)%Z).
  { rewrite Hls, FaissFacts.knn_padded by lia.
    now rewrite fmap_app, fmap_replicate, Hn. }
  assert (Hlen : length (snd <$> sorted) = length (rag_document_metadata s)).
  { rewrite length_fmap. unfold sorted. now rewrite FaissFacts.sorted_length. }
  exists {| results := selected (rag_document_metadata s) <$> ls; fallback_needed := false |},
         (selected (rag_document_metadata s) <$> (snd <$> sorted)), last_document.
  split; [|split; [|split; [|split; [|split; [|split; [|split]]]]]].
  - apply (runs_outcome _ _ _ _ _ (search_gated env _ _ _ _ _ _ _ Hi Hm Hnear Hg)).
  - reflexivity.
  - cbn [results]. rewrite length_fmap, Hls, length_fmap. apply FaissFacts.knn_length.
  - reflexivity.
  - now apply getitem_minus_one.
  - unfold sorted. rewrite FaissFacts.sorted_labels, Hn. now rewrite selected_position.
  - cbn [results]. rewrite Hrow at 1. rewrite fmap_app, fmap_replicate.
    do 2 f_equal. unfold selected. change (-1 <? 0)%Z with true. cbv iota.
    now rewrite Hlast.
  - assert (Htake : take (length (rag_document_metadata s)) ls = snd <$> sorted).
    { rewrite Hrow, <- Hlen. apply take_app_length. }
    rewrite Htake. exact Hrow.
Qed.

Lemma padded_results_witness :
  let s := Scenario.built_over Scenario.two_claims (inject_Z 3721) in
  exists response genuine last_document,
    outcome (_search_rag_index (Scenario.world Scenario.two_claims) Scenario.a_query 3 s) =
      Ok response /\
    fallback_needed response = false /\
    length (results response) = 3%nat /\
    last (rag_document_metadata s) = Some last_document /\
    getitem (rag_document_metadata s) (-1) = Ok last_document /\
    genuine ≡ₚ rag_document_metadata s /\
    results response =
      genuine ++ replicate (3 - length (rag_document_metadata s)) last_document /\
    [0; 1; -1]%Z = (take (length (rag_document_metadata s)) [0; 1; -1]%Z) ++
                   replicate (3 - length (rag_document_metadata s)) (-1)%Z.
Proof.
  apply (padded_results (Scenario.world Scenario.two_claims)
           (Scenario.built_over Scenario.two_claims (inject_Z 3721))
           Scenario.two_vectors Scenario.a_query 3
           [inject_Z 3721; inject_Z 3844; faiss.FLT_MAX] [0; 1; -1]%Z (inject_Z 3721)).
  - split; [vm_compute; reflexivity | split; [discriminate | reflexivity]].
  - vm_compute. lia.
  - vm_compute. reflexivity.
  - reflexivity.
  - vm_compute. discriminate.
Defined.

(** The duplicate reaches the caller: two documents, three results. *)
Example two_documents_three_results :
  (fun response => Scenario.show <$> results response) <$>
    (match outcome (_search_rag_index (Scenario.world Scenario.two_claims) Scenario.a_query 3
                      (Scenario.built_over Scenario.two_claims (inject_Z 3721))) with
     | Ok response => Some response
     | Raise _ => None
     end) = Some ["CLM-AB12-00001"; "CLM-AB12-00002"; "CLM-AB12-00002"].
Proof. vm_compute. reflexivity. Qed.

(** ** Building and rebuilding *)




(** C8 (as the code has it).  When the store returns no rows, or no row has
    an identifier, or the encoder raises, the build returns normally, and it
    either leaves the state exactly as it found it or leaves one on which
    every search returns the fallback answer at once.  Started without an
    index, it leaves the index unset, and every search on the resulting state
    returns the fallback answer at once. *)
Theorem failed_build env s :
  (execute_query env build_sql None = Ok [] \/
   (exists claims,
      execute_query env build_sql None = Ok claims /\ valid_claims claims = []) \/
   (exists claims e,
      execute_query env build_sql None = Ok claims /\
      encode env (text_representation <$> valid_claims claims) = Raise e)) ->
  outcome (_build_rag_index env s) = Ok tt /\
  (final (_build_rag_index env s) = s \/
   forall query k,
     _search_rag_index env query k (final (_build_rag_index env s)) =
     {| outcome := Ok {| results := []; fallback_needed := true |};
        final := final (_build_rag_index env s);
        trace := [] |}) /\
  (rag_index s = None ->
   rag_index (final (_build_rag_index env s)) = None /\
   forall query k,
     _search_rag_index env query k (final (_build_rag_index env s)) =
     {| outcome := Ok {| results := []; fallback_needed := true |};
        final := final (_build_rag_index env s);
        trace := [] |}).
Proof.
  intros Hfail.
  assert (Hcases :
    final (_build_rag_index env s) = s \/
    final (_build_rag_index env s) = cleared s \/
    rag_index (final (_build_rag_index env s)) = None).
  { destruct Hfail as [Hq | [(claims & Hq & Hv) | (claims & e & Hq & He)]].
    - left. apply (runs_final _ _ _ _ _ (build_no_rows env s Hq)).
    - destruct claims as [|c cs].
      + left. apply (runs_final _ _ _ _ _ (build_no_rows env s Hq)).
      + right. left.
        apply (runs_final _ _ _ _ _ (build_no_valid env s _ Hq ltac:(discriminate) Hv)).
    - destruct (valid_claims claims) as [|v vs] eqn:Hv.
      + destruct claims as [|c cs].
        * left. apply (runs_final _ _ _ _ _ (build_no_rows env s Hq)).
        * right. left.
          apply (runs_final _ _ _ _ _ (build_no_valid env s _ Hq ltac:(discriminate) Hv)).
      + assert (Hne : valid_claims claims <> []) by (rewrite Hv; discriminate).
        rewrite <- Hv in He. right. right.
        now rewrite (runs_final _ _ _ _ _ (build_encode_raises env s _ e Hq Hne He)). }
  split; [apply build_returns | split].
  - destruct Hcases as [H | [H | H]]; [now left | right.. ]; intros query k.
    + apply (search_unavailable env query k). right. now rewrite H.
    + apply (search_unavailable env query k). now left.
  - intros Hnone.
    assert (Hi : rag_index (final (_build_rag_index env s)) = None).
    { destruct Hcases as [H | [H | H]]; [now rewrite H | now rewrite H | exact H]. }
    split; [exact Hi|]. intros query k.
    apply (search_unavailable env query k). now left.
Qed.

Lemma failed_build_witness :
  let env := Scenario.encoder_down Scenario.two_claims in
  let s' := final (_build_rag_index env (init 1)) in
  outcome (_build_rag_index env (init 1)) = Ok tt /\
  (s' = init 1 \/
   forall query k,
     _search_rag_index env query k s' =
     {| outcome := Ok {| results := []; fallback_needed := true |};
        final := s';
        trace := [] |}) /\
  (rag_index (init 1) = None ->
   rag_index s' = None /\
   forall query k,
     _search_rag_index env query k s' =
     {| outcome := Ok {| results := []; fallback_needed := true |};
        final := s';
        trace := [] |}).
Proof.
  apply (failed_build (Scenario.encoder_down Scenario.two_claims) (init 1)).
  right. right. exists Scenario.two_claims, (Exception "model not loaded").
  split; [vm_compute; reflexivity | reflexivity].
Defined.

(** The claim of C8 read on every build attempt: a rebuild over an existing
    snapshot during which the store returns no rows returns before anything
    is touched, so the snapshot stays set and the next search answers from
    it. *)
Lemma rebuild_on_empty_store_keeps_snapshot :
  let env := Scenario.world [] in
  let s' := final (_build_rag_index env Scenario.one_claim) in
  execute_query env build_sql None = Ok [] /\
  rag_index s' = Some Scenario.one_vector /\
  (fun response => (Scenario.show <$> results response, fallback_needed response)) <$>
    (match outcome (_search_rag_index env Scenario.a_query 1 s') with
     | Ok response => Some response
     | Raise _ => None
     end) = Some (["CLM-AB12-00001"], false).
Proof. cbv zeta. split; [|split]; vm_compute; reflexivity. Qed.

(** ** The response stream *)

Section StreamRuns.

Context (env : Env).

Lemma search_emits P query k :
  (forall texts, P (EvEncode texts)) -> emits P (_search_rag_index env query k).
Proof.
  intros HP.
  unfold _search_rag_index, nearest, gate, no_confident_match, model_encode.
  emits_auto; apply emits_emit, HP.
Qed.

Lemma build_emits_only P :
  (forall texts, P (EvEncode texts)) -> (forall sql params, P (EvQuery sql params)) ->
  emits P (_build_rag_index env).
Proof.
  intros HE HQ.
  unfold _build_rag_index, db_execute_query, model_encode, set_rag_index,
    clear_documents, rag_index_add, append_document.
  emits_auto; apply emits_emit; auto.
Qed.

Lemma ensure_built_emits P :
  (forall texts, P (EvEncode texts)) -> (forall sql params, P (EvQuery sql params)) ->
  emits P (ensure_built env).
Proof.
  intros HE HQ. unfold ensure_built.
  emits_auto; apply emits_emit; auto.
Qed.

Lemma assemble_context_emits P user_message :
  (forall texts, P (EvEncode texts)) -> (forall sql params, P (EvQuery sql params)) ->
  emits P (assemble_context env user_message).
Proof.
  intros HE HQ.
  unfold assemble_context, id_lookup_context, count_context, semantic_context,
    db_execute_query.
  emits_auto; apply emits_emit; auto.
Qed.

Lemma ensure_built_returns s : outcome (ensure_built env s) = Ok tt.
Proof.
  unfold ensure_built, bind, get. cbn.
  destruct (rag_index s); cbn; [reflexivity | apply build_returns].
Qed.

(** The chunks of a stream, yielded one by one when their text is not
    empty. *)
Lemma yield_chunks chunks s :
  runs (for_each chunks (fun text => if String.eqb text "" then ret tt else yield text)) s
       (Ok tt) s (EvYield <$> non_empty chunks).
Proof.
  induction chunks as [|text chunks IH]; [reflexivity|].
  cbn [for_each non_empty List.filter]. fold (non_empty chunks).
  destruct (String.eqb text "").
  - eapply runs_eq; [eapply runs_bind_ok; [apply runs_ret | exact IH] | ..]; reflexivity.
  - eapply runs_eq; [eapply runs_bind_ok; [apply runs_emit | exact IH] | ..]; reflexivity.
Qed.

(** One generation: the call with an empty history, the chunks delivered,
    and the exception if there is one. *)
Lemma generate_run prompt s :
  generate env prompt s =
  match send_message env [] prompt with
  | CallRaises e =>
      {| outcome := Raise e; final := s; trace := [EvGenerate [] prompt] |}
  | Streams chunks failure =>
      {| outcome := match failure with Some e => Raise e | None => Ok tt end;
         final := s;
         trace := EvGenerate [] prompt :: (EvYield <$> non_empty chunks) |}
  end.
Proof.
  unfold generate. destruct (send_message env [] prompt) as [e|chunks [e|]].
  - reflexivity.
  - change (runs (emit (EvGenerate [] prompt) >>
                  for_each chunks (fun text => if String.eqb text "" then ret tt else yield text) >>
                  @raise unit e) s (Raise e) s
              (EvGenerate [] prompt :: (EvYield <$> non_empty chunks))).
    eapply runs_eq;
      [eapply runs_bind_ok; [apply runs_emit|];
       eapply runs_bind_ok; [apply yield_chunks | apply runs_raise] | ..];
      try reflexivity.
    cbn. now rewrite app_nil_r.
  - change (runs (emit (EvGenerate [] prompt) >>
                  for_each chunks (fun text => if String.eqb text "" then ret tt else yield text) >>
                  ret tt) s (Ok tt) s
              (EvGenerate [] prompt :: (EvYield <$> non_empty chunks))).
    eapply runs_eq;
      [eapply runs_bind_ok; [apply runs_emit|];
       eapply runs_bind_ok; [apply yield_chunks | apply runs_ret] | ..];
      try reflexivity.
    cbn. now rewrite app_nil_r.
Qed.

(** The whole of [stream_response] in terms of its three stages.  It
    never raises: what the stages raise ends in one more yield. *)
Lemma stream_response_run user_message cid s :
  let built := ensure_built env s in
  let assembled := assemble_context env user_message (final built) in
  stream_response env user_message cid s =
  match outcome assembled with
  | Raise e =>
      {| outcome := Ok tt; final := final assembled;
         trace := trace built ++ trace assembled ++ [EvYield (error_text e)] |}
  | Ok context =>
      let generated := generate env (make_prompt context user_message) (final assembled) in
      {| outcome := Ok tt; final := final generated;
         trace := trace built ++ trace assembled ++ trace generated ++
                  match outcome generated with
                  | Ok _ => []
                  | Raise e => [EvYield (error_text e)]
                  end |}
  end.
Proof.
  cbv zeta.
  pose proof (runs_intro (ensure_built env) s) as Hb.
  rewrite ensure_built_returns in Hb.
  pose proof (runs_intro (assemble_context env user_message)
                (final (ensure_built env s))) as Hc.
  destruct (outcome (assemble_context env user_message (final (ensure_built env s))))
    as [context|e] eqn:Hoc.
  - pose proof (runs_intro (generate env (make_prompt context user_message))
                  (final (assemble_context env user_message (final (ensure_built env s)))))
      as Hg.
    assert (Hp : runs (prepare env user_message) s (Ok (make_prompt context user_message))
                   (final (assemble_context env user_message (final (ensure_built env s))))
                   (trace (ensure_built env s) ++
                    trace (assemble_context env user_message (final (ensure_built env s))))).
    { eapply runs_eq;
        [eapply runs_bind_ok; [exact Hb|];
         eapply runs_bind_ok; [exact Hc | apply runs_ret] | ..];
        try reflexivity. now rewrite app_nil_r. }
    destruct (outcome (generate env (make_prompt context user_message) _))
      as [[]|e] eqn:Hog.
    + eapply runs_eq;
        [eapply runs_try_ok; eapply runs_bind_ok; [exact Hp | exact Hg] | ..];
        try reflexivity. now rewrite app_nil_r, <- app_assoc.
    + eapply runs_eq;
        [eapply runs_try_raise;
         [eapply runs_bind_ok; [exact Hp | exact Hg] | apply runs_emit] | ..];
        try reflexivity. now rewrite <- !app_assoc.
  - eapply runs_eq;
      [eapply runs_try_raise;
       [eapply runs_bind_raise; eapply runs_bind_ok; [exact Hb|];
        eapply runs_bind_raise; exact Hc
       | apply runs_emit] | ..];
      try reflexivity. now rewrite <- !app_assoc.
Qed.

Lemma stream_response_returns user_message cid s :
  outcome (stream_response env user_message cid s) = Ok tt.
Proof.
  rewrite stream_response_run. cbv zeta.
  now destruct (outcome (assemble_context env user_message _)).
Qed.

Lemma omap_none {A} (f : Event -> option A) (P : Event -> Prop) t :
  (forall ev, P ev -> f ev = None) -> Forall P t -> omap f t = [].
Proof.
  intros Hf. induction 1 as [|ev t Hev _ IH]; [reflexivity|].
  cbn. now rewrite (Hf ev Hev).
Qed.

Lemma retrieval_is_silent ev : is_retrieval ev -> yielded ev = None.
Proof. now destruct ev. Qed.

Lemma streaming_has_no_query ev : is_streaming ev -> query_of ev = None.
Proof. now destruct ev. Qed.

Lemma yielded_yields (texts : list string) : omap yielded (EvYield <$> texts) = texts.
Proof. induction texts as [|text texts IH]; [reflexivity|]. cbn. now rewrite IH. Qed.

Lemma yielded_generation history prompt (texts : list string) :
  omap yielded (EvGenerate history prompt :: (EvYield <$> texts)) = texts.
Proof. exact (yielded_yields texts). Qed.

Lemma ensure_built_silent s : omap yielded (trace (ensure_built env s)) = [].
Proof.
  apply (omap_none _ is_retrieval); [apply retrieval_is_silent|].
  apply ensure_built_emits; intros; exact I.
Qed.

Lemma assemble_context_silent user_message s :
  omap yielded (trace (assemble_context env user_message s)) = [].
Proof.
  apply (omap_none _ is_retrieval); [apply retrieval_is_silent|].
  apply assemble_context_emits; intros; exact I.
Qed.

(** The frames of a request whose context could not be assembled. *)
Lemma frames_when_context_raises m s e :
  outcome (assemble_context env (message m) (final (ensure_built env s))) = Raise e ->
  generate_response env m s = (Ok tt, [Chunk (error_text e); Done]).
Proof.
  intros H. unfold generate_response.
  rewrite stream_response_run. cbv zeta. rewrite H. cbn [outcome trace].
  now rewrite !omap_app, ensure_built_silent, assemble_context_silent.
Qed.

(** [prepare] is the first two stages and the prompt template. *)
Lemma prepare_inv user_message s prompt :
  outcome (prepare env user_message s) = Ok prompt ->
  exists context,
    outcome (assemble_context env user_message (final (ensure_built env s))) = Ok context /\
    prompt = make_prompt context user_message.
Proof.
  unfold prepare, bind.
  rewrite ensure_built_returns. cbn.
  destruct (outcome (assemble_context env user_message _)) as [context|e]; cbn;
    [|discriminate].
  intros [= <-]. eauto.
Qed.

End StreamRuns.

(** C2 (as the code has it).  When the store query of an identifier lookup
    or of a count raises, [stream_response] does not raise: its handler turns
    the exception into one yielded text, so the caller receives exactly one
    error frame followed by the done frame, and the generative model is not
    called. *)
Theorem store_failure_in_band env m s e :
  (exists claim_id,
     classify (message m) = IdLookup claim_id /\
     execute_query env lookup_sql (Some [VStr claim_id]) = Raise e) \/
  (classify (message m) = CountQuery /\
   execute_query env count_sql None = Raise e) ->
  outcome (stream_response env (message m) (conversation_id m) s) = Ok tt /\
  generate_response env m s = (Ok tt, [Chunk (error_text e); Done]) /\
  Forall (fun ev => ~ is_generate ev)
         (trace (stream_response env (message m) (conversation_id m) s)).
Proof.
  intros Hfail.
  assert (Hraise : outcome (assemble_context env (message m) (final (ensure_built env s)))
                   = Raise e).
  { unfold assemble_context.
    destruct Hfail as [(claim_id & -> & Hq) | [-> Hq]].
    - unfold id_lookup_context.
      apply (runs_outcome _ _ _ (final (ensure_built env s))
               [EvQuery lookup_sql (Some [VStr claim_id])]).
      eapply runs_bind_raise. apply (runs_query _ _ _ _ _ Hq).
    - unfold count_context.
      apply (runs_outcome _ _ _ (final (ensure_built env s)) [EvQuery count_sql None]).
      eapply runs_bind_raise. apply (runs_query _ _ _ _ _ Hq). }
  split; [apply stream_response_returns | split].
  - now apply frames_when_context_raises.
  - rewrite stream_response_run. cbv zeta. rewrite Hraise. cbn [trace].
    apply Forall_app. split; [|apply Forall_app; split].
    + apply ensure_built_emits; intros; simpl; tauto.
    + apply assemble_context_emits; intros; simpl; tauto.
    + repeat constructor. simpl. tauto.
Qed.

Lemma store_failure_in_band_witness :
  let env := Scenario.store_down Scenario.two_claims in
  let m := Scenario.a_message "how many claims are there" None in
  outcome (stream_response env (message m) (conversation_id m) (init 1)) = Ok tt /\
  generate_response env m (init 1) =
    (Ok tt, [Chunk (error_text (Exception "connection lost")); Done]) /\
  Forall (fun ev => ~ is_generate ev)
         (trace (stream_response env (message m) (conversation_id m) (init 1))).
Proof.
  apply (store_failure_in_band (Scenario.store_down Scenario.two_claims)
           (Scenario.a_message "how many claims are there" None) (init 1)
           (Exception "connection lost")).
  right. split; reflexivity.
Defined.

(** The claim of C2 at a concrete request: the point query of an identifier
    lookup raises, and the request still ends normally, with the exception
    text inside a chunk frame. *)
Lemma store_failure_is_not_propagated :
  let env := Scenario.store_down Scenario.two_claims in
  let m := Scenario.a_message "status of clm-ab12-00001" None in
  classify (message m) = IdLookup "CLM-AB12-00001" /\
  execute_query env lookup_sql (Some [VStr "CLM-AB12-00001"]) =
    Raise (Exception "connection lost") /\
  (forall e, outcome (stream_response env (message m) (conversation_id m) (init 1))
             <> Raise e) /\
  generate_response env m (init 1) =
    (Ok tt, [Chunk "⚠️ Error processing your request: connection lost"; Done]).
Proof.
  cbv zeta. split; [reflexivity | split; [reflexivity | split]].
  - intros e. rewrite stream_response_returns. discriminate.
  - vm_compute. reflexivity.
Qed.

(** C5.  When the generative model raises, at the call or while its stream
    is read, [stream_response] does not raise: the caller receives the chunks
    delivered before the failure, then exactly one frame with the marked
    error text, the warning sign and "Error processing your request: "
    before the text of the exception, then the done frame.  When the call
    itself raises nothing was delivered, and the stream is the error frame
    followed by the done frame. *)
Theorem generation_failure_stream env m s prompt delivered e :
  outcome (prepare env (message m) s) = Ok prompt ->
  generation_fails (send_message env [] prompt) delivered e ->
  outcome (stream_response env (message m) (conversation_id m) s) = Ok tt /\
  generate_response env m s =
    (Ok tt,
     (Chunk <$> non_empty delivered) ++
     [Chunk ("⚠️ Error processing your request: " +:+ str_exn e); Done]) /\
  (forall e', send_message env [] prompt = CallRaises e' ->
     generate_response env m s =
       (Ok tt, [Chunk ("⚠️ Error processing your request: " +:+ str_exn e); Done])).
Proof.
  intros Hp Hfail.
  apply prepare_inv in Hp as (context & Hc & ->).
  assert (Hframes : generate_response env m s =
            (Ok tt, (Chunk <$> non_empty delivered) ++ [Chunk (error_text e); Done])).
  { unfold generate_response. rewrite stream_response_run. cbv zeta.
    rewrite Hc. cbv zeta. rewrite generate_run. cbn [outcome].
    destruct (send_message env [] (make_prompt context (message m)))
      as [e'|chunks [e'|]]; cbn in Hfail; [| |contradiction];
      destruct Hfail as [-> ->]; cbn [outcome trace];
      rewrite !omap_app, ensure_built_silent, assemble_context_silent.
    - reflexivity.
    - rewrite yielded_generation. cbn. now rewrite fmap_app, <- app_assoc. }
  split; [apply stream_response_returns | split; [exact Hframes|]].
  intros e' He'. rewrite Hframes. rewrite He' in Hfail. destruct Hfail as [-> _].
  reflexivity.
Qed.

Lemma generation_failure_stream_witness :
  let env := Scenario.model_down Scenario.two_claims in
  let m := Scenario.a_message "how many claims are there" None in
  outcome (stream_response env (message m) (conversation_id m) (init 1)) = Ok tt /\
  generate_response env m (init 1) =
    (Ok tt,
     (Chunk <$> non_empty []) ++
     [Chunk "⚠️ Error processing your request: quota exceeded"; Done]) /\
  (forall e', send_message env []
                (make_prompt "The total number of claims in the database is 2."
                             "how many claims are there") = CallRaises e' ->
     generate_response env m (init 1) =
       (Ok tt, [Chunk "⚠️ Error processing your request: quota exceeded"; Done])).
Proof.
  apply (generation_failure_stream (Scenario.model_down Scenario.two_claims)
           (Scenario.a_message "how many claims are there" None) (init 1)
           (make_prompt "The total number of claims in the database is 2."
                        "how many claims are there")
           [] (Exception "quota exceeded")).
  - vm_compute. reflexivity.
  - split; reflexivity.
Defined.

(** A failure while the stream is read: the text delivered so far, the
    error frame, the done frame. *)
Example generation_cut_off :
  generate_response (Scenario.model_cut_off Scenario.two_claims)
    (Scenario.a_message "how many claims are there" None) (init 1) =
  (Ok tt, [Chunk "There are "; Chunk "⚠️ Error processing your request: stream reset"; Done]).
Proof. vm_compute. reflexivity. Qed.

(** C9.  The conversation identifier has no influence: two calls that differ
    only in it (present or absent) run identically, with the same outcome,
    final state, store queries, prompt and yields, hence the same frames at
    the endpoint; and whatever state the service is in, also after earlier
    calls, every generation it starts is given the empty history. *)
Theorem conversation_id_unused env user_message cid1 cid2 s :
  stream_response env user_message cid1 s = stream_response env user_message cid2 s /\
  generate_response env {| message := user_message; conversation_id := cid1 |} s =
  generate_response env {| message := user_message; conversation_id := cid2 |} s /\
  Forall fresh_session (trace (stream_response env user_message cid1 s)).
Proof.
  split; [reflexivity | split; [reflexivity|]].
  revert s. change (emits fresh_session (stream_response env user_message cid1)).
  unfold stream_response, respond, prepare, yield.
  apply emits_try_except; [|intros; now apply emits_emit].
  apply emits_bind.
  - apply emits_bind; [apply ensure_built_emits; intros; exact I|].
    intros _. apply emits_bind; [apply assemble_context_emits; intros; exact I|].
    intros context. apply emits_ret.
  - intros prompt. unfold generate, yield. emits_auto.
Qed.

Example same_frames_with_and_without_identifier :
  generate_response (Scenario.world Scenario.two_claims)
    (Scenario.a_message "how many claims are there" (Some "conversation-1")) (init 1) =
  generate_response (Scenario.world Scenario.two_claims)
    (Scenario.a_message "how many claims are there" None) (init 1).
Proof. vm_compute. reflexivity. Qed.

(** ** The count path *)

Lemma count_context_queries env s :
  trace (count_context env s) = [EvQuery count_sql None].
Proof.
  unfold count_context, bind, db_execute_query, bind, emit, lift. cbn.
  destruct (execute_query env count_sql None) as [[|row rest]|e]; cbn;
    try destruct (row !! "total"); reflexivity.
Qed.

Lemma count_context_renders env s row rest n :
  execute_query env count_sql None = Ok (row :: rest) ->
  row !! "total" = Some (VInt n) ->
  outcome (count_context env s) =
  Ok ("The total number of claims in the database is " +:+ pretty n +:+ ".").
Proof.
  intros Hq Ht.
  unfold count_context, bind, db_execute_query, bind, emit, lift. cbn.
  rewrite Hq. cbn. rewrite Ht. reflexivity.
Qed.

Lemma generate_has_no_query env prompt s :
  omap query_of (trace (generate env prompt s)) = [].
Proof.
  apply (omap_none _ is_streaming); [apply streaming_has_no_query|].
  revert s. change (emits is_streaming (generate env prompt)).
  unfold generate, yield. emits_auto.
Qed.

(** A text in whose lowered form the search finds nothing: the lowered form
    has no substring that the identifier pattern matches. *)
Lemma no_identifier text :
  Text.re_search_claim_id (Text.lower text) = None ->
  forall lpre lm lpost, Text.lower text = lpre +:+ lm +:+ lpost -> ~ Text.id_pattern lm.
Proof.
  intros Hs lpre lm lpost Hlow Hp.
  destruct (TextFacts.re_search_spec lpre _ lpost Hp) as (pre' & m' & post' & Hsome & _).
  rewrite <- Hlow in Hsome. congruence.
Qed.

(** C4.  A text whose lowered form contains one of the count keywords and no
    match of the identifier pattern is routed to the count path.  That path
    sends the store the one statement [SELECT COUNT( * ) as total FROM claims]
    without parameters, whatever else the text says, and it is the only query
    of the request besides those of the lazy build; with a store that answers
    [n] the context is exactly "The total number of claims in the database is
    n.". *)
Theorem count_query_unconditional env text s keyword pre post :
  keyword ∈ ["how many"; "count"; "total number"] ->
  Text.lower text = pre +:+ keyword +:+ post ->
  (forall lpre lm lpost, Text.lower text = lpre +:+ lm +:+ lpost -> ~ Text.id_pattern lm) ->
  classify text = CountQuery /\
  assemble_context env text = count_context env /\
  omap query_of (trace (assemble_context env text s)) =
    [("SELECT COUNT(*) as total FROM claims", None)] /\
  (forall cid,
     omap query_of (trace (stream_response env text cid s)) =
     omap query_of (trace (ensure_built env s)) ++
     [("SELECT COUNT(*) as total FROM claims", None)]) /\
  (forall row rest n,
     execute_query env "SELECT COUNT(*) as total FROM claims" None = Ok (row :: rest) ->
     row !! "total" = Some (VInt n) ->
     outcome (assemble_context env text s) =
     Ok ("The total number of claims in the database is " +:+ pretty n +:+ ".")).
Proof.
  intros Hkw Hlow Hnoid.
  assert (Hsearch : Text.re_search_claim_id (Text.lower text) = None).
  { destruct (Text.re_search_claim_id (Text.lower text)) as [lm|] eqn:E; [|reflexivity].
    exfalso. apply TextFacts.re_search_sound in E as (lpre & lpost & Hs & Hp).
    exact (Hnoid lpre lm lpost Hs Hp). }
  assert (Hc : classify text = CountQuery).
  { unfold classify. rewrite Hsearch.
    assert (Hex : existsb (fun kw => Text.contains kw (Text.lower text)) count_keywords = true).
    { apply existsb_exists. exists keyword. split.
      - now apply list_elem_of_In.
      - rewrite Hlow. apply TextFacts.contains_complete. }
    now rewrite Hex. }
  assert (Ha : assemble_context env text = count_context env).
  { unfold assemble_context. now rewrite Hc. }
  split; [exact Hc | split; [exact Ha | split; [|split]]].
  - rewrite Ha, count_context_queries. reflexivity.
  - intros cid. rewrite stream_response_run. cbv zeta.
    rewrite Ha.
    destruct (outcome (count_context env (final (ensure_built env s)))) as [context|e];
      cbn [trace]; rewrite !omap_app, count_context_queries, ?generate_has_no_query;
      [destruct (outcome (generate env _ _))|]; reflexivity.
  - intros row rest n Hq Ht. rewrite Ha. now apply (count_context_renders env s row rest n).
Qed.

(** The two end-to-end scenarios of the structured paths: an identifier with
    no row in the store, and a count over a store of 42 rows. *)
Example context_of_unknown_identifier :
  outcome (assemble_context (Scenario.world Scenario.two_claims) "CLM-AB12-99999" (init 1)) =
  Ok "I could not find any data for the claim ID CLM-AB12-99999.".
Proof. vm_compute. reflexivity. Qed.

Example context_of_count_over_42_rows :
  outcome (assemble_context (Scenario.world (replicate 42 Scenario.dental))
             "how many claims are there" (init 1)) =
  Ok "The total number of claims in the database is 42.".
Proof. vm_compute. reflexivity. Qed.

Lemma count_query_unconditional_witness :
  let env := Scenario.world Scenario.two_claims in
  let text := "How many PENDING dental claims are there" in
  classify text = CountQuery /\
  assemble_context env text = count_context env /\
  omap query_of (trace (assemble_context env text (init 1))) =
    [("SELECT COUNT(*) as total FROM claims", None)] /\
  (forall cid,
     omap query_of (trace (stream_response env text cid (init 1))) =
     omap query_of (trace (ensure_built env (init 1))) ++
     [("SELECT COUNT(*) as total FROM claims", None)]) /\
  (forall row rest n,
     execute_query env "SELECT COUNT(*) as total FROM claims" None = Ok (row :: rest) ->
     row !! "total" = Some (VInt n) ->
     outcome (assemble_context env text (init 1)) =
     Ok ("The total number of claims in the database is " +:+ pretty n +:+ ".")).
Proof.
  apply (count_query_unconditional (Scenario.world Scenario.two_claims)
           "How many PENDING dental claims are there" (init 1)
           "how many" "" " pending dental claims are there").
  - apply list_elem_of_here.
  - reflexivity.
  - apply no_identifier. reflexivity.
Defined.

(** * Further properties *)

(** ** Methods that leave the state alone *)

Lemma keeps_ret {A} (a : A) : keeps_state (ret a).
Proof. intros s. reflexivity. Qed.

Lemma keeps_raise {A} e : keeps_state (@raise A e).
Proof. intros s. reflexivity. Qed.

Lemma keeps_lift {A} (o : Outcome A) : keeps_state (lift o).
Proof. intros s. reflexivity. Qed.

Lemma keeps_get : keeps_state get.
Proof. intros s. reflexivity. Qed.

Lemma keeps_emit ev : keeps_state (emit ev).
Proof. intros s. reflexivity. Qed.

Lemma keeps_bind {A B} (m : M A) (f : A -> M B) :
  keeps_state m -> (forall a, keeps_state (f a)) -> keeps_state (bind m f).
Proof.
  intros Hm Hf s. unfold bind. specialize (Hm s).
  destruct (outcome (m s)); simpl; [|exact Hm].
  rewrite Hf. exact Hm.
Qed.

Lemma keeps_try_except {A} (m : M A) handler :
  keeps_state m -> (forall e, keeps_state (handler e)) -> keeps_state (try_except m handler).
Proof.
  intros Hm Hh s. unfold try_except. specialize (Hm s).
  destruct (outcome (m s)); simpl; [exact Hm|].
  rewrite Hh. exact Hm.
Qed.

Lemma keeps_for_each {A} (l : list A) body :
  (forall x, keeps_state (body x)) -> keeps_state (for_each l body).
Proof.
  intros Hb. induction l as [|x l IH]; simpl.
  - apply keeps_ret.
  - apply keeps_bind; auto.
Qed.

Ltac keeps_auto :=
  repeat first
    [ apply keeps_ret | apply keeps_raise | apply keeps_lift | apply keeps_get
    | apply keeps_emit | apply keeps_for_each; intros
    | apply keeps_try_except; [|intros] | apply keeps_bind; [|intros]
    | match goal with
      | |- keeps_state (match ?x with _ => _ end) => destruct x
      end ].

Lemma search_keeps_state env query k : keeps_state (_search_rag_index env query k).
Proof.
  unfold _search_rag_index, nearest, gate, no_confident_match, model_encode.
  keeps_auto.
Qed.

Lemma assemble_context_keeps_state env user_message :
  keeps_state (assemble_context env user_message).
Proof.
  unfold assemble_context, id_lookup_context, count_context, semantic_context,
    db_execute_query.
  keeps_auto.
Qed.

Lemma generate_keeps_state env prompt : keeps_state (generate env prompt).
Proof. unfold generate, yield. keeps_auto. Qed.

(** The state after a request is the state after its lazy build. *)
Lemma stream_response_final env user_message cid s :
  final (stream_response env user_message cid s) = final (ensure_built env s).
Proof.
  rewrite stream_response_run. cbv zeta.
  destruct (outcome (assemble_context env user_message (final (ensure_built env s)))).
  - cbn [final]. now rewrite generate_keeps_state, assemble_context_keeps_state.
  - cbn [final]. now rewrite assemble_context_keeps_state.
Qed.

(** ** The response stream, whatever happens *)

(** X1.  Every request ends normally at the endpoint: whatever the message,
    the state of the service and the behaviour of the store, the encoder and
    the model, the frames are chunk frames followed by exactly one done
    frame, and no exception leaves the generator. *)
Theorem response_always_ends_with_done env m s :
  exists texts, generate_response env m s = (Ok tt, (Chunk <$> texts) ++ [Done]).
Proof. unfold generate_response. rewrite stream_response_returns. eauto. Qed.

(** X2.  When the prompt could be prepared and the model streams its chunks
    to the end, the caller receives the chunks with a non-empty text, in the
    order the model produced them, followed by the done frame; chunks with an
    empty text produce no frame. *)
Theorem successful_generation_stream env m s prompt chunks :
  outcome (prepare env (message m) s) = Ok prompt ->
  send_message env [] prompt = Streams chunks None ->
  generate_response env m s = (Ok tt, (Chunk <$> non_empty chunks) ++ [Done]).
Proof.
  intros Hp Hs. apply prepare_inv in Hp as (context & Hc & ->).
  unfold generate_response. rewrite stream_response_run. cbv zeta.
  rewrite Hc. cbv zeta. rewrite generate_run, Hs. cbn [outcome trace].
  rewrite !omap_app, ensure_built_silent, assemble_context_silent, yielded_generation.
  cbn. now rewrite app_nil_r.
Qed.

Lemma successful_generation_stream_witness :
  generate_response (Scenario.world Scenario.two_claims)
    (Scenario.a_message "how many claims are there" None) (init 1) =
  (Ok tt, (Chunk <$> non_empty ["There are "; ""; "two claims."]) ++ [Done]).
Proof.
  apply (successful_generation_stream (Scenario.world Scenario.two_claims)
           (Scenario.a_message "how many claims are there" None) (init 1)
           (make_prompt "The total number of claims in the database is 2."
                        "how many claims are there")).
  - vm_compute. reflexivity.
  - reflexivity.
Defined.

(** ** The search, in every state *)

Lemma gate_is_pure env distances indices s :
  runs (gate env distances indices) s (outcome (gate env distances indices s)) s [].
Proof.
  eapply runs_eq; [apply runs_intro | reflexivity | |].
  - revert s. change (keeps_state (gate env distances indices)).
    unfold gate, no_confident_match. keeps_auto.
  - assert (H : Forall (fun _ => False) (trace (gate env distances indices s))).
    { revert s. change (emits (fun _ => False) (gate env distances indices)).
      unfold gate, no_confident_match. emits_auto. }
    destruct (trace (gate env distances indices s)); [reflexivity|].
    now inversion H.
Qed.

Lemma getitem_elem {A} (l : list A) i x : getitem l i = Ok x -> x ∈ l.
Proof.
  unfold getitem. destruct (_ && _)%bool; [|discriminate].
  destruct (l !! _) eqn:E; [|discriminate].
  intros [= <-]. eapply list_elem_of_lookup_2. exact E.
Qed.

Lemma comprehension_elems {A} (l : list A) (labels : list Z) xs :
  comprehension (getitem l) labels = Ok xs -> Forall (fun x => x ∈ l) xs.
Proof.
  revert xs. induction labels as [|i labels IH]; simpl; intros xs H.
  - injection H as <-. constructor.
  - destruct (getitem l i) eqn:E; [|discriminate].
    destruct (comprehension (getitem l) labels); [|discriminate].
    injection H as <-. constructor; [now apply getitem_elem in E | now apply IH].
Qed.

(** What the gate answers when it answers: the fallback, or rows of the
    metadata list, at least one, without the flag. *)
Lemma gate_answers env distances indices s response :
  outcome (gate env distances indices s) = Ok response ->
  response = fallback \/
  (fallback_needed response = false /\
   results response <> [] /\
   Forall (fun row => row ∈ rag_document_metadata s) (results response)).
Proof.
  unfold gate, no_confident_match, bind, lift, get, ret.
  cbn -[getitem comprehension].
  destruct (getitem indices 0) as [indices0|e]; cbn -[getitem comprehension];
    [|discriminate].
  destruct indices0 as [|i0 rest]; cbn -[getitem comprehension].
  { intros [= <-]. now left. }
  destruct (getitem distances 0) as [distances0|e]; cbn -[getitem comprehension];
    [|discriminate].
  destruct (getitem distances0 0) as [best|e]; cbn -[getitem comprehension];
    [|discriminate].
  destruct (Qle_bool _ _); cbn -[getitem comprehension].
  - destruct (comprehension (getitem (rag_document_metadata s)) (i0 :: rest))
      as [docs|e] eqn:Hc; cbn; [|discriminate].
    intros [= <-]. right. cbn. split; [reflexivity|]. split.
    + apply comprehension_length in Hc. destruct docs; [discriminate Hc | discriminate].
    + now apply comprehension_elems in Hc.
  - intros [= <-]. now left.
Qed.

(** X3.  A search never raises, never changes the service, and never
    touches the store: its only call to a collaborator is at most one
    encoding of the query. *)
Theorem search_is_read_only env query k s :
  exists response,
    outcome (_search_rag_index env query k s) = Ok response /\
    final (_search_rag_index env query k s) = s /\
    (trace (_search_rag_index env query k s) = [] \/
     trace (_search_rag_index env query k s) = [EvEncode [query]]).
Proof.
  destruct (rag_index s) as [index|] eqn:Hi.
  2: { exists fallback.
       rewrite (search_unavailable env query k s (or_introl Hi)). cbn. auto. }
  destruct (rag_document_metadata s) as [|doc docs] eqn:Hm.
  { exists fallback.
    rewrite (search_unavailable env query k s (or_intror Hm)). cbn. auto. }
  assert (Hne : rag_document_metadata s <> []) by (rewrite Hm; discriminate).
  destruct (outcome (nearest env index query k s)) as [[distances indices]|e] eqn:Hn.
  - pose proof (search_gated env _ _ _ _ _ _ _ Hi Hne Hn (gate_is_pure env distances indices s))
      as Hrun.
    rewrite Hrun. cbn.
    destruct (outcome (gate env distances indices s)); eauto.
  - rewrite (search_retrieval_raises env _ _ _ _ _ Hi Hne Hn). cbn. eauto.
Qed.

(** X4.  Whatever a search returns was stored: every row of the result is a
    row of the metadata list of the service, and the result is empty exactly
    when the fallback flag is set. *)
Theorem search_returns_stored_rows env query k s :
  exists response,
    outcome (_search_rag_index env query k s) = Ok response /\
    Forall (fun row => row ∈ rag_document_metadata s) (results response) /\
    (fallback_needed response = true <-> results response = []).
Proof.
  assert (Hfb : Forall (fun row => row ∈ rag_document_metadata s) (results fallback) /\
                (fallback_needed fallback = true <-> results fallback = [])).
  { split; [constructor | split; reflexivity]. }
  destruct (rag_index s) as [index|] eqn:Hi.
  2: { exists fallback.
       now rewrite (search_unavailable env query k s (or_introl Hi)). }
  destruct (rag_document_metadata s) as [|doc docs] eqn:Hm.
  { exists fallback.
    rewrite (search_unavailable env query k s (or_intror Hm)). cbn.
    split; [reflexivity | split; [constructor | split; reflexivity]]. }
  assert (Hne : rag_document_metadata s <> []) by (rewrite Hm; discriminate).
  rewrite <- Hm in *.
  destruct (outcome (nearest env index query k s)) as [[distances indices]|e] eqn:Hn.
  - pose proof (search_gated env _ _ _ _ _ _ _ Hi Hne Hn (gate_is_pure env distances indices s))
      as Hrun.
    rewrite Hrun. cbn [outcome].
    destruct (outcome (gate env distances indices s)) as [response|e] eqn:Hg;
      [|exists fallback; now split].
    exists response. split; [reflexivity|].
    destruct (gate_answers _ _ _ _ _ Hg) as [-> | (Hf & Hr & Hall)]; [exact Hfb|].
    split; [exact Hall|]. rewrite Hf. split; [discriminate | congruence].
  - rewrite (search_retrieval_raises env _ _ _ _ _ Hi Hne Hn). cbn [outcome].
    exists fallback. now split.
Qed.

(** ** What a build does to the lists, and what a request does to the service *)

Lemma valid_claims_identified claims :
  Forall (fun claim => truthy (claim !! "claim_id") = true) (valid_claims claims).
Proof.
  apply Forall_forall. intros claim Hin. apply list_elem_of_In in Hin.
  now apply filter_In in Hin as [_ ?].
Qed.

(** Every way a build can end, with what it leaves in every field and the
    query it starts with. *)
Lemma build_in_full env s :
  exists s' rest,
    runs (_build_rag_index env) s (Ok tt) s' (EvQuery build_sql None :: rest) /\
    distance_threshold s' = distance_threshold s /\
    ((rag_document_metadata s' = rag_document_metadata s /\
      rag_document_texts s' = rag_document_texts s) \/
     exists claims,
       rag_document_metadata s' = valid_claims claims /\
       rag_document_texts s' = text_representation <$> valid_claims claims) /\
    (rag_index s' = rag_index s \/
     rag_index s' = None \/
     exists claims,
       execute_query env build_sql None = Ok claims /\ new_snapshot env claims s').
Proof.
  destruct (execute_query env build_sql None) as [claims|e] eqn:Hq.
  2: { eexists _, _. split; [apply (build_store_raises env s e Hq)|]. cbn. auto 6. }
  destruct claims as [|c cs].
  { eexists _, _. split; [apply (build_no_rows env s Hq)|]. auto 6. }
  destruct (valid_claims (c :: cs)) as [|v vs] eqn:Hv.
  { eexists _, _.
    split; [apply (build_no_valid env s _ Hq); [discriminate | exact Hv]|].
    cbn. split; [reflexivity|]. split; [|now left].
    right. exists []. split; reflexivity. }
  assert (Hne : valid_claims (c :: cs) <> []) by (rewrite Hv; discriminate).
  assert (Hlists : forall index,
    exists claims,
      rag_document_metadata (with_index index (refilled (c :: cs) s)) = valid_claims claims /\
      rag_document_texts (with_index index (refilled (c :: cs) s)) =
        text_representation <$> valid_claims claims).
  { intros index. exists (c :: cs). split; reflexivity. }
  destruct (encode env (text_representation <$> valid_claims (c :: cs)))
    as [embeddings|e] eqn:He.
  2: { eexists _, _. split; [apply (build_encode_raises env s _ e Hq Hne He)|].
       split; [reflexivity|]. split; [right; apply Hlists | right; now left]. }
  assert (Hfails : forall e,
    shape1 embeddings = Raise e \/
    (exists dimension, shape1 embeddings = Ok dimension /\
                       faiss.add (faiss.new dimension) embeddings = Raise e) ->
    exists s' rest,
      runs (_build_rag_index env) s (Ok tt) s' (EvQuery build_sql None :: rest) /\
      distance_threshold s' = distance_threshold s /\
      ((rag_document_metadata s' = rag_document_metadata s /\
        rag_document_texts s' = rag_document_texts s) \/
       exists claims,
         rag_document_metadata s' = valid_claims claims /\
         rag_document_texts s' = text_representation <$> valid_claims claims) /\
      (rag_index s' = rag_index s \/
       rag_index s' = None \/
       exists claims, Ok (c :: cs) = Ok claims /\ new_snapshot env claims s')).
  { intros e Hfail.
    exists (with_index None (refilled (c :: cs) s)),
           [EvEncode (text_representation <$> valid_claims (c :: cs))].
    split; [|split; [reflexivity | split; [right; apply Hlists | right; now left]]].
    destruct Hfail as [Hd | (dimension & Hd & Ha)].
    - apply (build_reaches_encoder env s (c :: cs) (Raise e) (refilled (c :: cs) s)
               [EvEncode (text_representation <$> valid_claims (c :: cs))] Hq Hne).
      eapply runs_eq;
        [eapply runs_bind_ok; [apply (runs_encode _ _ _ _ He)|];
         eapply runs_bind_raise; apply (runs_lift_eq _ _ _ Hd) | ..];
        reflexivity.
    - apply (build_reaches_encoder env s (c :: cs) (Raise e)
               (with_index (Some (faiss.new dimension)) (refilled (c :: cs) s))
               [EvEncode (text_representation <$> valid_claims (c :: cs))] Hq Hne).
      unfold set_rag_index, rag_index_add.
      eapply runs_eq;
        [eapply runs_bind_ok; [apply (runs_encode _ _ _ _ He)|];
         eapply runs_bind_ok; [apply (runs_lift_eq _ _ _ Hd)|];
         eapply runs_bind_ok; [apply runs_modify|];
         eapply runs_bind_ok; [apply runs_get|];
         cbn [rag_index];
         eapply runs_bind_raise; apply (runs_lift_eq _ _ _ Ha) | ..];
        reflexivity. }
  destruct (shape1 embeddings) as [dimension|e] eqn:Hd.
  2: { apply (Hfails e). now left. }
  destruct (forallb (faiss.has_dim dimension) embeddings) eqn:Hdim.
  - eexists _, _. split; [apply (build_installs env s _ _ _ Hq Hne He Hd Hdim)|].
    split; [reflexivity|]. split; [right; apply Hlists|].
    right. right. exists (c :: cs). split; [reflexivity|].
    exists embeddings, dimension. repeat split; auto.
  - apply (Hfails AssertionError). right. exists dimension. split; [reflexivity|].
    unfold faiss.add, faiss.new. cbn [faiss.d faiss.xb]. now rewrite Hdim.
Qed.

Lemma ensure_built_with_index env s index :
  rag_index s = Some index ->
  runs (ensure_built env) s (Ok tt) s [].
Proof.
  intros Hi. unfold ensure_built.
  eapply runs_eq; [eapply runs_bind_ok; [apply runs_get|] | ..]; [|reflexivity..].
  rewrite Hi. apply runs_ret.
Qed.

Lemma ensure_built_without_index env s :
  rag_index s = None -> ensure_built env s = _build_rag_index env s.
Proof.
  intros Hi. unfold ensure_built, bind, get. cbn. rewrite Hi.
  now destruct (_build_rag_index env s).
Qed.

(** One request keeps the invariants of the service. *)
Lemma request_keeps_invariants env s user_message cid :
  documents_consistent s ->
  index_consistent env s ->
  documents_consistent (final (stream_response env user_message cid s)) /\
  index_consistent env (final (stream_response env user_message cid s)) /\
  distance_threshold (final (stream_response env user_message cid s)) =
    distance_threshold s.
Proof.
  intros Hdocs Hindex. rewrite stream_response_final.
  destruct (rag_index s) as [index|] eqn:Hi.
  { rewrite (runs_final _ _ _ _ _ (ensure_built_with_index env s index Hi)). auto. }
  rewrite (ensure_built_without_index env s Hi).
  destruct (build_in_full env s) as (s' & rest & Hrun & Hthr & Hlists & Hidx).
  rewrite (runs_final _ _ _ _ _ Hrun).
  split; [|split; [|exact Hthr]].
  - destruct Hlists as [[Hm Ht] | (claims & Hm & Ht)].
    + destruct Hdocs as [Htexts Hids]. split; [now rewrite Ht, Hm | now rewrite Hm].
    + split; [now rewrite Ht, Hm | rewrite Hm; apply valid_claims_identified].
  - intros index Hsome.
    destruct Hidx as [H | [H | (claims & _ & embeddings & dimension & He & Hne & Hi' & Hm & Ht)]];
      [congruence | congruence |].
    rewrite Hi' in Hsome. injection Hsome as <-.
    rewrite Hm, Ht. now split.
Qed.

(** X5.  In every state a service reaches, from its creation through any
    sequence of requests with whatever outcomes, the document texts are the
    renderings of the metadata rows, one for one; every stored row has an
    identifier; an installed index stands next to a non-empty metadata list
    and holds exactly the vectors the encoder gives for the stored texts;
    and the threshold is the one given at creation. *)
Theorem reachable_states_are_consistent env threshold s :
  reachable env threshold s ->
  documents_consistent s /\
  index_consistent env s /\
  distance_threshold s = threshold.
Proof.
  induction 1 as [|s user_message cid _ (Hdocs & Hindex & Hthr)].
  - split; [|split; [|reflexivity]].
    + split; [reflexivity | constructor].
    + intros index Hi. discriminate Hi.
  - destruct (request_keeps_invariants env s user_message cid Hdocs Hindex)
      as (Hd & Hi & Ht).
    split; [exact Hd | split; [exact Hi | congruence]].
Qed.

Lemma reachable_states_are_consistent_witness :
  let env := Scenario.world Scenario.two_claims in
  let s := final (stream_response env "how many claims are there" None (init 1)) in
  documents_consistent s /\ index_consistent env s /\ distance_threshold s = 1%Q.
Proof.
  apply (reachable_states_are_consistent (Scenario.world Scenario.two_claims) 1
           (final (stream_response (Scenario.world Scenario.two_claims)
                     "how many claims are there" None (init 1)))).
  apply reachable_request. apply reachable_init.
Defined.

(** X6.  Once an index is installed, a request neither builds again nor
    changes the service: the state after the request is the state before
    it, and the build query is not among its events. *)
Theorem no_rebuild_once_built env user_message cid s index :
  rag_index s = Some index ->
  final (stream_response env user_message cid s) = s /\
  Forall (fun ev => ev <> EvQuery build_sql None)
         (trace (stream_response env user_message cid s)).
Proof.
  intros Hi.
  pose proof (ensure_built_with_index env s index Hi) as Hb.
  split.
  - rewrite stream_response_final. exact (runs_final _ _ _ _ _ Hb).
  - assert (Hc : forall s0, Forall (fun ev => ev <> EvQuery build_sql None)
                              (trace (assemble_context env user_message s0))).
    { change (emits (fun ev => ev <> EvQuery build_sql None)
                (assemble_context env user_message)).
      unfold assemble_context, id_lookup_context, count_context, semantic_context,
        db_execute_query, _search_rag_index, nearest, gate, no_confident_match,
        model_encode.
      emits_auto; apply emits_emit; discriminate. }
    assert (Hg : forall prompt s0, Forall (fun ev => ev <> EvQuery build_sql None)
                                     (trace (generate env prompt s0))).
    { intros prompt.
      change (emits (fun ev => ev <> EvQuery build_sql None) (generate env prompt)).
      unfold generate, yield. emits_auto; apply emits_emit; discriminate. }
    rewrite stream_response_run. cbv zeta.
    rewrite (runs_final _ _ _ _ _ Hb), (runs_trace _ _ _ _ _ Hb).
    destruct (outcome (assemble_context env user_message s)); cbn [trace app].
    + apply Forall_app; split; [apply Hc|].
      apply Forall_app; split; [apply Hg|].
      match goal with
      | |- context [outcome (generate ?e ?p ?s0)] => destruct (outcome (generate e p s0))
      end; repeat constructor. discriminate.
    + apply Forall_app; split; [apply Hc|]. repeat constructor. discriminate.
Qed.

Lemma no_rebuild_once_built_witness :
  let env := Scenario.world Scenario.two_claims in
  let s := Scenario.built_over Scenario.two_claims 1 in
  final (stream_response env "pending dental issues" None s) = s /\
  Forall (fun ev => ev <> EvQuery build_sql None)
         (trace (stream_response env "pending dental issues" None s)).
Proof.
  apply (no_rebuild_once_built (Scenario.world Scenario.two_claims)
           "pending dental issues" None
           (Scenario.built_over Scenario.two_claims 1) Scenario.two_vectors).
  vm_compute. reflexivity.
Defined.

(** X7.  While no index is installed, every request starts by attempting
    the build: its first event is the build query, also when an earlier
    attempt failed. *)
Theorem build_attempted_while_unset env user_message cid s :
  rag_index s = None ->
  exists rest,
    trace (stream_response env user_message cid s) = EvQuery build_sql None :: rest.
Proof.
  intros Hi. rewrite stream_response_run. cbv zeta.
  rewrite (ensure_built_without_index env s Hi).
  destruct (build_in_full env s) as (s' & rest & Hrun & _).
  rewrite (runs_trace _ _ _ _ _ Hrun).
  destruct (outcome (assemble_context env user_message _)); cbn [trace app]; eauto.
Qed.

Lemma build_attempted_while_unset_witness :
  exists rest,
    trace (stream_response (Scenario.encoder_down Scenario.two_claims)
             "pending dental issues" None
             (final (stream_response (Scenario.encoder_down Scenario.two_claims)
                       "pending dental issues" None (init 1)))) =
    EvQuery build_sql None :: rest.
Proof.
  apply build_attempted_while_unset. vm_compute. reflexivity.
Defined.

(** ** The router, in both directions *)

Lemma contains_sound (needle hay : string) :
  Text.contains needle hay = true -> exists pre post, hay = pre +:+ needle +:+ post.
Proof.
  induction hay as [|c hay IH]; cbn [Text.contains]; intros H.
  - rewrite orb_false_r in H. apply TextFacts.prefix_inv in H as [r ->].
    exists "", r. reflexivity.
  - apply orb_prop in H as [H | H].
    + apply TextFacts.prefix_inv in H as [r ->]. exists "", r. reflexivity.
    + destruct (IH H) as (pre & post & ->). exists (String c pre), post. reflexivity.
Qed.

Lemma mentions_iff text keyword :
  Text.contains keyword (Text.lower text) = true <-> mentions text keyword.
Proof.
  split.
  - apply contains_sound.
  - intros (pre & post & ->). apply TextFacts.contains_complete.
Qed.

Lemma has_identifier_iff text :
  Text.re_search_claim_id (Text.lower text) <> None <-> has_identifier text.
Proof.
  split.
  - destruct (Text.re_search_claim_id (Text.lower text)) as [lm|] eqn:E; [|congruence].
    intros _. apply TextFacts.re_search_sound in E as (lpre & lpost & Hs & Hp).
    exists lpre, lm, lpost. split; assumption.
  - intros (pre & m & post & Ht & Hp) Hnone.
    exact (no_identifier text Hnone pre m post Ht Hp).
Qed.

Lemma upper_id_char c :
  Text.id_char c = true -> id_char_upper (Text.upper_char c) = true.
Proof.
  destruct c as [[] [] [] [] [] [] [] []]; vm_compute; intros H;
    first [reflexivity | discriminate H].
Qed.

Lemma upper_id_body body :
  Text.all_chars Text.id_char body = true ->
  Text.all_chars id_char_upper (Text.upper body) = true.
Proof.
  induction body as [|c body IH]; [reflexivity|].
  cbn [Text.all_chars Text.upper Text.map_chars]. intros H.
  apply andb_prop in H as [Hc Hb].
  fold (Text.upper body). now rewrite (upper_id_char c Hc), IH.
Qed.

(** X8.  Every identifier the router looks up is well formed: it is "CLM-"
    followed by at least one character, all of them capital letters, digits
    or hyphens; and it is the uppercase of a match of the identifier pattern
    in the lowered message.  It need not be the uppercase of a substring of
    the message itself: the Kelvin sign is looked up as K. *)
Theorem looked_up_identifier_is_well_formed text id :
  classify text = IdLookup id ->
  well_formed_id id /\
  exists pre m post,
    Text.lower text = pre +:+ m +:+ post /\ Text.id_pattern m /\ Text.upper m = id.
Proof.
  unfold classify.
  destruct (Text.re_search_claim_id (Text.lower text)) as [lm|] eqn:E.
  2: { destruct (existsb _ _); discriminate. }
  intros [= <-].
  apply TextFacts.re_search_sound in E as (lpre & lpost & Hs & Hp).
  split.
  - destruct Hp as (body & -> & Hne & Hall).
    exists (Text.upper body). split; [|split].
    + unfold Text.upper. now rewrite TextFacts.map_chars_app.
    + destruct body; [congruence | discriminate].
    + now apply upper_id_body.
  - exists lpre, lm, lpost. split; [exact Hs|]. split; [exact Hp|reflexivity].
Qed.

Lemma looked_up_identifier_is_well_formed_witness :
  well_formed_id "CLM-K1" /\
  exists pre m post,
    Text.lower ("status of Clm-" +:+
                String (ascii_of_nat 226) (String (ascii_of_nat 132)
                  (String (ascii_of_nat 170) "1 please"))) = pre +:+ m +:+ post /\
    Text.id_pattern m /\ Text.upper m = "CLM-K1".
Proof.
  apply (looked_up_identifier_is_well_formed
           ("status of Clm-" +:+
            String (ascii_of_nat 226) (String (ascii_of_nat 132)
              (String (ascii_of_nat 170) "1 please")))).
  vm_compute. reflexivity.
Defined.

Lemma no_keyword_iff text :
  existsb (fun keyword => Text.contains keyword (Text.lower text)) count_keywords = false <->
  forall keyword, keyword ∈ count_keywords -> ~ mentions text keyword.
Proof.
  split.
  - intros H keyword Hin Hm. apply mentions_iff in Hm.
    assert (Hex : existsb (fun keyword => Text.contains keyword (Text.lower text))
                    count_keywords = true).
    { apply existsb_exists. exists keyword. split; [now apply list_elem_of_In | exact Hm]. }
    congruence.
  - intros H. apply not_true_is_false. intros Hex.
    apply existsb_exists in Hex as (keyword & Hin & Hc).
    apply (H keyword); [now apply list_elem_of_In | now apply mentions_iff].
Qed.

(** X9.  The route of a message is decided by two tests on its lowered
    text.  It is a count exactly when the lowered text holds no match of the
    identifier pattern and one of the three count keywords; it is a semantic
    search exactly when the lowered text holds no match and none of the
    keywords, and then the search text is the message itself, letter case and
    blanks included. *)
Theorem routing_characterised text :
  (classify text = CountQuery <->
   ~ has_identifier text /\
   exists keyword,
     keyword ∈ ["how many"; "count"; "total number"] /\ mentions text keyword) /\
  (forall query,
     classify text = SemanticSearch query <->
     query = text /\
     ~ has_identifier text /\
     forall keyword,
       keyword ∈ ["how many"; "count"; "total number"] -> ~ mentions text keyword).
Proof.
  pose proof (has_identifier_iff text) as Hid.
  pose proof (no_keyword_iff text) as Hkw.
  change ["how many"; "count"; "total number"] with count_keywords.
  unfold classify.
  destruct (Text.re_search_claim_id (Text.lower text)) as [lm|] eqn:E.
  { assert (Hhas : has_identifier text) by (apply Hid; discriminate).
    split; [|intros query]; (split; [discriminate | tauto]). }
  assert (Hno : ~ has_identifier text) by (intros H; now apply Hid in H).
  destruct (existsb (fun keyword => Text.contains keyword (Text.lower text)) count_keywords)
    eqn:Hex.
  - assert (Hsome : exists keyword, keyword ∈ count_keywords /\ mentions text keyword).
    { apply existsb_exists in Hex as (keyword & Hin & Hc).
      exists keyword. split; [now apply list_elem_of_In | now apply mentions_iff]. }
    split; [tauto|]. intros query. split; [discriminate|].
    intros (_ & _ & Hnone). destruct Hsome as (keyword & Hin & Hm).
    now destruct (Hnone keyword Hin).
  - assert (Hnone : forall keyword, keyword ∈ count_keywords -> ~ mentions text keyword)
      by (now apply Hkw).
    split.
    + split; [discriminate|]. intros (_ & keyword & Hin & Hm).
      now destruct (Hnone keyword Hin).
    + intros query. split.
      * intros [= <-]. auto.
      * intros (-> & _). reflexivity.
Qed.

(** ** The count path at its edges *)

(** X10.  A count whose store result is empty is answered with zero: the
    context is "The total number of claims in the database is 0.". *)
Theorem count_of_empty_result env text s :
  classify text = CountQuery ->
  execute_query env count_sql None = Ok [] ->
  outcome (assemble_context env text s) =
  Ok "The total number of claims in the database is 0.".
Proof.
  intros Hc Hq. unfold assemble_context. rewrite Hc.
  unfold count_context, bind, db_execute_query, bind, emit, lift. cbn.
  rewrite Hq. reflexivity.
Qed.

Lemma count_of_empty_result_witness :
  outcome (assemble_context
             {| cursor_execute := fun _ _ => Ok (["total"], []);
                encode := Scenario.by_length;
                send_message := Scenario.answers;
                str_dict := Scenario.show;
                nep50 := true |}
             "how many claims are there" (init 1)) =
  Ok "The total number of claims in the database is 0.".
Proof. apply count_of_empty_result; reflexivity. Defined.

(** X11.  A count whose first result row has no column named [total] does
    not reach the model: the [KeyError] ends in the handler of
    [stream_response], and the caller receives one error frame with the text
    of the key in quotes, followed by the done frame. *)
Theorem count_row_without_total env m s row rest :
  classify (message m) = CountQuery ->
  execute_query env count_sql None = Ok (row :: rest) ->
  row !! "total" = None ->
  generate_response env m s =
    (Ok tt, [Chunk "⚠️ Error processing your request: 'total'"; Done]) /\
  Forall (fun ev => ~ is_generate ev)
         (trace (stream_response env (message m) (conversation_id m) s)).
Proof.
  intros Hc Hq Hrow.
  assert (Hraise : outcome (assemble_context env (message m) (final (ensure_built env s)))
                   = Raise (KeyError "total")).
  { unfold assemble_context. rewrite Hc.
    unfold count_context, bind, db_execute_query, bind, emit, lift. cbn.
    rewrite Hq. cbn. rewrite Hrow. reflexivity. }
  split.
  - now rewrite (frames_when_context_raises env m s _ Hraise).
  - rewrite stream_response_run. cbv zeta. rewrite Hraise. cbn [trace].
    apply Forall_app. split; [|apply Forall_app; split].
    + apply ensure_built_emits; intros; simpl; tauto.
    + apply assemble_context_emits; intros; simpl; tauto.
    + repeat constructor. simpl. tauto.
Qed.

Lemma count_row_without_total_witness :
  let env := {| cursor_execute := fun _ _ => Ok (["count"], [[VInt 7]]);
                encode := Scenario.by_length;
                send_message := Scenario.answers;
                str_dict := Scenario.show;
                nep50 := true |} in
  let m := Scenario.a_message "how many claims are there" None in
  generate_response env m (init 1) =
    (Ok tt, [Chunk "⚠️ Error processing your request: 'total'"; Done]) /\
  Forall (fun ev => ~ is_generate ev)
         (trace (stream_response env (message m) (conversation_id m) (init 1))).
Proof.
  apply (count_row_without_total _ (Scenario.a_message "how many claims are there" None)
           (init 1) (row_dict ["count"] [VInt 7]) []);
    reflexivity.
Defined.

(** ** Degrading when no index is available *)

(** X12.  When the lazy build leaves no index, a message routed to semantic
    search is still answered: nothing is retrieved, and the prompt is built
    around the sentence "No specific claims data was found in the database
    that matches your query.". *)
Theorem semantic_request_without_index env text s :
  classify text = SemanticSearch text ->
  rag_index (final (ensure_built env s)) = None ->
  outcome (prepare env text s) =
  Ok (make_prompt
        "No specific claims data was found in the database that matches your query."
        text).
Proof.
  intros Hc Hi.
  pose proof (runs_intro (ensure_built env) s) as Hb.
  rewrite ensure_built_returns in Hb.
  apply (runs_outcome _ _ _ (final (ensure_built env s)) (trace (ensure_built env s) ++ [])).
  unfold prepare.
  eapply runs_bind_ok; [exact Hb|].
  eapply runs_eq;
    [eapply runs_bind_ok; [|apply runs_ret] | reflexivity | reflexivity | apply app_nil_r].
  unfold assemble_context. rewrite Hc. unfold semantic_context.
  eapply runs_eq;
    [eapply runs_bind_ok; [apply (search_unavailable env text 3 _ (or_introl Hi))|];
     apply runs_ret | ..]; reflexivity.
Qed.

Lemma semantic_request_without_index_witness :
  outcome (prepare (Scenario.encoder_down Scenario.two_claims)
             "pending dental issues" (init 1)) =
  Ok (make_prompt
        "No specific claims data was found in the database that matches your query."
        "pending dental issues").
Proof.
  apply semantic_request_without_index; vm_compute; reflexivity.
Defined.

(** ** Batch insert *)

Section BatchFacts.

Context {DB Params : Type}.
Implicit Types (conn : database.Connection DB Params) (db : DB).

Lemma insert_each_shift conn query params_list total db :
  database.insert_each conn query params_list total db =
  ((total + fst (database.insert_each conn query params_list 0 db))%Z,
   snd (database.insert_each conn query params_list 0 db)).
Proof.
  revert total db.
  induction params_list as [|params rest IH]; intros total db; simpl.
  - f_equal. lia.
  - destruct (database.execute conn query params db) as [[rowcount|e] db'].
    + rewrite (IH (total + rowcount)%Z), (IH (0 + rowcount)%Z). simpl. f_equal. lia.
    + apply IH.
Qed.

Lemma insert_each_app conn query ps1 ps2 total db :
  database.insert_each conn query (ps1 ++ ps2) total db =
  database.insert_each conn query ps2
    (fst (database.insert_each conn query ps1 total db))
    (snd (database.insert_each conn query ps1 total db)).
Proof.
  revert total db.
  induction ps1 as [|params rest IH]; intros total db; simpl; [reflexivity|].
  destruct (database.execute conn query params db) as [[rowcount|e] db']; apply IH.
Qed.

Lemma batch_insert_ok conn query params_list db :
  database.execute_batch_insert (Some conn) query params_list db =
  (Ok (fst (database.insert_each conn query params_list 0 db)),
   snd (database.insert_each conn query params_list 0 db)).
Proof.
  unfold database.execute_batch_insert.
  destruct (database.insert_each conn query params_list 0 db); reflexivity.
Qed.

Lemma batch_insert_db_app conn query ps1 ps2 db :
  snd (database.execute_batch_insert (Some conn) query (ps1 ++ ps2) db) =
  snd (database.execute_batch_insert (Some conn) query ps2
         (snd (database.execute_batch_insert (Some conn) query ps1 db))).
Proof.
  rewrite !batch_insert_ok. simpl. rewrite insert_each_app.
  rewrite (insert_each_shift conn query ps2 (fst _)). reflexivity.
Qed.

Lemma insert_each_bounds conn query params_list db :
  (forall params db0 rowcount db1,
     database.execute conn query params db0 = (Ok rowcount, db1) ->
     (0 <= rowcount <= 1)%Z) ->
  (0 <= fst (database.insert_each conn query params_list 0 db)
     <= Z.of_nat (length params_list))%Z.
Proof.
  intros Hrow. revert db.
  induction params_list as [|params rest IH]; intros db; simpl; [lia|].
  destruct (database.execute conn query params db) as [[rowcount|e] db'] eqn:He.
  - rewrite insert_each_shift. simpl.
    specialize (Hrow _ _ _ _ He). specialize (IH db'). lia.
  - specialize (IH (database.rollback conn db')). lia.
Qed.

(** X13.  On an open connection a batch insert does not raise, whatever the
    single statements do: a statement that fails is rolled back and skipped.
    When every accepted statement reports no row or one row, the number
    returned lies between zero and the number of parameter lists. *)
Theorem batch_insert_skips_failures conn query params_list db :
  (forall params db0 rowcount db1,
     database.execute conn query params db0 = (Ok rowcount, db1) ->
     (0 <= rowcount <= 1)%Z) ->
  exists total,
    fst (database.execute_batch_insert (Some conn) query params_list db) = Ok total /\
    (0 <= total <= Z.of_nat (length params_list))%Z.
Proof.
  intros Hrow. rewrite batch_insert_ok. eexists. split; [reflexivity|].
  apply insert_each_bounds, Hrow.
Qed.

(** X14.  A batch over two lists one after the other is the batch over the
    first list followed, on the database it leaves, by the batch over the
    second; the totals add up. *)
Theorem batch_insert_splits conn query ps1 ps2 db :
  exists n1 db1 n2 db2,
    database.execute_batch_insert (Some conn) query ps1 db = (Ok n1, db1) /\
    database.execute_batch_insert (Some conn) query ps2 db1 = (Ok n2, db2) /\
    database.execute_batch_insert (Some conn) query (ps1 ++ ps2) db =
      (Ok (n1 + n2)%Z, db2).
Proof.
  exists (fst (database.insert_each conn query ps1 0 db)),
         (snd (database.insert_each conn query ps1 0 db)).
  eexists _, _. rewrite !batch_insert_ok. split; [reflexivity|].
  split; [reflexivity|].
  rewrite insert_each_app, insert_each_shift. reflexivity.
Qed.

(** X15.  The total of a batch is the sum of the row counts of the
    statements the database accepted; what a failed statement would have
    counted is not in it. *)
Theorem batch_insert_total conn query params_list db :
  fst (database.execute_batch_insert (Some conn) query params_list db) =
  Ok (foldr Z.add 0%Z (snd <$> database.accepted conn query params_list db)).
Proof.
  rewrite batch_insert_ok. cbn [fst]. f_equal. revert db.
  induction params_list as [|params rest IH]; intros db; [reflexivity|].
  cbn [database.insert_each database.accepted].
  destruct (database.execute conn query params db) as [[rowcount|e] db'].
  - rewrite insert_each_shift, fmap_cons. cbn [fst snd foldr]. rewrite IH. lia.
  - apply IH.
Qed.

End BatchFacts.

Lemma batch_insert_skips_failures_witness :
  exists total,
    fst (database.execute_batch_insert (Some Ledger.connection) data_import.insert_query
           [[models.PText "CLM-1"]; [models.PText Ledger.long_id]; [models.PNone];
            [models.PText "CLM-1"]; [models.PText "CLM-2"]] []) = Ok total /\
    (0 <= total <= 5)%Z.
Proof.
  apply (batch_insert_skips_failures Ledger.connection).
  intros params db0 rowcount db1. simpl. unfold Ledger.execute.
  destruct params as [|[] ?]; try discriminate.
  destruct (100 <? String.length text)%nat; [discriminate|].
  destruct (bool_decide (text ∈ db0)); intros [= <- _]; lia.
Defined.

(** ** Import of a CSV file *)

Section ImportFacts.

Context {DB Date Decimal : Type}.
Context (parsers : models.Parsers Date Decimal).
Context (reader : string -> list data_import.RawRow * option exn).

Abbreviation Conn := (database.Connection DB (list (models.Param Date Decimal))).

Implicit Types (conn : Conn) (db : DB) (p : data_import.Progress (Date := Date) (Decimal := Decimal)).

Lemma after_insert_nil conn db :
  data_import.after_insert (Some conn) [] db = db.
Proof. reflexivity. Qed.

Lemma after_insert_app conn cs1 cs2 db :
  data_import.after_insert (Some conn) (cs1 ++ cs2) db =
  data_import.after_insert (Some conn) cs2 (data_import.after_insert (Some conn) cs1 db).
Proof.
  unfold data_import.after_insert, data_import._batch_insert_claims.
  rewrite fmap_app. apply batch_insert_db_app.
Qed.

Lemma batch_insert_claims_ok conn cs db :
  exists n,
    data_import._batch_insert_claims (Some conn) cs db =
    (Ok n, data_import.after_insert (Some conn) cs db).
Proof.
  unfold data_import.after_insert, data_import._batch_insert_claims.
  rewrite batch_insert_ok. eexists. reflexivity.
Qed.

(** A full batch is sent and the list emptied; a batch that is not full
    waits. *)
Lemma flush_some conn p db :
  data_import.processed_count (fst (data_import.flush (Some conn) p db)) =
    data_import.processed_count p /\
  ((1000 <= length (data_import.claims p))%nat /\
   data_import.claims (fst (data_import.flush (Some conn) p db)) = [] /\
   snd (data_import.flush (Some conn) p db) =
     data_import.after_insert (Some conn) (data_import.claims p) db
   \/
   (length (data_import.claims p) < 1000)%nat /\
   data_import.claims (fst (data_import.flush (Some conn) p db)) = data_import.claims p /\
   snd (data_import.flush (Some conn) p db) = db).
Proof.
  unfold data_import.flush. change data_import.batch_size with 1000%nat.
  destruct (Nat.leb_spec 1000 (length (data_import.claims p))) as [Hfull|Hwait].
  - destruct (batch_insert_claims_ok conn (data_import.claims p) db) as [n ->].
    cbn [fst snd data_import.processed_count data_import.claims]. auto.
  - cbn [fst snd]. auto.
Qed.

Lemma record_importable filename cleaned p :
  let claim := models.from_csv_row parsers cleaned filename in
  let p' := data_import.record claim p in
  data_import.claims p' =
    data_import.claims p ++ (if models.is_valid claim then [claim] else []) /\
  data_import.processed_count p' =
    (data_import.processed_count p + (if models.is_valid claim then 1 else 0))%nat.
Proof.
  cbv zeta. unfold data_import.record.
  destruct (models.is_valid _); simpl.
  - split; [reflexivity|lia].
  - rewrite app_nil_r. split; [reflexivity|lia].
Qed.

Lemma importable_cons filename row rest :
  data_import.importable parsers filename (row :: rest) =
  match data_import.importable_row parsers filename row with
  | Some claim => claim :: data_import.importable parsers filename rest
  | None => data_import.importable parsers filename rest
  end.
Proof. reflexivity. Qed.

(** The loop over the rows, from any point of it: the claims seen so far are
    those sent, in full batches, followed by those that wait. *)
Lemma process_rows_some conn filename rows : forall p db,
  (length (data_import.claims p) < 1000)%nat ->
  let r := data_import.process_rows parsers (Some conn) filename rows p db in
  data_import.processed_count (fst r) =
    (data_import.processed_count p +
     length (data_import.importable parsers filename rows))%nat /\
  (length (data_import.claims (fst r)) < 1000)%nat /\
  exists sent,
    data_import.claims p ++ data_import.importable parsers filename rows =
      sent ++ data_import.claims (fst r) /\
    (1000 | length sent)%nat /\
    snd r = data_import.after_insert (Some conn) sent db.
Proof.
  cbv zeta. induction rows as [|row rest IH]; intros p db Hp.
  - cbn [data_import.process_rows fst snd]. split; [simpl; lia|]. split; [exact Hp|].
    exists []. rewrite app_nil_r. repeat split. apply Nat.divide_0_r.
  - cbn [data_import.process_rows].
    destruct (data_import.process_row parsers (Some conn) filename row p db)
      as [p1 db1] eqn:Hrow.
    rewrite importable_cons. unfold data_import.importable_row.
    unfold data_import.process_row in Hrow.
    destruct (data_import.clean_row row) as [cleaned|e].
    + destruct (record_importable filename cleaned p) as [Hrc Hrp].
      set (claim := models.from_csv_row parsers cleaned filename) in *.
      set (pr := data_import.record claim p) in *.
      assert (Hall : data_import.claims p ++
                     match (if models.is_valid claim then Some claim else None) with
                     | Some c => c :: data_import.importable parsers filename rest
                     | None => data_import.importable parsers filename rest
                     end =
                     data_import.claims pr ++ data_import.importable parsers filename rest).
      { rewrite Hrc. destruct (models.is_valid claim);
          [rewrite <- app_assoc | rewrite app_nil_r]; reflexivity. }
      assert (Hlen : length match (if models.is_valid claim then Some claim else None) with
                            | Some c => c :: data_import.importable parsers filename rest
                            | None => data_import.importable parsers filename rest
                            end =
                     ((if models.is_valid claim then 1 else 0) +
                      length (data_import.importable parsers filename rest))%nat).
      { destruct (models.is_valid claim); reflexivity. }
      cbv zeta. rewrite Hall, Hlen. clear Hall Hlen.
      assert (Hpr : (length (data_import.claims pr) <= 1000)%nat).
      { rewrite Hrc, length_app. destruct (models.is_valid claim); simpl; lia. }
      destruct (flush_some conn pr db) as [Hcount Hflush].
      rewrite Hrow in Hcount, Hflush. cbn [fst snd] in Hcount, Hflush.
      destruct Hflush as [(Hfull & Hc1 & Hd1) | (Hwait & Hc1 & Hd1)].
      * destruct (IH p1 db1) as (Hn & Hw & sent & Hs & Hdiv & Hdb);
          [rewrite Hc1; simpl; lia|].
        split; [rewrite Hn, Hcount, Hrp; lia|]. split; [exact Hw|].
        exists (data_import.claims pr ++ sent).
        rewrite Hc1 in Hs. cbn [app] in Hs. rewrite Hs, <- app_assoc.
        split; [reflexivity|]. split.
        -- rewrite length_app. apply Nat.divide_add_r; [|exact Hdiv].
           replace (length (data_import.claims pr)) with 1000%nat by lia.
           apply Nat.divide_refl.
        -- rewrite Hdb, Hd1, after_insert_app. reflexivity.
      * destruct (IH p1 db1) as (Hn & Hw & sent & Hs & Hdiv & Hdb);
          [rewrite Hc1; exact Hwait|].
        split; [rewrite Hn, Hcount, Hrp; lia|]. split; [exact Hw|].
        exists sent. rewrite Hc1 in Hs. rewrite Hs, Hdb, Hd1. auto.
    + injection Hrow as <- <-.
      destruct (IH (data_import.failed p) db Hp) as (Hn & Hw & sent & Hs & Hdiv & Hdb).
      split; [exact Hn|]. split; [exact Hw|]. exists sent. auto.
Qed.

(** The import on an open connection, whole: when the reader comes to the
    end every claim has been sent; when it raises, the claims that waited
    for their batch are lost. *)
Lemma import_some conn csv_data filename db :
  let all := data_import.importable parsers filename (fst (reader csv_data)) in
  match snd (reader csv_data) with
  | None =>
      data_import.import_csv_data parsers (Some conn) reader csv_data filename db =
      (Ok (length all), data_import.after_insert (Some conn) all db)
  | Some e =>
      exists sent pending,
        all = sent ++ pending /\
        (1000 | length sent)%nat /\
        (length pending < 1000)%nat /\
        data_import.import_csv_data parsers (Some conn) reader csv_data filename db =
        (Raise e, data_import.after_insert (Some conn) sent db)
  end.
Proof.
  cbv zeta. unfold data_import.import_csv_data.
  destruct (reader csv_data) as [rows error]. cbn [fst snd].
  pose proof (process_rows_some conn filename rows
    {| data_import.claims := []; data_import.processed_count := 0;
       data_import.error_count := 0 |} db) as H.
  cbv zeta in H.
  destruct (data_import.process_rows _ _ _ _ _ _) as [p db1].
  cbn [fst snd data_import.claims data_import.processed_count] in H.
  destruct H as (Hcount & Hwait & sent & Hs & Hdiv & ->); [simpl; lia|].
  rewrite app_nil_l in Hs. rewrite Nat.add_0_l in Hcount.
  destruct error as [e|].
  - exists sent, (data_import.claims p). auto.
  - rewrite Hcount, Hs.
    destruct (data_import.claims p) as [|c cs].
    + rewrite app_nil_r. reflexivity.
    + destruct (batch_insert_claims_ok conn (c :: cs)
                  (data_import.after_insert (Some conn) sent db)) as [n ->].
      rewrite after_insert_app. reflexivity.
Qed.

(** X16.  With an open connection an import raises only the error of the
    reader, if the file cannot be read to its end.  Otherwise the number it
    returns is the number of rows that can be cleaned and have an
    identifier.  It is the number of claims sent to the database, whatever
    the database did with them: a claim the database refused, or had
    already, is counted. *)
Theorem import_counts_rows_with_identifier conn csv_data filename db :
  fst (data_import.import_csv_data parsers (Some conn) reader csv_data filename db) =
  match snd (reader csv_data) with
  | Some e => Raise e
  | None =>
      Ok (length (data_import.importable parsers filename (fst (reader csv_data))))
  end.
Proof.
  pose proof (import_some conn csv_data filename db) as H. cbv zeta in H.
  destruct (snd (reader csv_data)).
  - destruct H as (sent & pending & _ & _ & _ & ->). reflexivity.
  - rewrite H. reflexivity.
Qed.

(** X17.  The batches of a thousand do not show when the file is read to its
    end: the database after the import is the database after one batch
    insert of the claims of all valid rows, in the order of the file.  When
    the reader raises, the import is not undone: the database is the one
    after the batches that were full before the error, and the claims that
    waited for their batch, fewer than a thousand, are not sent. *)
Theorem import_is_one_batch conn csv_data filename db :
  let all := data_import.importable parsers filename (fst (reader csv_data)) in
  let after claims :=
    snd (database.execute_batch_insert (Some conn) data_import.insert_query
           (models.to_db_params <$> claims) db) in
  match snd (reader csv_data) with
  | None =>
      snd (data_import.import_csv_data parsers (Some conn) reader csv_data filename db) =
      after all
  | Some _ =>
      exists sent pending,
        all = sent ++ pending /\
        (1000 | length sent)%nat /\
        (length pending < 1000)%nat /\
        snd (data_import.import_csv_data parsers (Some conn) reader csv_data filename db) =
        after sent
  end.
Proof.
  pose proof (import_some conn csv_data filename db) as H. cbv zeta in H. cbv zeta.
  destruct (snd (reader csv_data)).
  - destruct H as (sent & pending & Hall & Hdiv & Hlen & ->).
    exists sent, pending. auto.
  - rewrite H. reflexivity.
Qed.

Lemma flush_none p db :
  data_import.claims (fst (data_import.flush None p db)) = data_import.claims p /\
  data_import.processed_count (fst (data_import.flush None p db)) =
    data_import.processed_count p /\
  snd (data_import.flush None p db) = db.
Proof.
  unfold data_import.flush.
  destruct (data_import.batch_size <=? length (data_import.claims p))%nat; simpl; auto.
Qed.

Lemma process_rows_none filename rows p db :
  let r := data_import.process_rows parsers None filename rows p db in
  data_import.claims (fst r) =
    data_import.claims p ++ data_import.importable parsers filename rows /\
  data_import.processed_count (fst r) =
    (data_import.processed_count p +
     length (data_import.importable parsers filename rows))%nat /\
  snd r = db.
Proof.
  cbv zeta. revert p db.
  induction rows as [|row rest IH]; intros p db.
  - simpl. rewrite app_nil_r. repeat split; try reflexivity; lia.
  - cbn [data_import.process_rows].
    destruct (data_import.process_row parsers None filename row p db)
      as [p1 db1] eqn:Hrow.
    destruct (IH p1 db1) as (Hclaims & Hcount & Hdb).
    rewrite Hclaims, Hcount, Hdb. clear IH Hclaims Hcount Hdb.
    rewrite importable_cons. unfold data_import.importable_row.
    unfold data_import.process_row in Hrow.
    destruct (data_import.clean_row row) as [cleaned|e].
    + pose proof (flush_none
        (data_import.record (models.from_csv_row parsers cleaned filename) p) db) as Hf.
      rewrite Hrow in Hf. cbn [fst snd] in Hf. destruct Hf as (Hc & Hp & Hd).
      destruct (record_importable filename cleaned p) as [Hrc Hrp].
      rewrite Hc, Hp, Hd, Hrc, Hrp. clear.
      destruct (models.is_valid _); cbn [length].
      * rewrite <- app_assoc. repeat split; try reflexivity; lia.
      * rewrite app_nil_r. repeat split; try reflexivity; lia.
    + injection Hrow as <- <-. simpl. repeat split; try reflexivity; lia.
Qed.

(** X18.  Before [connect] has run there is no connection.  An import then
    leaves the database as it is.  It raises the error of the reader if the
    file cannot be read to its end; otherwise it raises the [AttributeError]
    of [None.cursor()] as soon as the file has one valid row, and returns 0
    for a file without any. *)
Theorem import_without_connection csv_data filename db :
  data_import.import_csv_data parsers None reader csv_data filename db =
  (match snd (reader csv_data) with
   | Some e => Raise e
   | None =>
       match data_import.importable parsers filename (fst (reader csv_data)) with
       | [] => Ok 0%nat
       | _ :: _ => Raise (Exception "'NoneType' object has no attribute 'cursor'")
       end
   end, db).
Proof.
  unfold data_import.import_csv_data.
  destruct (reader csv_data) as [rows error]. cbn [fst snd].
  pose proof (process_rows_none filename rows
    {| data_import.claims := []; data_import.processed_count := 0;
       data_import.error_count := 0 |} db) as H.
  cbv zeta in H.
  destruct (data_import.process_rows _ _ _ _ _ _) as [p db1].
  cbn [fst snd data_import.claims data_import.processed_count] in H.
  destruct H as (Hclaims & Hcount & ->). rewrite app_nil_l in Hclaims.
  destruct error as [e|]; [reflexivity|].
  rewrite Hclaims, Hcount.
  destruct (data_import.importable parsers filename rows); reflexivity.
Qed.

End ImportFacts.

(** A file that ends in a line the reader cannot take, on an open
    connection: the import raises the error of the reader, and the three
    claims read before it are not sent. *)
Example import_of_broken_file :
  data_import.import_csv_data Ledger.parsers (Some Ledger.connection) Ledger.reader
    "broken" "broken.csv" [] =
  (Raise Ledger.csv_error, []).
Proof. vm_compute. reflexivity. Qed.

(** ** Claims made from CSV rows *)

Module StrFacts.

Lemma lstrip_cons c r :
  Str.lstrip (String c r) =
  if Str.is_space c then Str.lstrip r
  else
    match r with
    | String c1 r1 =>
        if Str.is_space2 c c1 then Str.lstrip r1
        else
          match r1 with
          | String c2 r2 =>
              if Str.is_space3 c c1 c2 then Str.lstrip r2 else String c r
          | EmptyString => String c r
          end
    | EmptyString => String c r
    end.
Proof. destruct r as [|c1 [|c2 r2]]; reflexivity. Qed.

Lemma rstrip_cons c r :
  Str.rstrip (String c r) =
  if Str.is_space_point (String c (Str.rstrip r)) then "" else String c (Str.rstrip r).
Proof. reflexivity. Qed.

(** What [lstrip] leaves does not begin with white space, and a text that
    does not begin with white space is left as it is. *)
Lemma lstrip_starts s : Str.starts_space (Str.lstrip s) = false.
Proof.
  assert (H : forall n s, (String.length s <= n)%nat ->
                Str.starts_space (Str.lstrip s) = false);
    [|now apply (H (String.length s))].
  clear s. induction n as [|n IH]; intros s Hn.
  { destruct s; [reflexivity | simpl in Hn; lia]. }
  destruct s as [|c r]; [reflexivity|]. rewrite lstrip_cons.
  destruct (Str.is_space c) eqn:H1; [apply IH; simpl in *; lia|].
  destruct r as [|c1 r1]; [cbn [Str.starts_space]; now rewrite H1|].
  destruct (Str.is_space2 c c1) eqn:H2; [apply IH; simpl in *; lia|].
  destruct r1 as [|c2 r2]; [cbn [Str.starts_space]; now rewrite H1, H2|].
  destruct (Str.is_space3 c c1 c2) eqn:H3; [apply IH; simpl in *; lia|].
  cbn [Str.starts_space]. now rewrite H1, H2, H3.
Qed.

Lemma lstrip_fixed s : Str.starts_space s = false -> Str.lstrip s = s.
Proof.
  destruct s as [|c r]; [reflexivity|]. rewrite lstrip_cons. cbn [Str.starts_space].
  intros H. apply orb_false_iff in H as [-> H].
  destruct r as [|c1 r1]; [reflexivity|].
  apply orb_false_iff in H as [-> H].
  destruct r1 as [|c2 r2]; [reflexivity|]. now rewrite H.
Qed.

Lemma starts_space_app p w :
  Str.starts_space p = true -> Str.starts_space (p +:+ w) = true.
Proof.
  destruct p as [|c [|c1 [|c2 r2]]]; cbn [Str.starts_space];
    rewrite ?TextFacts.append_cons, ?TextFacts.append_nil; cbn [Str.starts_space].
  - discriminate.
  - rewrite orb_false_r. intros ->. reflexivity.
  - rewrite orb_false_r. intros H. apply orb_true_iff in H as [-> | ->];
      [reflexivity|]. destruct w; now rewrite ?orb_true_r.
  - intros ->. reflexivity.
Qed.

(** [rstrip] keeps a piece from the start of the text, which does not end
    in white space any more. *)
Lemma rstrip_prefix s : exists w, s = Str.rstrip s +:+ w.
Proof.
  induction s as [|c r [w IH]]; [now exists ""|]. rewrite rstrip_cons.
  destruct (Str.is_space_point _).
  - now exists (String c r).
  - exists w. rewrite TextFacts.append_cons. now f_equal.
Qed.

Lemma rstrip_idemp s : Str.rstrip (Str.rstrip s) = Str.rstrip s.
Proof.
  induction s as [|c r IH]; [reflexivity|]. rewrite rstrip_cons.
  destruct (Str.is_space_point (String c (Str.rstrip r))) eqn:Hp; [reflexivity|].
  now rewrite rstrip_cons, IH, Hp.
Qed.

Lemma rstrip_starts s :
  Str.starts_space s = false -> Str.starts_space (Str.rstrip s) = false.
Proof.
  intros Hs. destruct (Str.starts_space (Str.rstrip s)) eqn:Hr; [|reflexivity].
  destruct (rstrip_prefix s) as [w Hw].
  apply (starts_space_app _ w) in Hr. rewrite <- Hw in Hr. congruence.
Qed.

Lemma rstrip_ends s : forall pre point,
  Str.rstrip s = pre +:+ point -> Str.is_space_point point = false.
Proof.
  induction s as [|c r IH]; intros pre point.
  - destruct pre; [|discriminate]. rewrite TextFacts.append_nil.
    intros <-. reflexivity.
  - rewrite rstrip_cons.
    destruct (Str.is_space_point (String c (Str.rstrip r))) eqn:Hp.
    + destruct pre; [|discriminate]. rewrite TextFacts.append_nil.
      intros <-. reflexivity.
    + destruct pre as [|c' pre'].
      * rewrite TextFacts.append_nil. intros <-. exact Hp.
      * rewrite TextFacts.append_cons. intros [= _ H]. exact (IH _ _ H).
Qed.

Lemma strip_idemp s : Str.strip (Str.strip s) = Str.strip s.
Proof.
  unfold Str.strip.
  rewrite (lstrip_fixed (Str.rstrip (Str.lstrip s))).
  - apply rstrip_idemp.
  - apply rstrip_starts, lstrip_starts.
Qed.

Lemma strip_trimmed s : Str.trimmed (Str.strip s).
Proof.
  split; [apply rstrip_starts, lstrip_starts | apply rstrip_ends].
Qed.

Lemma eqb_empty s : String.eqb s "" = false <-> s <> "".
Proof. destruct s; simpl; split; congruence. Qed.

End StrFacts.

Section ClaimFacts.

Context {Date Decimal : Type}.
Context (parsers : models.Parsers Date Decimal).

Lemma or_none_strip text :
  forall t, models.or_none (Str.strip text) = Some t ->
            t <> "" /\ Str.strip t = t /\ Str.trimmed t.
Proof.
  intros t. unfold models.or_none.
  destruct (String.eqb (Str.strip text) "") eqn:He; [discriminate|].
  intros [= <-]. split; [apply StrFacts.eqb_empty, He|].
  split; [apply StrFacts.strip_idemp | apply StrFacts.strip_trimmed].
Qed.

Lemma is_valid_from_csv_row row source :
  models.is_valid (models.from_csv_row parsers row source) =
  negb (String.eqb (Str.strip (models.text_of row "claim_id")) "").
Proof.
  unfold models.is_valid. cbn [models.from_csv_row models.claim_id].
  rewrite StrFacts.strip_idemp. apply andb_diag.
Qed.

(** X19.  A claim made from a CSV row carries its texts trimmed: the
    identifier has no white space around it, an optional text column is
    [None] rather than empty or blank, and otherwise has no white space
    around it.  White space is that of [str.strip], the no-break space and
    the other spaces of Unicode included: no such code point stands at
    either end of the text, and trimming again changes nothing.  For such a
    claim [is_valid] says that the identifier is not empty. *)
Theorem claim_texts_are_trimmed row source :
  let claim := models.from_csv_row parsers row source in
  Str.strip (models.claim_id claim) = models.claim_id claim /\
  Str.trimmed (models.claim_id claim) /\
  models.is_valid claim = negb (String.eqb (models.claim_id claim) "") /\
  Forall (fun field => forall text, field = Some text ->
            text <> "" /\ Str.strip text = text /\ Str.trimmed text)
    [ models.policy_number claim; models.claim_status claim; models.claim_type claim;
      models.diagnosis_code claim; models.provider_id claim ].
Proof.
  cbv zeta. split; [apply StrFacts.strip_idemp|].
  split; [apply StrFacts.strip_trimmed|].
  split; [apply is_valid_from_csv_row|].
  repeat (apply Forall_cons_2; [apply or_none_strip|]). apply Forall_nil_2.
Qed.

Lemma clean_items_surplus items seen v :
  (None, v) ∈ items -> exists e, data_import.clean_items items seen = Raise e.
Proof.
  revert seen. induction items as [|[[k|] w] rest IH]; intros seen Hin.
  - inversion Hin.
  - apply elem_of_cons in Hin as [Hin|Hin]; [discriminate|]. simpl. auto.
  - simpl. eauto.
Qed.

(** X20.  A line with more cells than the header is dropped whole: the
    surplus cells come under the key [None], cleaning the names fails on it,
    and the row gives no claim even if its identifier is in order. *)
Theorem surplus_cell_drops_the_row filename row v :
  (None, v) ∈ row ->
  data_import.importable_row parsers filename row = None.
Proof.
  intros Hin. unfold data_import.importable_row, data_import.clean_row.
  destruct (clean_items_surplus row ∅ v Hin) as [e ->]. reflexivity.
Qed.

(** X21.  A line with fewer cells than the header has [None] in the cells it
    lacks.  In an amount, number or date column that is read as no value; in
    the identifier column it is read as the text "None", and the row is
    imported under that identifier.  A file without identifier column gives
    no claim at all. *)
Theorem missing_identifier_cell filename row cleaned :
  data_import.clean_row row = Ok cleaned ->
  (cleaned !! "claim_id" = Some None ->
   exists claim,
     data_import.importable_row parsers filename row = Some claim /\
     models.claim_id claim = "None") /\
  (cleaned !! "claim_id" = None ->
   data_import.importable_row parsers filename row = None) /\
  (forall key, cleaned !! key = Some None ->
     models.safe_decimal parsers (cleaned !! key) = None /\
     models.safe_int parsers (cleaned !! key) = None /\
     models.safe_date parsers (cleaned !! key) = None).
Proof.
  intros Hclean. unfold data_import.importable_row. rewrite Hclean. cbv zeta.
  rewrite is_valid_from_csv_row. unfold models.text_of.
  split; [|split].
  - intros H. rewrite H. eexists. split; [reflexivity|].
    cbn [models.from_csv_row models.claim_id]. unfold models.text_of. rewrite H.
    reflexivity.
  - intros ->. reflexivity.
  - intros key ->. repeat split.
Qed.

(** X22.  Every parameter list an import sends has one parameter for each
    placeholder of the insert statement, eleven of them, and starts with an
    identifier that is not empty and has no white space around it, the
    white space of Unicode included. *)
Theorem import_statements_are_well_formed filename rows :
  Forall (fun params =>
            length params = Str.count "%s" data_import.insert_query /\
            length params = 11%nat /\
            exists id, head params = Some (models.PText id) /\
                       id <> "" /\ Str.strip id = id /\ Str.trimmed id)
    (models.to_db_params <$> data_import.importable parsers filename rows).
Proof.
  apply Forall_fmap, Forall_forall. intros claim Hin.
  apply list_elem_of_omap in Hin as (row & _ & Hrow).
  unfold data_import.importable_row in Hrow.
  destruct (data_import.clean_row row) as [cleaned|]; [|discriminate].
  cbv zeta in Hrow.
  destruct (models.is_valid _) eqn:Hvalid; [|discriminate].
  injection Hrow as <-. split; [vm_compute; reflexivity|].
  split; [reflexivity|].
  eexists. split; [reflexivity|]. cbn [models.from_csv_row models.claim_id].
  rewrite is_valid_from_csv_row in Hvalid.
  split; [apply StrFacts.eqb_empty, negb_true_iff, Hvalid|].
  split; [apply StrFacts.strip_idemp | apply StrFacts.strip_trimmed].
Qed.

End ClaimFacts.

(** A no-break space (U+00A0) and an em space (U+2003) are white space to
    [str.strip]: an identifier made of them is empty after trimming, the
    claim is not valid and the row is not imported; around a policy number
    they are removed, and a policy number made of them is [None]. *)
Example blank_identifier_is_invalid :
  let nbsp := String (ascii_of_nat 194) (String (ascii_of_nat 160) "") in
  let em :=
    String (ascii_of_nat 226) (String (ascii_of_nat 128) (String (ascii_of_nat 131) "")) in
  let row : models.CsvRow :=
    {[ "claim_id" := Some (nbsp +:+ em); "policy_number" := Some (em +:+ "P-7" +:+ nbsp);
       "claim_type" := Some nbsp ]} in
  let claim := models.from_csv_row Ledger.parsers row "claims.csv" in
  models.claim_id claim = "" /\
  models.is_valid claim = false /\
  models.policy_number claim = Some "P-7" /\
  models.claim_type claim = None /\
  data_import.importable_row Ledger.parsers "claims.csv"
    [(Some "claim_id", Some (nbsp +:+ em)); (Some "policy_number", Some "P-7")] = None /\
  exists claim',
    data_import.importable_row Ledger.parsers "claims.csv"
      [(Some (nbsp +:+ "claim_id"), Some (nbsp +:+ "CLM-1" +:+ em))] = Some claim' /\
    models.claim_id claim' = "CLM-1".
Proof.
  cbv zeta. repeat split; try (vm_compute; reflexivity).
  eexists. split; vm_compute; reflexivity.
Qed.

Lemma surplus_cell_drops_the_row_witness :
  data_import.importable_row Ledger.parsers "claims.csv" Ledger.long_line = None.
Proof.
  apply (surplus_cell_drops_the_row Ledger.parsers "claims.csv" Ledger.long_line None).
  apply list_elem_of_lookup. exists 1%nat. reflexivity.
Defined.

Lemma missing_identifier_cell_witness :
  (exists claim,
     data_import.importable_row Ledger.parsers "claims.csv" Ledger.short_line = Some claim /\
     models.claim_id claim = "None") /\
  models.safe_decimal Ledger.parsers
    (({[ "claim_type" := Some "dental"; "claim_id" := None ]} : models.CsvRow)
       !! "claim_id") = None.
Proof.
  pose proof (missing_identifier_cell Ledger.parsers "claims.csv" Ledger.short_line
    {[ "claim_type" := Some "dental"; "claim_id" := None ]}) as H.
  destruct H as (Hid & _ & Hcell); [vm_compute; reflexivity|].
  split; [apply Hid; vm_compute; reflexivity|].
  apply (Hcell "claim_id"). vm_compute; reflexivity.
Defined.

(** ** The upload endpoint *)

Section UploadFacts.

Context {DB Date Decimal : Type}.
Context (parsers : models.Parsers Date Decimal).
Context (connection : option (database.Connection DB (list (models.Param Date Decimal)))).
Context (reader : string -> list data_import.RawRow * option exn).
Context (decode : string -> Outcome string).
Context (str_http : main.HTTPException -> string).

Abbreviation upload_each := (main.upload_each parsers connection reader decode str_http).
Abbreviation upload_claims := (main.upload_claims parsers connection reader decode str_http).

Lemma upload_each_app files1 files2 results total (db : DB) :
  upload_each (files1 ++ files2) results total db =
  match upload_each files1 results total db with
  | (Ok (results1, total1), db1) => upload_each files2 results1 total1 db1
  | (Raise e, db1) => (Raise e, db1)
  end.
Proof.
  revert results total db.
  induction files1 as [|file rest IH]; intros results total db; [reflexivity|].
  cbn [app main.upload_each].
  destruct (negb (Str.endswith ".csv" (main.filename file))); [reflexivity|].
  destruct (decode (main.content file)) as [csv_data|e]; [|reflexivity].
  destruct (data_import.import_csv_data _ _ _ _ _ _) as [[imported|e] db'];
    [apply IH|reflexivity].
Qed.

(** X23.  A file whose name does not end in ".csv" makes the whole upload
    answer with status 500: the 400 raised for it is caught by the handler
    of the endpoint.  The files before it have been imported by then and
    stay imported; the files after it are not looked at. *)
Theorem upload_with_other_file files file rest (db : DB) :
  Str.endswith ".csv" (main.filename file) = false ->
  exists e,
    fst (upload_claims (files ++ file :: rest) db) = inr e /\
    main.status_code e = 500%Z /\
    snd (upload_claims (files ++ file :: rest) db) = snd (upload_claims files db).
Proof.
  intros Hname. unfold main.upload_claims. rewrite upload_each_app.
  destruct (upload_each files [] 0%nat db) as [[[results total]|e] db1].
  - cbn [main.upload_each]. rewrite Hname. cbn [negb fst snd].
    eexists. repeat split.
  - cbn [fst snd]. eexists. repeat split.
Qed.

Lemma upload_each_ok files results total (db : DB) results' total' db' :
  upload_each files results total db = (Ok (results', total'), db') ->
  exists added,
    results' = results ++ added /\
    total' = (total + foldr Nat.add 0 (main.records_imported <$> added))%nat /\
    main.processed_filename <$> added = main.filename <$> files /\
    Forall (fun file => Str.endswith ".csv" (main.filename file) = true) files.
Proof.
  revert results total db.
  induction files as [|file rest IH]; intros results total db.
  - intros [= <- <- <-]. exists []. rewrite app_nil_r. simpl.
    repeat split; [lia|constructor].
  - cbn [main.upload_each].
    destruct (Str.endswith ".csv" (main.filename file)) eqn:Hname; [|discriminate].
    cbn [negb].
    destruct (decode (main.content file)) as [csv_data|e]; [|discriminate].
    destruct (data_import.import_csv_data _ _ _ _ _ _) as [[imported|e] db1];
      [|discriminate].
    intros Hrest. apply IH in Hrest as (added & -> & -> & Hnames & Hall).
    eexists (_ :: added). rewrite <- app_assoc. split; [reflexivity|].
    rewrite !fmap_cons. cbn [foldr main.records_imported main.processed_filename].
    split; [lia|]. split; [f_equal; exact Hnames|].
    constructor; assumption.
Qed.

(** X24.  An upload that answers with a response has imported every file:
    the response lists the files in the order given, one entry each, its
    total is the sum of the entries, and every name ends in ".csv". *)
Theorem upload_response_adds_up files (db : DB) response :
  fst (upload_claims files db) = inl response ->
  main.success response = true /\
  main.processed_filename <$> main.files_processed response = main.filename <$> files /\
  main.total_records response =
    foldr Nat.add 0%nat (main.records_imported <$> main.files_processed response) /\
  Forall (fun file => Str.endswith ".csv" (main.filename file) = true) files.
Proof.
  unfold main.upload_claims.
  destruct (upload_each files [] 0%nat db) as [[[results total]|e] db1] eqn:Hrun;
    [|discriminate].
  intros [= <-]. cbn [main.success main.files_processed main.total_records].
  apply upload_each_ok in Hrun as (added & -> & -> & Hnames & Hall).
  rewrite app_nil_l. repeat split; assumption.
Qed.

End UploadFacts.

Lemma upload_with_other_file_witness :
  exists e,
    fst (main.upload_claims Ledger.parsers (Some Ledger.connection) Ledger.reader Ok
           Ledger.str_http [Ledger.four; Ledger.notes; Ledger.short] []) = inr e /\
    main.status_code e = 500%Z /\
    snd (main.upload_claims Ledger.parsers (Some Ledger.connection) Ledger.reader Ok
           Ledger.str_http [Ledger.four; Ledger.notes; Ledger.short] []) =
    snd (main.upload_claims Ledger.parsers (Some Ledger.connection) Ledger.reader Ok
           Ledger.str_http [Ledger.four] []).
Proof.
  apply (upload_with_other_file Ledger.parsers (Some Ledger.connection) Ledger.reader Ok
           Ledger.str_http [Ledger.four] Ledger.notes [Ledger.short] []).
  reflexivity.
Defined.

Lemma upload_response_adds_up_witness :
  let response :=
    {| main.success := true;
       main.message := "Successfully imported 4 records from 2 files.";
       main.files_processed :=
         [ {| main.processed_filename := "four.csv"; main.records_imported := 3;
              main.status := "success" |};
           {| main.processed_filename := "short.csv"; main.records_imported := 1;
              main.status := "success" |} ];
       main.total_records := 4 |} in
  main.success response = true /\
  main.processed_filename <$> main.files_processed response =
    main.filename <$> [Ledger.four; Ledger.short] /\
  main.total_records response =
    foldr Nat.add 0%nat (main.records_imported <$> main.files_processed response) /\
  Forall (fun file => Str.endswith ".csv" (main.filename file) = true)
    [Ledger.four; Ledger.short].
Proof.
  apply (upload_response_adds_up Ledger.parsers (Some Ledger.connection) Ledger.reader Ok
           Ledger.str_http [Ledger.four; Ledger.short] []).
  vm_compute. reflexivity.
Defined.

(** ** Clearing the tables *)

(** On a statement that has a description, [execute_statement] is
    [execute_query] without parameters over the same cursor answer. *)
Lemma execute_statement_with_description {DB} (cursor : database.Cursor DB) env
    query db columns rows db1 :
  database.run cursor query db = (Ok (Some columns, rows), db1) ->
  cursor_execute env query None = Ok (columns, rows) ->
  database.execute_statement cursor query db = (execute_query env query None, db1).
Proof.
  intros Hrun Henv. unfold database.execute_statement, execute_query.
  rewrite Hrun, Henv. reflexivity.
Qed.

(** X25.  [clear_all_data] sends its three statements through
    [execute_query], which reads the description of the cursor.  When the
    first [DELETE] leaves none, as a statement without result rows does,
    [clear_all_data] raises after that statement has been carried out: the
    database is the one the first statement left, and the two other
    statements are not sent. *)
Theorem clear_all_data_stops_at_first_delete {DB} (cursor : database.Cursor DB) db rows db1 :
  database.run cursor "DELETE FROM messages" db = (Ok (None, rows), db1) ->
  data_import.clear_all_data cursor db = (Raise database.not_iterable, db1).
Proof.
  intros Hrun. unfold data_import.clear_all_data, database.execute_statement.
  rewrite Hrun. reflexivity.
Qed.

Lemma clear_all_data_stops_at_first_delete_witness :
  data_import.clear_all_data Ledger.cursor
    {| Ledger.messages := 5; Ledger.conversations := 2; Ledger.claims := 40 |} =
  (Raise database.not_iterable,
   {| Ledger.messages := 0; Ledger.conversations := 2; Ledger.claims := 40 |}).
Proof.
  apply (clear_all_data_stops_at_first_delete Ledger.cursor _ []).
  reflexivity.
Defined.

(** ** The filtered and the aggregated query *)

Module ReplaceFacts.

Import TextFacts.

Lemma prefix_app_l (old a b : string) :
  String.prefix old a = true -> String.prefix old (a +:+ b) = true.
Proof.
  intros H. apply prefix_inv in H as [r ->]. rewrite append_assoc. apply prefix_app.
Qed.

Lemma prefix_app_cases (old a b : string) :
  String.prefix old (a +:+ b) = true ->
  String.prefix old a = true \/ String.prefix a old = true.
Proof.
  revert a. induction old as [|c old IH]; intros a H.
  - left. destruct a; reflexivity.
  - destruct a as [|x a]; [right; reflexivity|].
    rewrite append_cons in H. simpl in H. simpl.
    destruct (Ascii.ascii_dec c x) as [->|]; [|discriminate].
    destruct (Ascii.ascii_dec x x); [|congruence].
    apply IH, H.
Qed.

Lemma replace_from_app old new a : forall skip b,
  Str.splits old skip a = true ->
  Str.replace_from old new skip (a +:+ b) =
  Str.replace_from old new skip a +:+ Str.replace_from old new 0 b.
Proof.
  induction a as [|c r IH]; intros skip b H.
  - simpl in H. apply Nat.eqb_eq in H as ->. reflexivity.
  - rewrite append_cons. cbn [Str.replace_from]. cbn [Str.splits] in H.
    destruct skip as [|k]; [|apply IH, H].
    rewrite <- append_cons.
    destruct (String.prefix old (String c r)) eqn:Hp.
    + rewrite (prefix_app_l _ _ b Hp), (IH _ b H), append_assoc. reflexivity.
    + apply andb_true_iff in H as [Hn H].
      destruct (String.prefix old (String c r +:+ b)) eqn:Hq.
      * apply prefix_app_cases in Hq as [Hq|Hq]; [congruence|].
        rewrite Hq in Hn. discriminate.
      * rewrite (IH _ b H), append_cons. reflexivity.
Qed.

Lemma replace_from_without c old new s :
  Str.without c s = true ->
  Str.replace_from (String c old) new 0 s = s.
Proof.
  induction s as [|x s IH]; intros H; [reflexivity|].
  cbn [Str.without Text.all_chars] in H. apply andb_true_iff in H as [Hx H].
  cbn [Str.replace_from String.prefix].
  destruct (Ascii.ascii_dec c x) as [->|].
  - rewrite Ascii.eqb_refl in Hx. discriminate.
  - f_equal. apply IH, H.
Qed.

Lemma replace_app c old new a b :
  Str.splits (String c old) 0 a = true ->
  Str.without c b = true ->
  Str.replace (String c old) new (a +:+ b) = Str.replace (String c old) new a +:+ b.
Proof.
  intros Ha Hb. unfold Str.replace.
  rewrite (replace_from_app _ _ _ _ _ Ha), (replace_from_without _ _ _ _ Hb).
  reflexivity.
Qed.

Lemma without_app c a b :
  Str.without c (a +:+ b) = Str.without c a && Str.without c b.
Proof.
  induction a as [|x a IH]; [reflexivity|].
  rewrite append_cons. cbn [Str.without Text.all_chars]. fold (Str.without c (a +:+ b)).
  fold (Str.without c a). rewrite IH, andb_assoc. reflexivity.
Qed.

Lemma pretty_N_go_without x : forall s,
  Str.without "$" s = true -> Str.without "$" (pretty_N_go x s) = true.
Proof.
  induction (N.lt_wf_0 x) as [x _ IH]. intros s Hs.
  assert (x = 0 \/ 0 < x)%N as [->|Hx] by lia; [exact Hs|].
  rewrite pretty_N_go_step by exact Hx.
  apply IH; [apply N.div_lt; lia|].
  cbn [Str.without Text.all_chars]. fold (Str.without "$" s). rewrite Hs.
  unfold pretty_N_char. repeat case_match; reflexivity.
Qed.

Lemma pretty_N_without (x : N) : Str.without "$" (pretty x) = true.
Proof.
  unfold pretty, pretty_N. destruct (decide (x = 0%N)); [reflexivity|].
  apply pretty_N_go_without. reflexivity.
Qed.

Lemma pretty_Z_without (z : Z) : Str.without "$" (pretty z) = true.
Proof.
  destruct z as [|p|p]; [reflexivity|apply pretty_N_without|].
  unfold pretty, pretty_Z. rewrite without_app.
  apply andb_true_iff. split; [reflexivity|apply pretty_N_without].
Qed.

End ReplaceFacts.

Section QueryFacts.

Import TextFacts.

Lemma filter_query_split where_text (limit : Z) :
  data_import.filter_query where_text limit =
  (Text.nl +:+ "            SELECT * FROM claims " +:+
   Text.nl +:+ "            " +:+ where_text +:+
   Text.nl +:+ "            ORDER BY claim_date DESC " +:+
   Text.nl +:+ "            LIMIT ") +:+
  (pretty limit +:+ Text.nl +:+ "            ").
Proof. unfold data_import.filter_query. rewrite !append_assoc. reflexivity. Qed.

Lemma limit_without (limit : Z) :
  Str.without "$" (pretty limit +:+ Text.nl +:+ "            ") = true.
Proof.
  rewrite ReplaceFacts.without_app, ReplaceFacts.pretty_Z_without. reflexivity.
Qed.

Lemma replace_dollar index new a b :
  Str.splits ("$" +:+ index) 0 a = true ->
  Str.without "$" b = true ->
  Str.replace ("$" +:+ index) new (a +:+ b) = Str.replace ("$" +:+ index) new a +:+ b.
Proof. apply ReplaceFacts.replace_app. Qed.

Lemma add_filters filters columns : forall where_conditions params param_count,
  let chosen := filter (fun column => truthy (filters !! column.1) = true) columns in
  foldl (data_import.add_filter filters) (where_conditions, params, param_count) columns =
  (where_conditions ++ data_import.numbered param_count chosen,
   params ++ ((fun column => data_import.item filters column.1) <$> chosen),
   (param_count + length chosen)%nat).
Proof.
  cbv zeta.
  induction columns as [|column rest IH]; intros where_conditions params param_count.
  - simpl. rewrite !app_nil_r, Nat.add_0_r. reflexivity.
  - cbn [foldl data_import.add_filter]. rewrite filter_cons.
    destruct (truthy (filters !! column.1)) eqn:Hgiven.
    + rewrite decide_True by reflexivity. rewrite IH.
      cbn [data_import.numbered fmap list_fmap length].
      rewrite <- !app_assoc, Nat.add_succ_r. reflexivity.
    + rewrite decide_False by discriminate. apply IH.
Qed.

Lemma filter_pick {A} (P : A -> Prop) `{!forall x, Decision (P x)} x l :
  exists b : bool, filter P (x :: l) = (if b then [x] else []) ++ filter P l.
Proof.
  rewrite filter_cons. destruct (decide (P x)); [exists true|exists false]; reflexivity.
Qed.

Lemma to_pg_app a b indices :
  Str.without "$" b = true ->
  data_import.passes_split a indices = true ->
  foldl (fun pg_query i => Str.replace ("$" +:+ pretty (i + 1)%nat) "%s" pg_query)
        (a +:+ b) indices =
  foldl (fun pg_query i => Str.replace ("$" +:+ pretty (i + 1)%nat) "%s" pg_query)
        a indices +:+ b.
Proof.
  intros Hb. revert a. induction indices as [|i rest IH]; intros a Ha; [reflexivity|].
  cbn [data_import.passes_split] in Ha. apply andb_true_iff in Ha as [Hsplit Ha].
  cbn [foldl]. rewrite (replace_dollar _ _ _ _ Hsplit Hb). apply IH, Ha.
Qed.

Lemma to_pg_checked a b count a' :
  Str.without "$" b = true ->
  data_import.passes_split a (seq 0 count) && String.eqb (data_import.to_pg a count) a'
    = true ->
  data_import.to_pg (a +:+ b) count = a' +:+ b.
Proof.
  intros Hb H. apply andb_true_iff in H as [Ha Heq]. apply String.eqb_eq in Heq as <-.
  apply to_pg_app; assumption.
Qed.

Lemma to_pg_numbered chosen (limit : Z) :
  (exists b1 b2 b3 b4 b5 b6 : bool,
     chosen =
     (if b1 then [("claim_status", "claim_status = ")] else []) ++
     (if b2 then [("claim_type", "claim_type = ")] else []) ++
     (if b3 then [("min_amount", "claim_amount >= ")] else []) ++
     (if b4 then [("max_amount", "claim_amount <= ")] else []) ++
     (if b5 then [("start_date", "claim_date >= ")] else []) ++
     (if b6 then [("end_date", "claim_date <= ")] else [])) ->
  data_import.to_pg
    (data_import.filter_query
       (data_import.where_clause (data_import.numbered 1 chosen)) limit)
    (length chosen) =
  data_import.filter_query
    (data_import.where_clause ((fun column => column.2 +:+ "%s") <$> chosen)) limit.
Proof.
  intros (b1 & b2 & b3 & b4 & b5 & b6 & ->).
  rewrite !filter_query_split.
  apply to_pg_checked; [apply limit_without|].
  destruct b1, b2, b3, b4, b5, b6; vm_compute; reflexivity.
Qed.

(** X26.  The statement of [get_claims_by_filter] after the conversion of
    the placeholders: the conditions of the filters that are given with a
    true value, in the order of the code, each with "%s" where its value
    goes, and the values as parameters in the same order.  The text depends
    on which filters are given and on the limit, and on no filter value; a
    filter given as 0, as the empty string or as [None] is left out. *)
Theorem filter_statement_placeholders filters (limit : Z) :
  let chosen :=
    filter (fun column => truthy (filters !! column.1) = true)
           data_import.filter_columns in
  data_import.filter_statement filters limit =
  (data_import.filter_query
     (data_import.where_clause ((fun column => column.2 +:+ "%s") <$> chosen)) limit,
   (fun column => data_import.item filters column.1) <$> chosen).
Proof.
  cbv zeta. unfold data_import.filter_statement.
  rewrite add_filters. rewrite !app_nil_l, length_fmap.
  f_equal. apply to_pg_numbered.
  unfold data_import.filter_columns.
  set (P := fun column : string * string => truthy (filters !! column.1) = true).
  destruct (filter_pick P ("claim_status", "claim_status = ")
              [("claim_type", "claim_type = "); ("min_amount", "claim_amount >= ");
               ("max_amount", "claim_amount <= "); ("start_date", "claim_date >= ");
               ("end_date", "claim_date <= ")]) as [b1 ->].
  destruct (filter_pick P ("claim_type", "claim_type = ")
              [("min_amount", "claim_amount >= ");
               ("max_amount", "claim_amount <= "); ("start_date", "claim_date >= ");
               ("end_date", "claim_date <= ")]) as [b2 ->].
  destruct (filter_pick P ("min_amount", "claim_amount >= ")
              [("max_amount", "claim_amount <= "); ("start_date", "claim_date >= ");
               ("end_date", "claim_date <= ")]) as [b3 ->].
  destruct (filter_pick P ("max_amount", "claim_amount <= ")
              [("start_date", "claim_date >= "); ("end_date", "claim_date <= ")])
    as [b4 ->].
  destruct (filter_pick P ("start_date", "claim_date >= ")
              [("end_date", "claim_date <= ")]) as [b5 ->].
  destruct (filter_pick P ("end_date", "claim_date <= ") []) as [b6 ->].
  rewrite filter_nil, app_nil_r.
  exists b1, b2, b3, b4, b5, b6. reflexivity.
Qed.

(** X27.  For a [group_by] among the four permitted columns, the statement
    of [get_aggregated_data] has exactly as many "%s" as it has parameters,
    two at most: the column name is the only text that comes from the
    caller, and the dates travel as parameters. *)
Theorem aggregate_statement_placeholders env group_by filters :
  group_by ∈ data_import.valid_group_fields ->
  exists query params,
    data_import.aggregate_statement group_by filters = (query, params) /\
    data_import.get_aggregated_data env group_by filters =
      execute_query env query (Some params) /\
    Str.count "%s" query = length params /\
    (length params <= 2)%nat.
Proof.
  intros Hvalid. unfold data_import.get_aggregated_data.
  rewrite (bool_decide_eq_true_2 _ Hvalid).
  destruct (data_import.aggregate_statement group_by filters) as [query params] eqn:Hst.
  exists query, params. split; [reflexivity|]. split; [reflexivity|].
  unfold data_import.aggregate_statement, data_import.date_filter in Hst.
  injection Hst as <- <-.
  unfold data_import.valid_group_fields in Hvalid.
  destruct filters as [given|];
    [destruct (bool_decide (given = ∅));
       [|destruct (truthy (given !! "start_date")), (truthy (given !! "end_date"))]|];
    cbn [app fmap list_fmap fst snd length];
    (split; [|lia]);
    repeat (apply elem_of_cons in Hvalid as [->|Hvalid]; [vm_compute; reflexivity|]);
    apply elem_of_nil in Hvalid; contradiction.
Qed.

End QueryFacts.

Lemma aggregate_statement_placeholders_witness :
  exists query params,
    data_import.aggregate_statement "claim_type"
      (Some {[ "start_date" := VStr "2024-01-01"; "end_date" := VInt 0 ]}) =
      (query, params) /\
    data_import.get_aggregated_data (Scenario.world Scenario.two_claims) "claim_type"
      (Some {[ "start_date" := VStr "2024-01-01"; "end_date" := VInt 0 ]}) =
      execute_query (Scenario.world Scenario.two_claims) query (Some params) /\
    Str.count "%s" query = length params /\
    (length params <= 2)%nat.
Proof.
  apply aggregate_statement_placeholders.
  unfold data_import.valid_group_fields. apply list_elem_of_lookup_2 with 1%nat.
  reflexivity.
Defined.

(** ** Dates and rows *)

(** X28.  The date formats are tried in the order of the code, and the
    first that reads the text wins: a text that is no ISO date and that
    month/day/year reads is that date, whatever day/month/year would make
    of it. *)
Theorem ambiguous_date_is_month_first {Date Decimal}
    (parsers : models.Parsers Date Decimal) cell d :
  Str.strip cell <> "" ->
  models.strptime parsers (Str.strip cell) "%Y-%m-%d" = None ->
  models.strptime parsers (Str.strip cell) "%m/%d/%Y" = Some d ->
  models.safe_date parsers (Some (Some cell)) = Some d.
Proof.
  intros Htext Hiso Hmonth. unfold models.safe_date, models.stripped, models.or_none.
  destruct (String.eqb cell "") eqn:Hcell.
  - apply String.eqb_eq in Hcell. subst cell. contradiction.
  - apply StrFacts.eqb_empty in Htext. rewrite Htext.
    cbn [models.date_formats models.first_format]. rewrite Hiso, Hmonth. reflexivity.
Qed.

Lemma ambiguous_date_is_month_first_witness :
  models.safe_date Ledger.slashes (Some (Some " 03/04/2024 ")) = Some "%m/%d/%Y".
Proof.
  apply ambiguous_date_is_month_first; [discriminate|reflexivity|reflexivity].
Defined.

Lemma row_dict_cons column columns v row :
  row_dict (column :: columns) (v :: row) = row_dict columns row ∪ {[ column := v ]}.
Proof.
  unfold row_dict. cbn [zip zip_with]. rewrite reverse_cons, list_to_map_app.
  cbn [list_to_map foldr]. rewrite insert_empty. reflexivity.
Qed.

(** X29.  A row comes back from [execute_query] as a dict from column names
    to values.  The value of the cell at position [i] is found under the
    name of column [i], provided no later column of the row has the same
    name; of two columns with one name the dict keeps the later. *)
Theorem row_read_back_by_column columns row i column v :
  columns !! i = Some column ->
  row !! i = Some v ->
  (forall j, (i < j)%nat -> (j < length row)%nat -> columns !! j <> Some column) ->
  row_dict columns row !! column = Some v.
Proof.
  revert row i. induction columns as [|c columns IH]; intros row i Hc Hv Hlast.
  - rewrite lookup_nil in Hc. discriminate.
  - destruct row as [|w row]; [rewrite lookup_nil in Hv; discriminate|].
    rewrite row_dict_cons.
    destruct i as [|i].
    + injection Hc as ->. injection Hv as ->.
      apply lookup_union_Some_raw. right. split; [|apply lookup_singleton_eq].
      unfold row_dict. apply not_elem_of_list_to_map_1.
      intros Hin. apply list_elem_of_fmap in Hin as ([c' w'] & -> & Hin).
      rewrite elem_of_reverse in Hin. apply list_elem_of_lookup in Hin as [j Hj].
      apply lookup_zip_with_Some in Hj as (x & y & [= <- <-] & Hx & Hy).
      apply (Hlast (S j)); [lia| |exact Hx].
      apply lookup_lt_Some in Hy. cbn [length]. lia.
    + apply lookup_union_Some_raw. left.
      apply (IH row i); [exact Hc|exact Hv|].
      intros j Hij Hj. apply (Hlast (S j)); [lia|cbn [length]; lia].
Qed.

Lemma row_read_back_by_column_witness :
  row_dict ["claim_id"; "total"; "claim_id"] [VStr "CLM-1"; VInt 2; VStr "CLM-2"]
    !! "claim_id" = Some (VStr "CLM-2").
Proof.
  apply (row_read_back_by_column _ _ 2); [reflexivity|reflexivity|].
  intros j Hij Hj. cbn [length] in Hj. lia.
Defined.
